(** * tokamak-agent-teams: the coordination core, embedded and verified

    The development follows the repository's files:
    - [JS]        the fragments of JavaScript's string and number
                  behaviour the dashboard relies on (trim, split,
                  parseInt, truthiness);
    - [Session]   src/dashboard/session.js  (Session, SessionManager);
    - [Server]    the worker-count clamp of POST /api/forge in
                  src/dashboard/server.js;
    - [Watcher]   src/dashboard/watcher.js  (RepoWatcher);
    - [AgentLoop] the worker's bash loop;
    - [Docker]    the container manager (launchAgents, streamLogs,
                  stopAll);
    - [Forge]     src/dashboard/forge.js  (ForgeProcess.run);
    - [Dashboard] the forge and stop routes of src/dashboard/server.js
                  and runForge;
    - [Samples], [MoreSamples]  concrete inputs for the examples.
    The facts about them follow, in the same order.

    Mutable objects become explicit state passing, [throw] becomes a
    [result], and everything the code reads from outside (git output,
    directory listings, the clock, random bytes, exit statuses) is an
    argument. *)

From Stdlib Require Import ZArith NArith String Ascii List Lia.
From Stdlib Require Import DecimalString DecimalN Sorted.
From stdpp Require Import base option list gmap strings.

Local Open Scope string_scope.
Local Open Scope Z_scope.

(* ===================================================================== *)
(** * JavaScript fragments *)
(* ===================================================================== *)

Module JS.

(** A JavaScript number as far as this code uses it: an integer or NaN.
    Integers are kept exact; the source's doubles agree with them below
    2^53. *)
Inductive number : Type :=
| Num (z : Z)
| NaN.

(** Truthiness of a string: only the empty string is falsy. *)
Definition truthy (s : string) : bool :=
  match s with
  | EmptyString => false
  | String _ _ => true
  end.

(** Truthiness of a number: 0 and NaN are falsy. *)
Definition truthy_num (n : number) : bool :=
  match n with
  | Num z => negb (z =? 0)
  | NaN => false
  end.

(** [a || b] on numbers. *)
Definition or_num (a b : number) : number :=
  if truthy_num a then a else b.

Definition max_num (a b : number) : number :=
  match a, b with
  | Num x, Num y => Num (Z.max x y)
  | _, _ => NaN
  end.

Definition min_num (a b : number) : number :=
  match a, b with
  | Num x, Num y => Num (Z.min x y)
  | _, _ => NaN
  end.

(** The ASCII white space (tab, line feed, vertical tab, form feed,
    carriage return, space): all the white space there is at the ends
    of what the git commands print.  [trim_unicode] below covers the
    rest. *)
Definition is_space (c : ascii) : bool :=
  let n := nat_of_ascii c in
  ((9 <=? n) && (n <=? 13))%nat || (n =? 32)%nat.

Definition is_digit (c : ascii) : bool :=
  let n := nat_of_ascii c in
  ((48 <=? n) && (n <=? 57))%nat.

Fixpoint trimStart (s : string) : string :=
  match s with
  | EmptyString => EmptyString
  | String c s' => if is_space c then trimStart s' else s
  end.

Fixpoint trimEnd (s : string) : string :=
  match s with
  | EmptyString => EmptyString
  | String c s' =>
      match trimEnd s' with
      | EmptyString => if is_space c then EmptyString else String c EmptyString
      | t => String c t
      end
  end.

Definition trim (s : string) : string := trimEnd (trimStart s).

(** Strings stand for JavaScript strings by their UTF-8 encoding.  The
    white space [String.prototype.trim] strips is, besides the six ASCII
    characters of [is_space], U+00A0, U+1680, U+2000 to U+200A, U+2028,
    U+2029, U+202F, U+205F, U+3000 and U+FEFF.  [wide_space c d e] tells
    whether the three bytes encode one of those that take three. *)
Definition wide_space (c d e : ascii) : bool :=
  let x := nat_of_ascii c in
  let y := nat_of_ascii d in
  let z := nat_of_ascii e in
  ((x =? 225) && (y =? 154) && (z =? 128)
   || (x =? 226) && (y =? 128)
      && (((128 <=? z) && (z <=? 138)) || (z =? 168) || (z =? 169) || (z =? 175))
   || (x =? 226) && (y =? 129) && (z =? 159)
   || (x =? 227) && (y =? 128) && (z =? 128)
   || (x =? 239) && (y =? 187) && (z =? 191))%nat.

(** U+00A0, the one that takes two bytes. *)
Definition nbsp (c d : ascii) : bool :=
  ((nat_of_ascii c =? 194) && (nat_of_ascii d =? 160))%nat.

(** Whether [s] is exactly one white-space character. *)
Definition one_space (s : string) : bool :=
  match s with
  | String c EmptyString => is_space c
  | String c (String d EmptyString) => nbsp c d
  | String c (String d (String e EmptyString)) => wide_space c d e
  | _ => false
  end.

Fixpoint trimStart_unicode (s : string) : string :=
  match s with
  | EmptyString => EmptyString
  | String c r =>
      if is_space c then trimStart_unicode r
      else
        match r with
        | String d r1 =>
            if nbsp c d then trimStart_unicode r1
            else
              match r1 with
              | String e r2 =>
                  if wide_space c d e then trimStart_unicode r2 else s
              | EmptyString => s
              end
        | EmptyString => s
        end
  end.

Fixpoint trimEnd_unicode (s : string) : string :=
  match s with
  | EmptyString => EmptyString
  | String c r =>
      let t := String c (trimEnd_unicode r) in
      if one_space t then EmptyString else t
  end.

(** [s.trim()] in full.  [trim] above is the same on text that neither
    begins nor ends with one of the non-ASCII white-space characters. *)
Definition trim_unicode (s : string) : string :=
  trimEnd_unicode (trimStart_unicode s).

(** [s.split(sep)] for a one-character separator: never the empty list,
    and [("").split(sep)] is the list holding the empty string. *)
Fixpoint split (sep : ascii) (s : string) : list string :=
  match s with
  | EmptyString => [EmptyString]
  | String c s' =>
      if Ascii.eqb c sep then EmptyString :: split sep s'
      else match split sep s' with
           | [] => [String c EmptyString]
           | w :: ws => String c w :: ws
           end
  end.

(** The longest prefix of digits, and what follows it: a greedy [\d*]. *)
Fixpoint span_digits (s : string) : string * string :=
  match s with
  | EmptyString => (EmptyString, EmptyString)
  | String c s' =>
      if is_digit c then
        let '(d, r) := span_digits s' in (String c d, r)
      else (EmptyString, s)
  end.

Fixpoint all_digits (s : string) : bool :=
  match s with
  | EmptyString => true
  | String c s' => is_digit c && all_digits s'
  end.

(** The value of a string of decimal digits. *)
Definition digits_value (s : string) : Z :=
  match NilEmpty.uint_of_string s with
  | Some u => Z.of_N (N.of_uint u)
  | None => 0
  end.

(** [parseInt(s, 10)]: skip leading white space (all of it, as
    [trim_unicode] does), read an optional sign, then the longest run
    of digits; NaN when that run is empty.  What
    follows the digits is ignored.  The value is the exact integer,
    which is the number JavaScript returns as long as it is below 2^53
    in absolute value; above, JavaScript rounds to the nearest double. *)
Definition parseInt10 (s : string) : number :=
  let s1 := trimStart_unicode s in
  let '(neg, s2) :=
    match s1 with
    | String "-" r => (true, r)
    | String "+" r => (false, r)
    | _ => (false, s1)
    end in
  let '(d, _) := span_digits s2 in
  if truthy d then Num (if neg then - digits_value d else digits_value d)
  else NaN.

(** [String(n)] for an integer [n] (plain decimal notation, which is what
    JavaScript prints for integers below 10^21). *)
Definition string_of_Z (z : Z) : string :=
  if z <? 0 then "-" +:+ NilEmpty.string_of_uint (N.to_uint (Z.abs_N z))
  else NilEmpty.string_of_uint (N.to_uint (Z.to_N z)).

(** [s.endsWith(suffix)]-style tests and [s.includes(sub)]. *)
Fixpoint starts_with (p s : string) : bool :=
  match p, s with
  | EmptyString, _ => true
  | String a p', String b s' => Ascii.eqb a b && starts_with p' s'
  | String _ _, EmptyString => false
  end.

Fixpoint includes (sub s : string) : bool :=
  starts_with sub s ||
  match s with
  | EmptyString => false
  | String _ s' => includes sub s'
  end.

(** What is left of [s] after the prefix [p], when [s] starts with it. *)
Fixpoint strip_prefix (p s : string) : option string :=
  match p, s with
  | EmptyString, _ => Some s
  | String a p', String b s' =>
      if Ascii.eqb a b then strip_prefix p' s' else None
  | String _ _, EmptyString => None
  end.

End JS.

(* ===================================================================== *)
(** * session.js *)
(* ===================================================================== *)

Module Session.

(** The STATUS table. *)
Definition INITIALIZING : string := "initializing".
Definition SCAFFOLDING : string := "scaffolding".
Definition GENERATING_SPEC : string := "generating-spec".
Definition LAUNCHING_AGENTS : string := "launching-agents".
Definition RUNNING : string := "running".
Definition STOPPED : string := "stopped".

Record LogEntry : Type := mkLogEntry {
  time : Z;
  message : string
}.

Record Session : Type := mkSession {
  id : string;
  gameName : string;
  agentCount : JS.number;
  status : string;
  repoPath : option string;
  workDir : option string;
  logs : list LogEntry;
  forgeStep : Z;
  forgeSteps : list string;
  containerIds : list string;
  createdAt : Z
}.

(** [crypto.randomBytes(4)]: the four bytes are an input. *)
Record Bytes4 : Type := mkBytes4 {
  b0 : Byte.byte; b1 : Byte.byte; b2 : Byte.byte; b3 : Byte.byte
}.

Definition hex_digit (n : N) : ascii :=
  if (n <? 10)%N then ascii_of_N (48 + n) else ascii_of_N (87 + n).

(** [buf.toString('hex')]: two lower-case digits per byte. *)
Definition hex_byte (b : Byte.byte) (rest : string) : string :=
  let n := Byte.to_N b in
  String (hex_digit (n / 16)) (String (hex_digit (n mod 16)) rest).

Definition toHex (r : Bytes4) : string :=
  hex_byte (b0 r) (hex_byte (b1 r) (hex_byte (b2 r) (hex_byte (b3 r) EmptyString))).

(** [new Session(gameName, agentCount)], given the random bytes and the
    clock reading the constructor draws. *)
Definition new_Session (gameName : string) (agentCount : JS.number)
    (rnd : Bytes4) (now : Z) : Session :=
  {| id := toHex rnd;
     gameName := gameName;
     agentCount := agentCount;
     status := INITIALIZING;
     repoPath := None;
     workDir := None;
     logs := [];
     forgeStep := 0;
     forgeSteps := [ "Checking prerequisites";
                     "Creating bare repository";
                     "Scaffolding project";
                     "Generating SPEC.md";
                     "Setting up tests";
                     "Initial commit & push";
                     "Launching agents" ];
     containerIds := [];
     createdAt := now |}.

Definition with_status (st : string) (s : Session) : Session :=
  {| id := id s; gameName := gameName s; agentCount := agentCount s;
     status := st; repoPath := repoPath s; workDir := workDir s;
     logs := logs s; forgeStep := forgeStep s; forgeSteps := forgeSteps s;
     containerIds := containerIds s; createdAt := createdAt s |}.

Definition with_forgeStep (n : Z) (s : Session) : Session :=
  {| id := id s; gameName := gameName s; agentCount := agentCount s;
     status := status s; repoPath := repoPath s; workDir := workDir s;
     logs := logs s; forgeStep := n; forgeSteps := forgeSteps s;
     containerIds := containerIds s; createdAt := createdAt s |}.

Definition with_logs (l : list LogEntry) (s : Session) : Session :=
  {| id := id s; gameName := gameName s; agentCount := agentCount s;
     status := status s; repoPath := repoPath s; workDir := workDir s;
     logs := l; forgeStep := forgeStep s; forgeSteps := forgeSteps s;
     containerIds := containerIds s; createdAt := createdAt s |}.

Definition setStatus (st : string) (s : Session) : Session := with_status st s.

Definition setForgeStep (step : Z) (s : Session) : Session := with_forgeStep step s.

(** [addLog(message)]: push, then shift once when the length exceeds 500.
    Returns the entry and the updated session. *)
Definition addLog (now : Z) (msg : string) (s : Session) : LogEntry * Session :=
  let entry := {| time := now; message := msg |} in
  let pushed := (logs s ++ [entry])%list in
  let kept := if (500 <? length pushed)%nat then tail pushed else pushed in
  (entry, with_logs kept s).

(** [arr.slice(-n)]: the last [n] elements. *)
Definition slice_last {A} (n : nat) (l : list A) : list A :=
  drop (length l - n) l.

(** [toJSON()]: a copy of the fields with only the last 50 logs; the
    session itself is left as it is. *)
Definition toJSON (s : Session) : Session := with_logs (slice_last 50 (logs s)) s.

(** The operations a holder of a Session object can perform on it. *)
Inductive SessionOp : Type :=
| OpSetStatus (st : string)
| OpSetForgeStep (step : Z)
| OpAddLog (now : Z) (msg : string)
| OpToJSON.

Definition apply_op (s : Session) (op : SessionOp) : Session :=
  match op with
  | OpSetStatus st => setStatus st s
  | OpSetForgeStep n => setForgeStep n s
  | OpAddLog now msg => snd (addLog now msg s)
  | OpToJSON => s
  end.

Definition run_ops (ops : list SessionOp) (s : Session) : Session :=
  foldl apply_op s ops.

(** ** SessionManager *)

(** The Map holds each session under its id; [activeSessionId] is null
    ([None]) or a string. *)
Record SessionManager : Type := mkManager {
  sessions : gmap string Session;
  activeSessionId : option string
}.

Definition new_SessionManager : SessionManager :=
  {| sessions := ∅; activeSessionId := None |}.

(** What a method leaves behind: a returned value or a thrown Error. *)
Inductive result (A : Type) : Type :=
| Ok (a : A)
| Throw (msg : string).
Arguments Ok {A} a.
Arguments Throw {A} msg.

(** The guard of [create]: the session that blocks creation, if any. *)
Definition blocking (m : SessionManager) : option Session :=
  match activeSessionId m with
  | Some aid =>
      if JS.truthy aid then
        match sessions m !! aid with
        | Some existing =>
            if negb (String.eqb (status existing) STOPPED) then Some existing
            else None
        | None => None
        end
      else None
  | None => None
  end.

(** [create(gameName, agentCount)]: the outcome and the manager as the
    call leaves it. *)
Definition create (gameName : string) (agentCount : JS.number) (rnd : Bytes4) (now : Z)
    (m : SessionManager) : result Session * SessionManager :=
  match blocking m with
  | Some existing =>
      (Throw ("Session already active: " +:+ Session.gameName existing
              +:+ " (" +:+ id existing +:+ ")"), m)
  | None =>
      let session := new_Session gameName agentCount rnd now in
      (Ok session,
       {| sessions := <[id session := session]> (sessions m);
          activeSessionId := Some (id session) |})
  end.

Definition getActive (m : SessionManager) : option Session :=
  match activeSessionId m with
  | Some aid =>
      if JS.truthy aid then
        match sessions m !! aid with
        | Some session =>
            if String.eqb (status session) STOPPED then None else Some session
        | None => None
        end
      else None
  | None => None
  end.

Definition get (i : string) (m : SessionManager) : option Session :=
  sessions m !! i.

(** [id || this.activeSessionId]: the key [stop] looks up ([None] when
    both are falsy and the lookup key is null or undefined). *)
Definition stop_key (i : option string) (m : SessionManager) : option string :=
  match i with
  | Some k => if JS.truthy k then Some k else activeSessionId m
  | None => activeSessionId m
  end.

(** [stop(id)]: the found session gets status 'stopped' in place. *)
Definition stop (i : option string) (m : SessionManager)
    : option Session * SessionManager :=
  match stop_key i m with
  | Some k =>
      match sessions m !! k with
      | Some session =>
          let stopped := setStatus STOPPED session in
          (Some stopped,
           {| sessions := <[k := stopped]> (sessions m);
              activeSessionId := activeSessionId m |})
      | None => (None, m)
      end
  | None => (None, m)
  end.

(** A call of one of the manager's two mutating methods. *)
Inductive ManagerCall : Type :=
| CallCreate (gameName : string) (agentCount : JS.number) (rnd : Bytes4) (now : Z)
| CallStop (i : option string).

Definition call (m : SessionManager) (c : ManagerCall) : SessionManager :=
  match c with
  | CallCreate gameName agentCount rnd now =>
      snd (create gameName agentCount rnd now m)
  | CallStop i => snd (stop i m)
  end.

(** The registry invariant of the single-session design: a session that
    is not stopped is the one [activeSessionId] names.  The manager's own
    methods keep it. *)
Definition single_live (m : SessionManager) : Prop :=
  ∀ i s, sessions m !! i = Some s → status s ≠ STOPPED →
         activeSessionId m = Some i ∧ i ≠ "".

End Session.

(* ===================================================================== *)
(** * server.js: POST /api/forge *)
(* ===================================================================== *)

Module Server.

(** A value of the parsed request body.  [VInt] is an integer-valued
    number below 10^21 in absolute value, which JavaScript prints in
    plain decimal notation; a value of any other shape (a fraction, a
    larger number, an array, an object) is represented by what
    JavaScript's ToString makes of it, which is all [parseInt] looks
    at. *)
Inductive JSValue : Type :=
| VNull
| VBool (b : bool)
| VInt (z : Z)
| VString (s : string)
| VOther (shown : string).

Definition ToString (v : JSValue) : string :=
  match v with
  | VNull => "null"
  | VBool true => "true"
  | VBool false => "false"
  | VInt z => JS.string_of_Z z
  | VString s => s
  | VOther shown => shown
  end.

(** The fields of the body the handler destructures; [None] is a missing
    field (undefined), for which the destructuring default applies. *)
Record Body : Type := mkBody {
  body_gameName : option JSValue;
  body_agentCount : option JSValue;
  body_gameDescription : option JSValue
}.

(** [Math.min(Math.max(parseInt(agentCount, 10) || 3, 1), 5)] with
    [agentCount = 3] when the field is missing. *)
Definition forge_count (field : option JSValue) : JS.number :=
  let agentCount := default (VInt 3) field in
  JS.min_num
    (JS.max_num
       (JS.or_num (JS.parseInt10 (ToString agentCount)) (JS.Num 3))
       (JS.Num 1))
    (JS.Num 5).

(** The same count, read off what [parseInt] made of the field: the
    closed form [forge_count] is compared with. *)
Definition clamp (parsed : JS.number) : Z :=
  match parsed with
  | JS.Num z => if z =? 0 then 3 else Z.min (Z.max z 1) 5
  | JS.NaN => 3
  end.

(** [/^[a-zA-Z0-9_-]+$/] *)
Definition name_char (c : ascii) : bool :=
  let n := nat_of_ascii c in
  (((97 <=? n) && (n <=? 122)) || ((65 <=? n) && (n <=? 90))
   || ((48 <=? n) && (n <=? 57)) || (n =? 95) || (n =? 45))%nat.

Fixpoint all_name_chars (s : string) : bool :=
  match s with
  | EmptyString => true
  | String c s' => name_char c && all_name_chars s'
  end.

Definition valid_gameName (s : string) : bool :=
  JS.truthy s && all_name_chars s.

(** The handler's answer: the HTTP status it sends, and the session it
    created when it did. *)
Inductive Reply : Type :=
| Reply400
| Reply409 (error : string)
| Reply200 (session : Session.Session).

Definition post_forge (body : Body) (rnd : Session.Bytes4) (now : Z)
    (m : Session.SessionManager) : Reply * Session.SessionManager :=
  match body_gameName body with
  | Some (VString gameName) =>
      if negb (JS.truthy gameName) then (Reply400, m)
      else if negb (valid_gameName gameName) then (Reply400, m)
      else
        let count := forge_count (body_agentCount body) in
        match Session.create gameName count rnd now m with
        | (Session.Ok session, m') => (Reply200 session, m')
        | (Session.Throw msg, m') => (Reply409 msg, m')
        end
  | _ => (Reply400, m)
  end.

End Server.

(* ===================================================================== *)
(** * watcher.js *)
(* ===================================================================== *)

Module Watcher.

Definition LF : ascii := "010"%char.
Definition BAR : ascii := "|"%char.

(** A commit as [updateCommits] destructures a log line: a field the line
    does not have is undefined ([None]). *)
Record Commit : Type := mkCommit {
  hash : option string;
  author : option string;
  message : option string;
  timeAgo : option string
}.

Record Task : Type := mkTask {
  file : string;
  agentId : string;
  timestamp : JS.number;
  description : string
}.

Record AgentStatus : Type := mkAgent {
  id : string;
  status : string;
  currentTask : option string;
  commitCount : Z;
  taskCount : Z
}.

Record SpecModule : Type := mkSpecModule {
  name : string;
  module_status : string
}.

(** [this.state].  [testResults] is only ever null. *)
Record State : Type := mkState {
  agents : gmap string AgentStatus;
  commits : list Commit;
  currentTasks : list Task;
  completedTaskCount : Z;
  testResults : unit;
  totalLines : Z;
  totalCommits : JS.number;
  specModules : list SpecModule
}.

Record RepoWatcher : Type := mkWatcher {
  repoPath : string;
  lastCommitHash : option string;
  state : State
}.

Definition initial_state : State :=
  {| agents := ∅; commits := []; currentTasks := [];
     completedTaskCount := 0; testResults := tt; totalLines := 0;
     totalCommits := JS.Num 0; specModules := [] |}.

(** [new RepoWatcher(repoPath)] *)
Definition new_RepoWatcher (path : string) : RepoWatcher :=
  {| repoPath := path; lastCommitHash := None; state := initial_state |}.

(** What listeners receive. *)
Inductive Event : Type :=
| newCommit (c : Commit)
| stateEvent (snapshot : State).

(** An entry of the src/ tree as [walkDir] sees it; [None] stands for a
    file or directory whose read throws. *)
#[warnings="-register-all"]
Inductive Entry : Type :=
| EFile (entry_name : string) (content : option string)
| EDir (entry_name : string) (entries : option (list Entry)).

(** A string between double quotes. *)
Definition quoted (s : string) : string :=
  String "034" (s +:+ String "034" EmptyString).

(** The two commands [updateCommits] passes to [execGit]. *)
Definition LOG_COMMAND : string :=
  "log --oneline --format=" +:+ quoted "%H|%an|%s|%cr" +:+ " -30".

Definition COUNT_COMMAND : string := "rev-list --count HEAD".

(** What the repository and the file system answer during one poll.
    [git cmd] is the standard output of [git -C <repoPath> cmd], [None]
    when the command fails or times out; a directory listing or a file
    read that throws is [None] as well. *)
Record World : Type := mkWorld {
  git : string → option string;
  dir_current_tasks : option (list (string * option string));
  dir_completed_tasks : option (list string);
  src_tree : option (list Entry);
  spec_headings : option (list string)
}.

(** git's answers to the two commands of [updateCommits]. *)
Definition git_log (wd : World) : option string := git wd LOG_COMMAND.

Definition git_rev_count (wd : World) : option string := git wd COUNT_COMMAND.

(** A repository that answers the two commands as given, and no other. *)
Definition answering (log count : option string) (cmd : string)
    : option string :=
  if String.eqb cmd LOG_COMMAND then log
  else if String.eqb cmd COUNT_COMMAND then count
  else None.

(** [execGit(cmd)], given git's answer to [cmd]: the trimmed standard
    output, or the empty string when the command throws. *)
Definition execGit (answer : option string) : string :=
  match answer with
  | Some out => JS.trim out
  | None => ""
  end.

(** [const [hash, author, message, timeAgo] = line.split('|')] *)
Definition parse_line (line : string) : Commit :=
  let fields := JS.split BAR line in
  {| hash := fields !! 0%nat;
     author := fields !! 1%nat;
     message := fields !! 2%nat;
     timeAgo := fields !! 3%nat |}.

(** [log.split('\n').filter(Boolean).map(...)] *)
Definition parse_log (log : string) : list Commit :=
  List.map parse_line (List.filter JS.truthy (JS.split LF log)).

(** [latestHash && latestHash !== this.lastCommitHash] *)
Definition head_changed (latestHash : option string) (last : option string) : bool :=
  match latestHash with
  | Some h => JS.truthy h && negb (bool_decide (last = Some h))
  | None => false
  end.

Definition set_commits (cs : list Commit) (total : JS.number) (s : State) : State :=
  {| agents := agents s; commits := cs; currentTasks := currentTasks s;
     completedTaskCount := completedTaskCount s; testResults := testResults s;
     totalLines := totalLines s; totalCommits := total;
     specModules := specModules s |}.

Definition updateCommits (wd : World) (w : RepoWatcher)
    : RepoWatcher * list Event :=
  let log := execGit (git_log wd) in
  if negb (JS.truthy log) then (w, [])
  else
    let commits := parse_log log in
    let latestHash := head commits ≫= hash in
    let '(last, emitted) :=
      match head commits with
      | Some c0 =>
          if head_changed latestHash (lastCommitHash w)
          then (latestHash, [newCommit c0])
          else (lastCommitHash w, [])
      | None => (lastCommitHash w, [])
      end in
    let count := execGit (git_rev_count wd) in
    let total := JS.parseInt10 (if JS.truthy count then count else "0") in
    ({| repoPath := repoPath w; lastCommitHash := last;
        state := set_commits commits total (state w) |}, emitted).

(** ** The two regular expressions *)

(** [/agent-(\d+)-(\d+)/] tried at the start of [s].  Both groups are
    greedy; a shorter first group cannot help, since the character after
    it would be a digit where '-' is required. *)
Definition task_name_here (s : string) : option (string * string) :=
  match JS.strip_prefix "agent-" s with
  | Some r =>
      let '(d1, r1) := JS.span_digits r in
      if JS.truthy d1 then
        match r1 with
        | String "-" r2 =>
            let '(d2, _) := JS.span_digits r2 in
            if JS.truthy d2 then Some (d1, d2) else None
        | _ => None
        end
      else None
  | None => None
  end.

(** [f.match(/agent-(\d+)-(\d+)/)]: the leftmost position where the
    expression matches; the two captures. *)
Fixpoint match_task_name (f : string) : option (string * string) :=
  match task_name_here f with
  | Some m => Some m
  | None =>
      match f with
      | EmptyString => None
      | String _ f' => match_task_name f'
      end
  end.

(** [/agent-(\d+)/] tried at the start of [s]. *)
Definition agent_here (s : string) : option string :=
  match JS.strip_prefix "agent-" s with
  | Some r =>
      let '(d, _) := JS.span_digits r in
      if JS.truthy d then Some d else None
  | None => None
  end.

(** [author.match(/agent-(\d+)/)]: the capture of the leftmost match. *)
Fixpoint match_agent (s : string) : option string :=
  match agent_here s with
  | Some d => Some d
  | None =>
      match s with
      | EmptyString => None
      | String _ s' => match_agent s'
      end
  end.

(** ** updateCurrentTasks *)

(** The callback of [files.map], given the file's content as
    [readFileSync(..., 'utf-8')] returns it.  The timestamp is exact for
    digit runs below 2^53, which every count of epoch milliseconds is. *)
Definition taskRecord (f content : string) : Task :=
  let m := match_task_name f in
  {| file := f;
     agentId := match m with Some (a, _) => a | None => "unknown" end;
     timestamp := match m with Some (_, t) => JS.parseInt10 t | None => JS.Num 0 end;
     description := JS.trim_unicode content |}.

Definition not_gitkeep (f : string) : bool := negb (String.eqb f ".gitkeep").

(** The body of the try block: [None] when a [readFileSync] throws. *)
Fixpoint readTasks (files : list (string * option string)) : option (list Task) :=
  match files with
  | [] => Some []
  | (f, Some content) :: rest =>
      match readTasks rest with
      | Some ts => Some (taskRecord f content :: ts)
      | None => None
      end
  | (_, None) :: _ => None
  end.

Definition set_currentTasks (ts : list Task) (s : State) : State :=
  {| agents := agents s; commits := commits s; currentTasks := ts;
     completedTaskCount := completedTaskCount s; testResults := testResults s;
     totalLines := totalLines s; totalCommits := totalCommits s;
     specModules := specModules s |}.

Definition updateCurrentTasks (wd : World) (w : RepoWatcher) : RepoWatcher :=
  let attempt :=
    match dir_current_tasks wd with
    | Some listing =>
        readTasks (List.filter (λ e, not_gitkeep (fst e)) listing)
    | None => None
    end in
  {| repoPath := repoPath w; lastCommitHash := lastCommitHash w;
     state := set_currentTasks (default [] attempt) (state w) |}.

(** ** updateCompletedTasks *)

Definition set_completedTaskCount (n : Z) (s : State) : State :=
  {| agents := agents s; commits := commits s; currentTasks := currentTasks s;
     completedTaskCount := n; testResults := testResults s;
     totalLines := totalLines s; totalCommits := totalCommits s;
     specModules := specModules s |}.

Definition updateCompletedTasks (wd : World) (w : RepoWatcher) : RepoWatcher :=
  let n :=
    match dir_completed_tasks wd with
    | Some listing => Z.of_nat (length (List.filter not_gitkeep listing))
    | None => 0
    end in
  {| repoPath := repoPath w; lastCommitHash := lastCommitHash w;
     state := set_completedTaskCount n (state w) |}.

(** ** updateCodeStats *)

Fixpoint ends_with_from (suffix s : string) : bool :=
  String.eqb suffix s ||
  match s with
  | EmptyString => false
  | String _ s' => ends_with_from suffix s'
  end.

(** [/\.(js|html|css)$/] *)
Definition source_file (nm : string) : bool :=
  ends_with_from ".js" nm || ends_with_from ".html" nm || ends_with_from ".css" nm.

(** [walkDir]: the lines added by one entry; [None] when a read throws. *)
Fixpoint walkEntry (e : Entry) : option Z :=
  match e with
  | EFile nm content =>
      if source_file nm then
        match content with
        | Some c => Some (Z.of_nat (length (JS.split LF c)))
        | None => None
        end
      else Some 0
  | EDir _ None => None
  | EDir _ (Some es) =>
      (fix walk (l : list Entry) : option Z :=
         match l with
         | [] => Some 0
         | e' :: l' =>
             match walkEntry e' with
             | Some a =>
                 match walk l' with
                 | Some b => Some (a + b)
                 | None => None
                 end
             | None => None
             end
         end) es
  end.

Definition set_totalLines (n : Z) (s : State) : State :=
  {| agents := agents s; commits := commits s; currentTasks := currentTasks s;
     completedTaskCount := completedTaskCount s; testResults := testResults s;
     totalLines := n; totalCommits := totalCommits s;
     specModules := specModules s |}.

Definition updateCodeStats (wd : World) (w : RepoWatcher) : RepoWatcher :=
  {| repoPath := repoPath w; lastCommitHash := lastCommitHash w;
     state := set_totalLines (default 0 (walkEntry (EDir "src" (src_tree wd))))
                (state w) |}.

(** ** updateSpecModules *)

Definition set_specModules (ms : list SpecModule) (s : State) : State :=
  {| agents := agents s; commits := commits s; currentTasks := currentTasks s;
     completedTaskCount := completedTaskCount s; testResults := testResults s;
     totalLines := totalLines s; totalCommits := totalCommits s;
     specModules := ms |}.

(** The headings [moduleRegex] captures in SPEC.md are taken as given
    ([spec_headings]); each becomes a pending module. *)
Definition updateSpecModules (wd : World) (w : RepoWatcher) : RepoWatcher :=
  let ms :=
    match spec_headings wd with
    | Some hs =>
        List.map (λ h, {| name := JS.trim_unicode h;
                          module_status := "pending" |}) hs
    | None => []
    end in
  {| repoPath := repoPath w; lastCommitHash := lastCommitHash w;
     state := set_specModules ms (state w) |}.

(** ** updateAgentStatus *)

Definition set_working (desc : string) (a : AgentStatus) : AgentStatus :=
  {| id := id a; status := "working"; currentTask := Some desc;
     commitCount := commitCount a; taskCount := taskCount a |}.

Definition set_idle (a : AgentStatus) : AgentStatus :=
  {| id := id a; status := "idle"; currentTask := None;
     commitCount := commitCount a; taskCount := taskCount a |}.

Definition count_commit (completed : bool) (a : AgentStatus) : AgentStatus :=
  {| id := id a; status := status a; currentTask := currentTask a;
     commitCount := commitCount a + 1;
     taskCount := if completed then taskCount a + 1 else taskCount a |}.

(** The body of [currentTasks.forEach]. *)
Definition note_task (ag : gmap string AgentStatus) (task : Task)
    : gmap string AgentStatus :=
  match ag !! agentId task with
  | None =>
      <[agentId task :=
          {| id := agentId task; status := "working";
             currentTask := Some (description task);
             commitCount := 0; taskCount := 0 |}]> ag
  | Some a => <[agentId task := set_working (description task) a]> ag
  end.

(** The completion marker looked for in commit messages. *)
Definition DONE_MARKER : string := "작업 완료".

(** [commit.message?.includes(...)] *)
Definition is_completion (c : Commit) : bool :=
  match message c with
  | Some m => JS.includes DONE_MARKER m
  | None => false
  end.

(** The body of [commits.forEach]. *)
Definition note_commit (activeAgents : gset string)
    (ag : gmap string AgentStatus) (c : Commit) : gmap string AgentStatus :=
  match author c ≫= match_agent with
  | Some i =>
      let entry :=
        match ag !! i with
        | Some a => a
        | None =>
            {| id := i;
               status := if bool_decide (i ∈ activeAgents) then "working" else "idle";
               currentTask := None; commitCount := 0; taskCount := 0 |}
        end in
      <[i := count_commit (is_completion c) entry]> ag
  | None => ag
  end.

(** The body of [Object.keys(agents).forEach]. *)
Definition settle (activeAgents : gset string) (i : string) (a : AgentStatus)
    : option AgentStatus :=
  Some (if bool_decide (i ∈ activeAgents) then a else set_idle a).

Definition set_agents (ag : gmap string AgentStatus) (s : State) : State :=
  {| agents := ag; commits := commits s; currentTasks := currentTasks s;
     completedTaskCount := completedTaskCount s; testResults := testResults s;
     totalLines := totalLines s; totalCommits := totalCommits s;
     specModules := specModules s |}.

(** The agents object is keyed by digit strings and "unknown", none of
    which names a property of Object.prototype, so a finite map models
    it. *)
Definition derive_agents (s : State) : gmap string AgentStatus :=
  let activeAgents : gset string := list_to_set (agentId <$> currentTasks s) in
  let ag1 := foldl note_task (agents s) (currentTasks s) in
  let ag2 := foldl (note_commit activeAgents) ag1 (commits s) in
  map_imap (settle activeAgents) ag2.

Definition updateAgentStatus (w : RepoWatcher) : RepoWatcher :=
  {| repoPath := repoPath w; lastCommitHash := lastCommitHash w;
     state := set_agents (derive_agents (state w)) (state w) |}.

(** [getState]: a shallow copy of the state, read here at the moment it
    is published (the agents object stays shared with the watcher). *)
Definition getState (w : RepoWatcher) : State := state w.

(** ** poll: one reconciliation tick *)

(** The pull's outcome is discarded by [execGit]; none of the update
    steps throws (listeners are taken not to throw either), so the state
    event is always emitted. *)
Definition poll (wd : World) (w : RepoWatcher) : RepoWatcher * list Event :=
  let '(w1, emitted) := updateCommits wd w in
  let w2 := updateCurrentTasks wd w1 in
  let w3 := updateCompletedTasks wd w2 in
  let w4 := updateCodeStats wd w3 in
  let w5 := updateSpecModules wd w4 in
  let w6 := updateAgentStatus w5 in
  (w6, (emitted ++ [stateEvent (getState w6)])%list).

(** Successive ticks, each against the world as it then is. *)
Fixpoint polls (wds : list World) (w : RepoWatcher) : RepoWatcher * list Event :=
  match wds with
  | [] => (w, [])
  | wd :: rest =>
      let '(w1, e1) := poll wd w in
      let '(w2, e2) := polls rest w1 in
      (w2, (e1 ++ e2)%list)
  end.

(** [reset(newRepoPath)] up to the point where [start] polls again. *)
Definition cleared (newRepoPath : string) (w : RepoWatcher) : RepoWatcher :=
  {| repoPath := newRepoPath; lastCommitHash := None; state := initial_state |}.

(** [reset(newRepoPath)]: clear, then [start] runs a first poll. *)
Definition reset (newRepoPath : string) (wd : World) (w : RepoWatcher)
    : RepoWatcher * list Event :=
  poll wd (cleared newRepoPath w).

(** ** git's side of the log command *)

(** A commit of the repository: full hash, author name, subject line and
    relative date. *)
Record GitCommit : Type := mkGitCommit {
  g_hash : string;
  g_author : string;
  g_subject : string;
  g_reldate : string
}.

Definition format_commit (c : GitCommit) : string :=
  g_hash c +:+ String BAR (g_author c +:+ String BAR
    (g_subject c +:+ String BAR (g_reldate c))).

Fixpoint format_lines (cs : list GitCommit) : string :=
  match cs with
  | [] => EmptyString
  | c :: rest => format_commit c +:+ String LF (format_lines rest)
  end.

(** The output of the log command on a history listed from HEAD backwards:
    one line per commit, for at most 30 commits. *)
Definition git_log_30 (history : list GitCommit) : string :=
  format_lines (take 30 history).

(** How git answers a log command in this format: it reads the limit
    [-<n>] that ends the command and prints the [n] newest commits.
    (Commands of another form are not answered here.) *)
Definition git_log_answer (history : list GitCommit) (cmd : string)
    : option string :=
  match JS.strip_prefix
          ("log --oneline --format=" +:+ quoted "%H|%an|%s|%cr" +:+ " -") cmd with
  | Some limit =>
      if JS.truthy limit && JS.all_digits limit
      then Some (format_lines (take (Z.to_nat (JS.digits_value limit)) history))
      else None
  | None => None
  end.

Definition commit_of (c : GitCommit) : Commit :=
  {| hash := Some (g_hash c); author := Some (g_author c);
     message := Some (g_subject c); timeAgo := Some (g_reldate c) |}.

Fixpoint no_char (x : ascii) (s : string) : bool :=
  match s with
  | EmptyString => true
  | String c s' => negb (Ascii.eqb c x) && no_char x s'
  end.

Fixpoint no_space (s : string) : bool :=
  match s with
  | EmptyString => true
  | String c s' => negb (JS.is_space c) && no_space s'
  end.

(** What git guarantees of the four fields, as far as the watcher
    depends on it: the hash is a non-empty run of non-blank characters
    without '|'; no field runs over a line; the relative date is a
    non-empty phrase that does not end in a blank. *)
Definition well_formed (c : GitCommit) : bool :=
  JS.truthy (g_hash c) && no_space (g_hash c) && no_char BAR (g_hash c)
  && no_char LF (g_author c)
  && no_char LF (g_subject c)
  && no_char LF (g_reldate c)
  && JS.truthy (g_reldate c)
  && String.eqb (JS.trimEnd (g_reldate c)) (g_reldate c).

(** The world answers the log command [updateCommits] sends as git
    answers that command on some history, or the command fails. *)
Definition git_sound (wd : World) : Prop :=
  git wd LOG_COMMAND = None
  ∨ ∃ history, Forall (λ c, well_formed c = true) history
               ∧ git wd LOG_COMMAND = git_log_answer history LOG_COMMAND.

(** The lines of the log output without the final line feed. *)
Fixpoint join_lines (cs : list GitCommit) : string :=
  match cs with
  | [] => EmptyString
  | [c] => format_commit c
  | c :: rest => format_commit c +:+ String LF (join_lines rest)
  end.

(** The hash at the start of a log line: non-empty, without blanks and
    without '|'. *)
Definition hash_like (h : string) : Prop :=
  JS.truthy h = true ∧ no_space h = true ∧ no_char BAR h = true.

Definition is_newCommit (e : Event) : bool :=
  match e with
  | newCommit _ => true
  | stateEvent _ => false
  end.

(** ** Vocabulary for the statements about file names *)

Definition digit_run (s : string) : Prop :=
  JS.truthy s = true ∧ JS.all_digits s = true.

(** The file name contains [agent-<digits>-<digits>] somewhere. *)
Definition has_task_pattern (f : string) : Prop :=
  ∃ pre i ts post,
    f = pre +:+ "agent-" +:+ i +:+ "-" +:+ ts +:+ post
    ∧ digit_run i ∧ digit_run ts.

(** ** Vocabulary for the statements about [derive_agents] *)

(** The task records a poll derives; they depend on the listing alone. *)
Definition tasks_of (wd : World) : list Task :=
  default []
    (match dir_current_tasks wd with
     | Some listing => readTasks (List.filter (λ e, not_gitkeep (fst e)) listing)
     | None => None
     end).

(** The description of the last task record that names agent [k]. *)
Fixpoint last_desc (k : string) (ts : list Task) : option string :=
  match ts with
  | [] => None
  | t :: rest =>
      match last_desc k rest with
      | Some d => Some d
      | None => if String.eqb (agentId t) k then Some (description t) else None
      end
  end.

(** Whether the commit's author names agent [k]. *)
Definition attributed (k : string) (c : Commit) : bool :=
  bool_decide (author c ≫= match_agent = Some k).

(** How many commits of the window are attributed to [k], and how many of
    those carry the completion marker. *)
Definition count_by (k : string) (cs : list Commit) : Z :=
  Z.of_nat (length (List.filter (attributed k) cs)).

Definition done_by (k : string) (cs : list Commit) : Z :=
  Z.of_nat (length (List.filter (λ c, attributed k c && is_completion c) cs)).

Definition bump (n t : Z) (a : AgentStatus) : AgentStatus :=
  {| id := id a; status := status a; currentTask := currentTask a;
     commitCount := commitCount a + n; taskCount := taskCount a + t |}.

(** The entry [note_task] leaves for [k] when its task has description
    [d], given the entry there was. *)
Definition worked (k d : string) (prev : option AgentStatus) : AgentStatus :=
  match prev with
  | Some a => set_working d a
  | None =>
      {| id := k; status := "working"; currentTask := Some d;
         commitCount := 0; taskCount := 0 |}
  end.

(** The entry [note_commit] starts from for [k], given the entry there
    was. *)
Definition counted_from (activeAgents : gset string) (k : string)
    (prev : option AgentStatus) : AgentStatus :=
  match prev with
  | Some a => a
  | None =>
      {| id := k;
         status := if bool_decide (k ∈ activeAgents) then "working" else "idle";
         currentTask := None; commitCount := 0; taskCount := 0 |}
  end.

End Watcher.

(* ===================================================================== *)
(** * The worker's loop (bash, under [set -euo pipefail]) *)
(* ===================================================================== *)

Module AgentLoop.

(** The lines the script passes to [log]. *)
Inductive LogLine : Type :=
| Banner (iteration : Z)
| Pulling
| RebaseConflict
| Invoking
| ClaudeExited (code : Z).

(** The commands of the loop body.  [Log] is the [log] function, a
    pipeline [echo ... | tee -a "$LOG_FILE"]; [Claude] is the executor's
    pipeline into [tee]. *)
Inductive Command : Type :=
| Log (line : LogLine)
| CdProject
| GitFetch
| GitPullRebase
| GitRebaseAbort
| GitResetHard
| Sleep (seconds : Z)
| Claude.

(** The working copy as the loop's git commands change it.  Commits are
    named by numbers; [origin_main] is the remote-tracking ref
    origin/main. *)
Record Repo : Type := mkRepo {
  local_branch : nat;
  origin_main : nat;
  rebase_in_progress : bool
}.

(** What the outside answers during one iteration: the exit status of
    each command, and what the git commands and the executor find. *)
Record Answers : Type := mkAnswers {
  exit_status : Command → Z;
  fetched_tip : nat;
  rebased_head : nat;
  conflict_leaves_rebase : bool;
  executor_head : nat
}.

(** The shell: its two variables, the working copy, and the commands run
    so far (oldest first). *)
Record Shell : Type := mkShell {
  LOOP_COUNT : Z;
  EXIT_CODE : option Z;
  repo : Repo;
  trace : list Command
}.

Definition initial_shell (r : Repo) : Shell :=
  {| LOOP_COUNT := 0; EXIT_CODE := None; repo := r; trace := [] |}.

(** The effect of a git command or of the executor on the working copy,
    given its exit status. *)
Definition effect (a : Answers) (c : Command) (st : Z) (r : Repo) : Repo :=
  match c with
  | GitFetch =>
      if st =? 0 then
        {| local_branch := local_branch r; origin_main := fetched_tip a;
           rebase_in_progress := rebase_in_progress r |}
      else r
  | GitPullRebase =>
      if st =? 0 then
        {| local_branch := rebased_head a; origin_main := origin_main r;
           rebase_in_progress := false |}
      else
        {| local_branch := local_branch r; origin_main := origin_main r;
           rebase_in_progress := conflict_leaves_rebase a |}
  | GitRebaseAbort =>
      if st =? 0 then
        {| local_branch := local_branch r; origin_main := origin_main r;
           rebase_in_progress := false |}
      else r
  | GitResetHard =>
      if st =? 0 then
        {| local_branch := origin_main r; origin_main := origin_main r;
           rebase_in_progress := rebase_in_progress r |}
      else r
  | Claude =>
      {| local_branch := executor_head a; origin_main := origin_main r;
         rebase_in_progress := rebase_in_progress r |}
  | _ => r
  end.

(** Where a step of the script leaves the process. *)
Inductive Outcome : Type :=
| Running (s : Shell)
| Exited (code : Z) (s : Shell).

Definition executed (a : Answers) (c : Command) (s : Shell) : Shell :=
  {| LOOP_COUNT := LOOP_COUNT s; EXIT_CODE := EXIT_CODE s;
     repo := effect a c (exit_status a c) (repo s);
     trace := (trace s ++ [c])%list |}.

(** A simple command under [set -e]: a non-zero status ends the script
    with that status. *)
Definition simple (a : Answers) (c : Command) (s : Shell) : Outcome :=
  if exit_status a c =? 0 then Running (executed a c s)
  else Exited (exit_status a c) (executed a c s).

(** [command || true]: the status is discarded. *)
Definition or_true (a : Answers) (c : Command) (s : Shell) : Outcome :=
  Running (executed a c s).

Definition and_then (o : Outcome) (k : Shell → Outcome) : Outcome :=
  match o with
  | Running s => k s
  | Exited code s => Exited code s
  end.

Notation "o >> k" := (and_then o k) (at level 61, left associativity).

(** The block after [git pull --rebase origin main ... ||], which is the
    last command of its list and so still subject to [set -e]; it ends in
    [continue]. *)
Definition conflict_block (a : Answers) (s : Shell) : Outcome :=
  simple a (Log RebaseConflict) s
  >> or_true a GitRebaseAbort
  >> or_true a GitResetHard
  >> simple a (Sleep 3).

(** After [pipeline || true] the last pipeline run is either the
    successful executor pipeline or [true]: [PIPESTATUS[0]] is 0. *)
Definition assign_exit_code (s : Shell) : Outcome :=
  Running {| LOOP_COUNT := LOOP_COUNT s; EXIT_CODE := Some 0;
             repo := repo s; trace := trace s |}.

Definition execute_block (a : Answers) (s : Shell) : Outcome :=
  simple a (Log Invoking) s
  >> or_true a Claude
  >> assign_exit_code
  >> (λ s', simple a (Log (ClaudeExited (default 0 (EXIT_CODE s')))) s')
  >> simple a (Sleep 5).

(** One pass through the body of [while true]. *)
Definition iteration (a : Answers) (s : Shell) : Outcome :=
  let s0 := {| LOOP_COUNT := LOOP_COUNT s + 1; EXIT_CODE := EXIT_CODE s;
               repo := repo s; trace := trace s |} in
  simple a (Log (Banner (LOOP_COUNT s0))) s0
  >> simple a (Log Pulling)
  >> simple a CdProject
  >> or_true a GitFetch
  >> (λ s1,
        let s2 := executed a GitPullRebase s1 in
        if exit_status a GitPullRebase =? 0 then execute_block a s2
        else conflict_block a s2).

(** The loop, for as many iterations as there are answers. *)
Fixpoint loop (answers : list Answers) (s : Shell) : Outcome :=
  match answers with
  | [] => Running s
  | a :: rest => iteration a s >> loop rest
  end.

(** The commands whose failure the script does not guard with
    [|| true]. *)
Definition unguarded (c : Command) : bool :=
  match c with
  | Log _ | CdProject | Sleep _ => true
  | _ => false
  end.

(** The shell after the commands up to and including the pull, when
    none of them ended the script. *)
Definition synced (a : Answers) (s : Shell) : Shell :=
  executed a GitPullRebase
    (executed a GitFetch
       (executed a CdProject
          (executed a (Log Pulling)
             (executed a (Log (Banner (LOOP_COUNT s + 1)))
                {| LOOP_COUNT := LOOP_COUNT s + 1; EXIT_CODE := EXIT_CODE s;
                   repo := repo s; trace := trace s |})))).

(** Every unguarded command of the iteration succeeds. *)
Definition unguarded_ok (a : Answers) : Prop :=
  ∀ c, unguarded c = true → exit_status a c = 0.

End AgentLoop.

(* ===================================================================== *)
(** * Concrete inputs used by the examples below *)
(* ===================================================================== *)

Module Samples.

Definition sample_bytes : Session.Bytes4 :=
  {| Session.b0 := Byte.x1f; Session.b1 := Byte.xa0;
     Session.b2 := Byte.x00; Session.b3 := Byte.x7c |}.

(** One commit by agent 1 carrying the completion marker, as the only
    line of the log; nothing in the task directories. *)
Definition one_commit_log : string :=
  "3f2a9c|agent-1|작업 완료: scoring|2 minutes ago".

Definition quiet_world : Watcher.World :=
  {| Watcher.git :=
       Watcher.answering (Some one_commit_log) (Some "1");
     Watcher.dir_current_tasks := Some [];
     Watcher.dir_completed_tasks := Some [];
     Watcher.src_tree := Some [];
     Watcher.spec_headings := Some [] |}.

(** The same repository with one task record for agent 2. *)
Definition busy_world : Watcher.World :=
  {| Watcher.git :=
       Watcher.answering (Some one_commit_log) (Some "1");
     Watcher.dir_current_tasks :=
       Some [ (".gitkeep", Some "");
              ("agent-2-1700000000000", Some "implement scoring") ];
     Watcher.dir_completed_tasks := Some [".gitkeep"; "agent-1-1699999999000"];
     Watcher.src_tree := Some [];
     Watcher.spec_headings := Some [] |}.

(** A task directory with a well-formed name and a stray file. *)
Definition messy_files : list (string * string) :=
  [ (".gitkeep", "");
    ("agent-2-1700000000000", "implement scoring
");
    ("notes.txt", "scratch") ].

(** A note that begins with a byte-order mark and ends with a
    no-break space. *)
Definition marked_note : string :=
  String "239" (String "187" (String "191"
    (" scratch" +:+ String "194" (String "160" EmptyString)))).

Definition messy_world : Watcher.World :=
  {| Watcher.git :=
       Watcher.answering None None;
     Watcher.dir_current_tasks :=
       Some (List.map (λ e, (fst e, Some (snd e))) messy_files);
     Watcher.dir_completed_tasks := None;
     Watcher.src_tree := None;
     Watcher.spec_headings := None |}.

(** A history of two commits, newest first, and a world in which git
    answers for it. *)
Definition sample_history : list Watcher.GitCommit :=
  [ {| Watcher.g_hash := "9b1d4e07"; Watcher.g_author := "agent-2";
       Watcher.g_subject := "add paddle | wip";
       Watcher.g_reldate := "5 seconds ago" |};
    {| Watcher.g_hash := "3f2a9c11"; Watcher.g_author := "agent-1";
       Watcher.g_subject := "작업 완료: scoring";
       Watcher.g_reldate := "2 minutes ago" |} ].

Definition git_world : Watcher.World :=
  {| Watcher.git :=
       λ cmd, match Watcher.git_log_answer sample_history cmd with
              | Some out => Some out
              | None => Watcher.answering None (Some "2") cmd
              end;
     Watcher.dir_current_tasks := None;
     Watcher.dir_completed_tasks := Some [".gitkeep"; "agent-1-1699999999000"];
     Watcher.src_tree := None;
     Watcher.spec_headings := None |}.

(** A history of 31 commits, and a world in which git answers for it. *)
Definition long_history : list Watcher.GitCommit :=
  (λ i, {| Watcher.g_hash := "c0ffee" +:+ JS.string_of_Z (Z.of_nat i);
           Watcher.g_author := "agent-1";
           Watcher.g_subject := "work";
           Watcher.g_reldate := "1 hour ago" |}) <$> seq 0 31.

Definition long_world : Watcher.World :=
  {| Watcher.git := Watcher.git_log_answer long_history;
     Watcher.dir_current_tasks := None;
     Watcher.dir_completed_tasks := None;
     Watcher.src_tree := None;
     Watcher.spec_headings := None |}.

(** A working copy one commit behind the remote, and an iteration in
    which the rebase conflicts while every other command succeeds. *)
Definition stale_repo : AgentLoop.Repo :=
  {| AgentLoop.local_branch := 4; AgentLoop.origin_main := 5;
     AgentLoop.rebase_in_progress := false |}.

Definition conflict_answers : AgentLoop.Answers :=
  {| AgentLoop.exit_status :=
       λ c, match c with AgentLoop.GitPullRebase => 1 | _ => 0 end;
     AgentLoop.fetched_tip := 7;
     AgentLoop.rebased_head := 8;
     AgentLoop.conflict_leaves_rebase := true;
     AgentLoop.executor_head := 9 |}.

(** The same conflict when the log file cannot be appended to: [tee]
    fails, and with it [log]. *)
Definition conflict_log_unwritable : AgentLoop.Answers :=
  {| AgentLoop.exit_status :=
       λ c, match c with
            | AgentLoop.GitPullRebase => 1
            | AgentLoop.Log AgentLoop.RebaseConflict => 1
            | _ => 0
            end;
     AgentLoop.fetched_tip := 7;
     AgentLoop.rebased_head := 8;
     AgentLoop.conflict_leaves_rebase := true;
     AgentLoop.executor_head := 9 |}.

(** An iteration in which [cd /work/project] fails. *)
Definition cd_fails : AgentLoop.Answers :=
  {| AgentLoop.exit_status :=
       λ c, match c with AgentLoop.CdProject => 1 | _ => 0 end;
     AgentLoop.fetched_tip := 7;
     AgentLoop.rebased_head := 8;
     AgentLoop.conflict_leaves_rebase := false;
     AgentLoop.executor_head := 9 |}.

End Samples.

(* ===================================================================== *)
(** * Further vocabulary for session ids *)
(* ===================================================================== *)

Module SessionId.

(** The value of a lower-case hexadecimal digit. *)
Definition nibble (c : ascii) : option N :=
  let n := N_of_ascii c in
  if ((48 <=? n) && (n <=? 57))%N then Some (n - 48)%N
  else if ((97 <=? n) && (n <=? 102))%N then Some (n - 87)%N
  else None.

(** Reading back the two digits [Session.hex_byte] writes. *)
Definition read_byte (s : string) : option (Byte.byte * string) :=
  match s with
  | String hi (String lo rest) =>
      match nibble hi, nibble lo with
      | Some h, Some l =>
          match Byte.of_N (16 * h + l) with
          | Some b => Some (b, rest)
          | None => None
          end
      | _, _ => None
      end
  | _ => None
  end.

Definition fromHex (s : string) : option Session.Bytes4 :=
  match read_byte s with
  | Some (x0, s1) =>
      match read_byte s1 with
      | Some (x1, s2) =>
          match read_byte s2 with
          | Some (x2, s3) =>
              match read_byte s3 with
              | Some (x3, EmptyString) =>
                  Some {| Session.b0 := x0; Session.b1 := x1;
                          Session.b2 := x2; Session.b3 := x3 |}
              | _ => None
              end
          | None => None
          end
      | None => None
      end
  | None => None
  end.

Definition is_hex (c : ascii) : bool :=
  match nibble c with
  | Some _ => true
  | None => false
  end.

Fixpoint all_hex (s : string) : bool :=
  match s with
  | EmptyString => true
  | String c s' => is_hex c && all_hex s'
  end.

End SessionId.

(* ===================================================================== *)
(** * Further vocabulary for the watcher *)
(* ===================================================================== *)

Module WatcherMore.

Import Watcher.

Definition is_stateEvent (e : Event) : bool :=
  match e with
  | stateEvent _ => true
  | newCommit _ => false
  end.

(** The agent a commit is attributed to, if any. *)
Definition author_id (c : Commit) : option string := author c ≫= match_agent.

(** What every entry of the agents map satisfies: it is filed under its
    own id, and its completed tasks are counted among its commits. *)
Definition entry_ok (k : string) (a : AgentStatus) : Prop :=
  id a = k ∧ 0 ≤ taskCount a ≤ commitCount a.

Definition agents_ok (ag : gmap string AgentStatus) : Prop :=
  ∀ k a, ag !! k = Some a → entry_ok k a.

(** The author name the worker loop configures for agent [i]:
    [git config user.name "agent-${AGENT_ID}"]. *)
Definition worker_author (agent_id : string) : string := "agent-" +:+ agent_id.

(** The string contains [agent-] followed by a digit somewhere. *)
Definition names_agent (s : string) : Prop :=
  ∃ pre d post, s = pre +:+ "agent-" +:+ d +:+ post ∧ digit_run d.

Fixpoint count_char (x : ascii) (s : string) : nat :=
  match s with
  | EmptyString => 0
  | String c s' => (if Ascii.eqb c x then 1 else 0) + count_char x s'
  end.

(** Whether [walkDir] gets through an entry without a failing read:
    directories must list, files with a counted extension must read; other
    files are never opened. *)
Fixpoint walkable (e : Entry) : bool :=
  match e with
  | EFile nm content =>
      if source_file nm then
        match content with Some _ => true | None => false end
      else true
  | EDir _ None => false
  | EDir _ (Some es) =>
      (fix all (l : list Entry) : bool :=
         match l with
         | [] => true
         | e' :: l' => walkable e' && all l'
         end) es
  end.

(** The contents of the files with a counted extension, in walk order,
    as far as they can be read. *)
Fixpoint source_contents (e : Entry) : list string :=
  match e with
  | EFile nm content =>
      if source_file nm then
        match content with Some c => [c] | None => [] end
      else []
  | EDir _ None => []
  | EDir _ (Some es) =>
      (fix each (l : list Entry) : list string :=
         match l with
         | [] => []
         | e' :: l' => (source_contents e' ++ each l')%list
         end) es
  end.

(** Lines as [content.split('\n').length] counts them: one more than
    the line feeds. *)
Definition lines_of (c : string) : Z := Z.of_nat (count_char LF c) + 1.

Fixpoint sum_lines (cs : list string) : Z :=
  match cs with
  | [] => 0
  | c :: rest => lines_of c + sum_lines rest
  end.

(** No field of the commit contains the separator of the log format. *)
Definition bar_free (c : GitCommit) : bool :=
  no_char BAR (g_author c) && no_char BAR (g_subject c)
  && no_char BAR (g_reldate c).

(** A listing entry, other than .gitkeep, whose read throws. *)
Definition unreadable_task (listing : list (string * option string)) : Prop :=
  ∃ f, (f, None) ∈ listing ∧ f ≠ ".gitkeep".

(** A commit whose subject is [before|after]. *)
Definition with_bar_subject (h a before after r : string) : GitCommit :=
  {| g_hash := h; g_author := a;
     g_subject := before +:+ String BAR after; g_reldate := r |}.

End WatcherMore.


(* ===================================================================== *)
(** * Further vocabulary for the worker's loop *)
(* ===================================================================== *)

Module LoopMore.

Import AgentLoop.

(** The shell an outcome leaves. *)
Definition shell_of (o : Outcome) : Shell :=
  match o with
  | Running s => s
  | Exited _ s => s
  end.

Definition is_claude (c : Command) : bool :=
  match c with Claude => true | _ => false end.

Definition is_pull (c : Command) : bool :=
  match c with GitPullRebase => true | _ => false end.

Definition is_reset (c : Command) : bool :=
  match c with GitResetHard | GitRebaseAbort => true | _ => false end.

Definition count (p : Command → bool) (t : list Command) : nat :=
  length (List.filter p t).

(** How many of the iterations had a successful pull. *)
Definition synced_count (answers : list Answers) : nat :=
  length (List.filter (λ a, exit_status a GitPullRebase =? 0) answers).

(** The script dies of command [c]: it is unguarded, its status is the
    non-zero exit code, and it is the last command run. *)
Definition died_of (a : Answers) (code : Z) (s : Shell) : Prop :=
  code ≠ 0
  ∧ ∃ c, unguarded c = true ∧ exit_status a c = code
         ∧ last (trace s) = Some c.

End LoopMore.

(* ===================================================================== *)
(** * docker-manager.js *)
(* ===================================================================== *)

Module Docker.

Definition AGENT_IMAGE : string := "tokamak-forge-agent".

(** The options [launchAgents] passes to [createContainer]. *)
Record CreateOptions : Type := mkOptions {
  Image : string;
  name : string;
  Env : list string;
  Binds : list string;
  RestartPolicy : string
}.

(** The variables of [process.env] the manager reads; [None] is an unset
    variable (undefined). *)
Record ProcessEnv : Type := mkEnv {
  ANTHROPIC_API_KEY : option string;
  ANTHROPIC_BASE_URL : option string
}.

(** What the docker daemon answers: to [createContainer] the new
    container's id or an error, to [start] success or an error. *)
Record Daemon : Type := mkDaemon {
  create_answer : CreateOptions → Session.result string;
  start_answer : string → option string
}.

(** [this.containers] maps an agent id to its container (known by its
    id); [this.logStreams] holds the agent ids that have a stream. *)
Record DockerManager : Type := mkDocker {
  containers : gmap string string;
  logStreams : gset string
}.

Definition new_DockerManager : DockerManager :=
  {| containers := ∅; logStreams := ∅ |}.

(** A template literal's rendering of a value that may be undefined or
    null. *)
Definition show_or (missing : string) (v : option string) : string :=
  default missing v.

(** [process.env.ANTHROPIC_BASE_URL || ''] *)
Definition or_empty (v : option string) : string :=
  match v with
  | Some s => if JS.truthy s then s else ""
  | None => ""
  end.

Definition options_for (env : ProcessEnv) (session : Session.Session)
    (agentId : string) : CreateOptions :=
  {| Image := AGENT_IMAGE;
     name := "tokamak-agent-" +:+ Session.id session +:+ "-" +:+ agentId;
     Env := [ "ANTHROPIC_API_KEY=" +:+ show_or "undefined" (ANTHROPIC_API_KEY env);
              "ANTHROPIC_BASE_URL=" +:+ or_empty (ANTHROPIC_BASE_URL env);
              "AGENT_ID=" +:+ agentId;
              "GAME_NAME=" +:+ Session.gameName session ];
     Binds := [ show_or "null" (Session.repoPath session) +:+ ":/repo:rw" ];
     RestartPolicy := "unless-stopped" |}.

(** An element of the list [launchAgents] returns. *)
Record Launched : Type := mkLaunched {
  agentId : string;
  containerId : string
}.

(** The body of the [for] loop, [todo] more times from [i]: create,
    start, record.  An error of either call leaves the loop at once. *)
Fixpoint launch_loop (dk : Daemon) (env : ProcessEnv)
    (session : Session.Session) (todo : nat) (i : Z)
    (dm : DockerManager) (launched : list Launched)
    : Session.result (list Launched) * DockerManager :=
  match todo with
  | O => (Session.Ok launched, dm)
  | S todo' =>
      let agentId := JS.string_of_Z i in
      match create_answer dk (options_for env session agentId) with
      | Session.Throw msg => (Session.Throw msg, dm)
      | Session.Ok cid =>
          match start_answer dk cid with
          | Some msg => (Session.Throw msg, dm)
          | None =>
              launch_loop dk env session todo' (i + 1)
                {| containers := <[agentId := cid]> (containers dm);
                   logStreams := logStreams dm |}
                (launched ++ [ {| agentId := agentId; containerId := cid |} ])%list
          end
      end
  end.

(** How often [for (let i = 1; i <= agentCount; i++)] runs its body. *)
Definition rounds (agentCount : JS.number) : nat :=
  match agentCount with
  | JS.Num z => Z.to_nat z
  | JS.NaN => O
  end.

(** [launchAgents(session)] *)
Definition launchAgents (dk : Daemon) (env : ProcessEnv)
    (session : Session.Session) (dm : DockerManager)
    : Session.result (list Launched) * DockerManager :=
  launch_loop dk env session (rounds (Session.agentCount session)) 1 dm [].

(** [stopLogStream(agentId)] *)
Definition stopLogStream (agent : string) (dm : DockerManager) : DockerManager :=
  {| containers := containers dm; logStreams := logStreams dm ∖ {[ agent ]} |}.

(** [stopAll()]: every container is asked to stop and is removed, each
    error being caught for its container; then both maps are cleared. *)
Definition stopAll (dm : DockerManager) : DockerManager :=
  {| containers := ∅; logStreams := ∅ |}.

(** ** The log stream's data handler *)

(** [/^[\x00-\x08]/]: one leading byte of the frame header. *)
Definition strip_header (line : string) : string :=
  match line with
  | String c rest => if (nat_of_ascii c <=? 8)%nat then rest else line
  | EmptyString => EmptyString
  end.

(** [/[\x00-\x1f]/g] with the replacer that keeps line feed and tab. *)
Fixpoint strip_controls (s : string) : string :=
  match s with
  | EmptyString => EmptyString
  | String c rest =>
      if (nat_of_ascii c <=? 31)%nat
      then (if Ascii.eqb c "010" || Ascii.eqb c "009"
            then String c (strip_controls rest)
            else strip_controls rest)
      else String c (strip_controls rest)
  end.

Definition clean_line (line : string) : string :=
  strip_controls (strip_header line).

(** The lines the handler passes to the callback, in order, for a chunk
    whose decoded text, [chunk.toString('utf-8')], is [text]. *)
Definition log_lines (text : string) : list string :=
  List.flat_map
    (λ line,
       let clean := clean_line line in
       if JS.truthy (JS.trim_unicode clean) then [JS.trim_unicode clean]
       else [])
    (List.filter JS.truthy (JS.split Watcher.LF text)).

(** ** Vocabulary *)

(** The agent ids [1 .. n] as the loop prints them. *)
Fixpoint agent_ids (from : Z) (n : nat) : list string :=
  match n with
  | O => []
  | S n' => JS.string_of_Z from :: agent_ids (from + 1) n'
  end.

(** Recording a list of launched agents in the containers map. *)
Definition record_all (ls : list Launched) (m : gmap string string)
    : gmap string string :=
  foldl (λ acc l, <[agentId l := containerId l]> acc) m ls.

Fixpoint all_chars (p : ascii → bool) (s : string) : bool :=
  match s with
  | EmptyString => true
  | String c rest => p c && all_chars p rest
  end.

(** A character the two [replace] calls leave in a line: a tab, or
    anything from U+0020 on (DEL and the bytes of the characters beyond
    ASCII are among them). *)
Definition kept_char (c : ascii) : bool :=
  (32 <=? nat_of_ascii c)%nat || Ascii.eqb c "009".

Definition kept_or_LF (c : ascii) : bool :=
  kept_char c || Ascii.eqb c "010".

(** A character up to U+0020: a control character or the space. *)
Definition blank_char (c : ascii) : bool := (nat_of_ascii c <=? 32)%nat.

End Docker.


(* ===================================================================== *)
(** * forge.js: the pipeline as [run] drives it *)
(* ===================================================================== *)

Module Forge.

Definition REPO_BASE : string := "/tmp/tokamak-forge-repos".
Definition WORK_BASE : string := "/tmp/tokamak-forge-work".

(** The three paths of the constructor.  For a game name without
    separators or dots (which is all the server lets through),
    [path.join] is concatenation with '/'. *)
Definition repoPath_of (gameName : string) : string :=
  REPO_BASE +:+ "/" +:+ gameName +:+ ".git".

Definition workDir_of (gameName : string) : string :=
  WORK_BASE +:+ "/" +:+ gameName.

Definition projectDir_of (gameName : string) : string :=
  workDir_of gameName +:+ "/project".

(** The objects passed to [onProgress], by their [type]. *)
Inductive Progress : Type :=
| step (n : Z) (message : string)
| log (message : string)
| spec_stream (chunk : string)
| complete (repoPath workDir : string)
| error (message : string).

(** What a step itself passes to [onProgress]: a line through
    [this.log], or a chunk of the specification as it streams in. *)
Inductive Report : Type :=
| logged (message : string)
| streamed (chunk : string).

Definition progress_of (r : Report) : Progress :=
  match r with
  | logged message => log message
  | streamed chunk => spec_stream chunk
  end.

(** One step of the pipeline as [run] sees it: what it reports while it
    runs, and the message of the Error it throws, if any. *)
Record StepRun : Type := mkStepRun {
  reported : list Report;
  thrown : option string
}.

(** The six steps [run] calls, in order. *)
Record Pipeline : Type := mkPipeline {
  validatePrereqs : StepRun;
  createBareRepo : StepRun;
  scaffoldProject : StepRun;
  generateSpec : StepRun;
  setupTests : StepRun;
  initialCommit : StepRun
}.

Definition steps (p : Pipeline) : list (Z * string * StepRun) :=
  [ (0, "Checking prerequisites", validatePrereqs p);
    (1, "Creating bare repository", createBareRepo p);
    (2, "Scaffolding project", scaffoldProject p);
    (3, "Generating SPEC.md", generateSpec p);
    (4, "Setting up tests", setupTests p);
    (5, "Initial commit & push", initialCommit p) ].

(** The try block of [run] up to the first throw: the progress reported,
    and the thrown message if a step threw. *)
Fixpoint run_steps (todo : list (Z * string * StepRun))
    : list Progress * option string :=
  match todo with
  | [] => ([], None)
  | (n, message, sr) :: rest =>
      match thrown sr with
      | Some e => ((step n message :: (progress_of <$> reported sr))%list, Some e)
      | None =>
          ((step n message :: (progress_of <$> reported sr)
              ++ fst (run_steps rest))%list,
           snd (run_steps rest))
      end
  end.

(** [run()]: everything reported, and the returned paths or the
    rethrown error. *)
Definition run (gameName : string) (p : Pipeline)
    : list Progress * Session.result (string * string) :=
  match run_steps (steps p) with
  | (ps, Some e) => ((ps ++ [error e])%list, Session.Throw e)
  | (ps, None) =>
      ((ps ++ [complete (repoPath_of gameName) (projectDir_of gameName)])%list,
       Session.Ok (repoPath_of gameName, projectDir_of gameName))
  end.

(** The number of the first step that throws. *)
Fixpoint first_failure (todo : list (Z * string * StepRun)) : option Z :=
  match todo with
  | [] => None
  | (n, _, sr) :: rest =>
      match thrown sr with
      | Some _ => Some n
      | None => first_failure rest
      end
  end.

Definition step_number (p : Progress) : option Z :=
  match p with
  | step n _ => Some n
  | _ => None
  end.

(** The numbers of the steps announced in a list of reports. *)
Definition step_numbers (ps : list Progress) : list Z := omap step_number ps.

(** The two reports that end a run. *)
Definition is_final (p : Progress) : bool :=
  match p with
  | complete _ _ | error _ => true
  | _ => false
  end.

End Forge.

(* ===================================================================== *)
(** * server.js: running a forge, stopping a session *)
(* ===================================================================== *)

Module Dashboard.

Import Session.

(** The three module-level variables of server.js. *)
Record Dashboard : Type := mkDashboard {
  sessionManager : SessionManager;
  dockerManager : Docker.DockerManager;
  watcher : option Watcher.RepoWatcher
}.

(** A message passed to [broadcast]: its type and, when it carries one,
    the session as [toJSON] shows it.  (The data and timestamp fields
    are left out.) *)
Record Broadcast : Type := mkBroadcast {
  kind : string;
  shown : option Session
}.

(** The session being forged, the number of log entries written for it
    so far in this run (which indexes the clock), and what has been
    broadcast. *)
Record Run : Type := mkRun {
  session : Session;
  written : nat;
  sent : list Broadcast
}.

Definition status_for_step (n : Z) : string :=
  if n <=? 2 then SCAFFOLDING
  else if n =? 3 then GENERATING_SPEC
  else LAUNCHING_AGENTS.

Definition send (k : string) (r : Run) : Run :=
  {| session := session r; written := written r;
     sent := (sent r ++ [ {| kind := k; shown := Some (toJSON (session r)) |} ])%list |}.

Definition update (f : Session → Session) (r : Run) : Run :=
  {| session := f (session r); written := written r; sent := sent r |}.

Definition write_log (clock : nat → Z) (message : string) (r : Run) : Run :=
  {| session := snd (addLog (clock (written r)) message (session r));
     written := S (written r); sent := sent r |}.

(** The [onProgress] callback of [runForge]. *)
Definition onProgress (clock : nat → Z) (r : Run) (p : Forge.Progress) : Run :=
  let r1 :=
    match p with
    | Forge.step n _ =>
        update (setStatus (status_for_step n)) (update (setForgeStep n) r)
    | Forge.log message => write_log clock message r
    | _ => r
    end in
  send (match p with
        | Forge.complete _ _ => "forge:complete"
        | Forge.error _ => "forge:error"
        | _ => "forge:progress"
        end) r1.

(** [logForge(msg)] *)
Definition logForge (clock : nat → Z) (message : string) (r : Run) : Run :=
  send "forge:progress" (write_log clock message r).

Definition with_paths (repo work : string) (s : Session) : Session :=
  {| id := id s; gameName := gameName s; agentCount := agentCount s;
     status := status s; repoPath := Some repo; workDir := Some work;
     logs := logs s; forgeStep := forgeStep s; forgeSteps := forgeSteps s;
     containerIds := containerIds s; createdAt := createdAt s |}.

Definition with_containerIds (ids : list string) (s : Session) : Session :=
  {| id := id s; gameName := gameName s; agentCount := agentCount s;
     status := status s; repoPath := repoPath s; workDir := workDir s;
     logs := logs s; forgeStep := forgeStep s; forgeSteps := forgeSteps s;
     containerIds := ids; createdAt := createdAt s |}.

(** A number inside a template literal. *)
Definition show_number (n : JS.number) : string :=
  match n with
  | JS.Num z => JS.string_of_Z z
  | JS.NaN => "NaN"
  end.

(** [s.slice(0, 12)] *)
Definition slice12 (s : string) : string := String.substring 0 12 s.

Definition started_line (l : Docker.Launched) : string :=
  "  Agent " +:+ Docker.agentId l +:+ ": container "
  +:+ slice12 (Docker.containerId l) +:+ " started".

(** What [runForge] leaves behind. *)
Record Forged : Type := mkForged {
  forged : Run;
  manager_after : Docker.DockerManager;
  watcher_after : option Watcher.RepoWatcher
}.

(** The catch block: drop the watcher, mark the session stopped, tell
    the clients. *)
Definition failed (r : Run) (dm : Docker.DockerManager) : Forged :=
  {| forged := send "forge:error" (update (setStatus STOPPED) r);
     manager_after := dm;
     watcher_after := None |}.

Definition watcher_event (r : Run) (e : Watcher.Event) : Run :=
  {| session := session r; written := written r;
     sent := (sent r ++ [ {| kind := match e with
                                     | Watcher.newCommit _ => "newCommit"
                                     | Watcher.stateEvent _ => "state"
                                     end;
                             shown := None |} ])%list |}.

(** What the outside answers while a forge runs: the pipeline's steps,
    the image build (an error message if it fails), the docker daemon,
    the environment, the repository at the watcher's first poll, and the
    clock. *)
Record ForgeWorld : Type := mkForgeWorld {
  pipeline : Forge.Pipeline;
  build_error : option string;
  daemon : Docker.Daemon;
  environment : Docker.ProcessEnv;
  first_poll : Watcher.World;
  clock : nat → Z
}.

(** [runForge(session)] when nothing else is handled while it runs, up
    to the point where the log streams are requested (which it does not
    wait for).  The function is asynchronous: it waits for the pipeline,
    for the image build and for the launch, and a request handled during
    one of those waits works on the same session, watcher and docker
    manager; what is defined here is the run in which none arrives.  The
    watcher is given as [start] leaves it, after its first poll; the
    polls of its timer are not followed. *)
Definition runForge (fw : ForgeWorld) (s : Session)
    (dm : Docker.DockerManager) : Forged :=
  let r0 := {| session := s; written := O; sent := [] |} in
  let '(reports, result) := Forge.run (gameName s) (pipeline fw) in
  let r1 := foldl (onProgress (clock fw)) r0 reports in
  match result with
  | Throw _ => failed r1 dm
  | Ok (repo, work) =>
      let r2 := update (with_paths repo work) r1 in
      let '(w, events) := Watcher.poll (first_poll fw) (Watcher.new_RepoWatcher work) in
      let r3 := foldl watcher_event r2 events in
      let r4 := send "forge:progress"
                  (update (setForgeStep 6)
                     (update (setStatus LAUNCHING_AGENTS) r3)) in
      let r5 := logForge (clock fw)
                  "Building agent Docker image (tokamak-forge-agent)..." r4 in
      match build_error fw with
      | Some _ => failed r5 dm
      | None =>
          let r6 := logForge (clock fw) "Agent Docker image ready" r5 in
          let r7 := logForge (clock fw)
                      ("Launching " +:+ show_number (agentCount (session r6))
                       +:+ " agent containers...") r6 in
          match Docker.launchAgents (daemon fw) (environment fw) (session r7) dm with
          | (Throw _, dm') => failed r7 dm'
          | (Ok agents, dm') =>
              let r8 := foldl (λ r l, logForge (clock fw) (started_line l) r)
                          r7 agents in
              let r9 := update (setStatus RUNNING)
                          (update (with_containerIds
                                     (Docker.containerId <$> agents)) r8) in
              let r10 := logForge (clock fw) "All agents running!" r9 in
              {| forged := send "forge:complete" r10;
                 manager_after := dm';
                 watcher_after := Some w |}
          end
      end
  end.




(** The reply of [POST /api/session/stop] and what it leaves.  The
    calls of its try block do not throw here: [stopAll] catches every
    docker error itself. *)
Definition post_stop (d : Dashboard) : Z * Dashboard * list Broadcast :=
  match getActive (sessionManager d) with
  | None => (404, d, [])
  | Some s =>
      (200,
       {| sessionManager := snd (stop (Some (id s)) (sessionManager d));
          dockerManager := Docker.stopAll (dockerManager d);
          watcher := None |},
       [ {| kind := "session:stopped"; shown := None |} ])
  end.

(** The session object [runForge] works on is the one the manager's Map
    holds under its id: what the run did to it is what the handlers find
    there afterwards. *)
Definition write_back (s : Session) (m : SessionManager) : SessionManager :=
  {| sessions := <[id s := s]> (sessions m);
     activeSessionId := activeSessionId m |}.

(** [POST /api/forge] followed by the forge it starts, in the case that
    the forge runs to its end before the next request is handled (the
    handler itself replies at once and does not wait for the forge): the
    reply, the three variables afterwards, and what was broadcast. *)
Definition forge_request (body : Server.Body) (rnd : Bytes4) (now : Z)
    (fw : ForgeWorld) (d : Dashboard)
    : Server.Reply * Dashboard * list Broadcast :=
  match Server.post_forge body rnd now (sessionManager d) with
  | (Server.Reply200 s, m') =>
      let f := runForge fw s (dockerManager d) in
      (Server.Reply200 s,
       {| sessionManager := write_back (session (forged f)) m';
          dockerManager := manager_after f;
          watcher := watcher_after f |},
       sent (forged f))
  | (reply, m') =>
      (reply,
       {| sessionManager := m'; dockerManager := dockerManager d;
          watcher := watcher d |},
       [])
  end.

(** Every session of the Map is filed under its own id. *)
Definition keyed (m : SessionManager) : Prop :=
  ∀ i s, sessions m !! i = Some s → id s = i.

(** The position of a status in the pipeline. *)
Definition rank (st : string) : Z :=
  if String.eqb st INITIALIZING then 0
  else if String.eqb st SCAFFOLDING then 1
  else if String.eqb st GENERATING_SPEC then 2
  else if String.eqb st LAUNCHING_AGENTS then 3
  else if String.eqb st RUNNING then 4
  else 5.

(** The positions of the statuses shown in a list of broadcasts, in the
    order sent. *)
Definition shown_ranks (bs : list Broadcast) : list Z :=
  omap (λ b, (λ s, rank (status s)) <$> shown b) bs.

(** A run whose clients have seen the status only move forward so far:
    the positions shown are in order, and none is ahead of the session. *)
Definition advancing (r : Run) : Prop :=
  StronglySorted Z.le (shown_ranks (sent r))
  ∧ Forall (λ x, x ≤ rank (status (session r))) (shown_ranks (sent r)).

(** Characters a game name must not contain for the paths and the quoted
    shell commands forge.js builds from it to mean what they say. *)
Definition unsafe_chars : list ascii :=
  [ "/"; "."; " "; "034"; "'"; "$"; "`"; "\"; ";"; "&"; "|"; "<"; ">";
    "{"; "}"; "*"; "?"; "010" ]%char.

End Dashboard.

(* ===================================================================== *)
(** * More concrete inputs *)
(* ===================================================================== *)

Module MoreSamples.

(** A daemon that creates every container but the one of agent 3. *)
Definition flaky_daemon : Docker.Daemon :=
  {| Docker.create_answer :=
       λ o, if String.eqb (Docker.name o) "tokamak-agent-1fa0007c-3"
            then Session.Throw "no space left on device"
            else Session.Ok ("c-" +:+ Docker.name o);
     Docker.start_answer := λ _, None |}.

Definition sample_env : Docker.ProcessEnv :=
  {| Docker.ANTHROPIC_API_KEY := Some "sk-test";
     Docker.ANTHROPIC_BASE_URL := None |}.

Definition sample_session : Session.Session :=
  Session.new_Session "tetris" (JS.Num 3) Samples.sample_bytes 0.

(** A tick in which both git commands answer. *)
Definition counted_world : Watcher.World :=
  {| Watcher.git :=
       Watcher.answering (Some Samples.one_commit_log) (Some "42
");
     Watcher.dir_current_tasks := None;
     Watcher.dir_completed_tasks := None;
     Watcher.src_tree := None;
     Watcher.spec_headings := None |}.

(** A task directory in which one record cannot be read. *)
Definition half_read_world : Watcher.World :=
  {| Watcher.git :=
       Watcher.answering None None;
     Watcher.dir_current_tasks :=
       Some [ ("agent-2-1700000000000", Some "implement scoring");
              ("agent-3-1700000000500", None) ];
     Watcher.dir_completed_tasks := None;
     Watcher.src_tree := None;
     Watcher.spec_headings := None |}.

(** A source tree: two counted files (three lines, and an empty file
    counting one), a file that is not counted and cannot be read, and a
    sub-directory with one more counted file. *)
Definition sample_tree : list Watcher.Entry :=
  [ Watcher.EFile "game.js" (Some "a
b
c");
    Watcher.EFile "style.css" (Some "");
    Watcher.EFile "sprites.png" None;
    Watcher.EDir "ui" (Some [ Watcher.EFile "hud.html" (Some "x
") ]) ].

Definition tree_world : Watcher.World :=
  {| Watcher.git :=
       Watcher.answering None None;
     Watcher.dir_current_tasks := None;
     Watcher.dir_completed_tasks := None;
     Watcher.src_tree := Some sample_tree;
     Watcher.spec_headings := None |}.

(** The same tree with one more directory, which cannot be listed. *)
Definition broken_tree_world : Watcher.World :=
  {| Watcher.git :=
       Watcher.answering None None;
     Watcher.dir_current_tasks := None;
     Watcher.dir_completed_tasks := None;
     Watcher.src_tree := Some (sample_tree ++ [Watcher.EDir "tmp" None])%list;
     Watcher.spec_headings := None |}.

(** A history whose fields contain no '|'. *)
Definition clean_history : list Watcher.GitCommit :=
  [ {| Watcher.g_hash := "9b1d4e07"; Watcher.g_author := "agent-2";
       Watcher.g_subject := "add paddle";
       Watcher.g_reldate := "5 seconds ago" |};
    {| Watcher.g_hash := "3f2a9c11"; Watcher.g_author := "agent-1";
       Watcher.g_subject := "init";
       Watcher.g_reldate := "2 minutes ago" |} ].

Definition clean_git_world : Watcher.World :=
  {| Watcher.git :=
       Watcher.answering (Some (Watcher.git_log_30 clean_history)) (Some "2");
     Watcher.dir_current_tasks := None;
     Watcher.dir_completed_tasks := None;
     Watcher.src_tree := None;
     Watcher.spec_headings := None |}.

(** A pipeline whose steps all go through, and one whose second step
    throws. *)
Definition working_pipeline : Forge.Pipeline :=
  {| Forge.validatePrereqs :=
       {| Forge.reported := [Forge.logged "All prerequisites OK"];
          Forge.thrown := None |};
     Forge.createBareRepo :=
       {| Forge.reported := [Forge.logged "Bare repo created"];
          Forge.thrown := None |};
     Forge.scaffoldProject :=
       {| Forge.reported := [Forge.logged "Scaffold complete: 9 files created"];
          Forge.thrown := None |};
     Forge.generateSpec :=
       {| Forge.reported := [Forge.streamed "# Tetris"; Forge.logged "SPEC.md generated"];
          Forge.thrown := None |};
     Forge.setupTests :=
       {| Forge.reported := [Forge.logged "Tests ready"];
          Forge.thrown := None |};
     Forge.initialCommit :=
       {| Forge.reported := [Forge.logged "Initial commit pushed to bare repo"];
          Forge.thrown := None |} |}.

Definition broken_pipeline : Forge.Pipeline :=
  {| Forge.validatePrereqs := Forge.validatePrereqs working_pipeline;
     Forge.createBareRepo :=
       {| Forge.reported := [Forge.logged "Running: git init --bare"];
          Forge.thrown := Some "Command failed: git init --bare" |};
     Forge.scaffoldProject := Forge.scaffoldProject working_pipeline;
     Forge.generateSpec := Forge.generateSpec working_pipeline;
     Forge.setupTests := Forge.setupTests working_pipeline;
     Forge.initialCommit := Forge.initialCommit working_pipeline |}.

(** A daemon that creates and starts every container. *)
Definition steady_daemon : Docker.Daemon :=
  {| Docker.create_answer := λ o, Session.Ok ("c-" +:+ Docker.name o);
     Docker.start_answer := λ _, None |}.

Definition forge_world (p : Forge.Pipeline) (dk : Docker.Daemon)
    : Dashboard.ForgeWorld :=
  {| Dashboard.pipeline := p;
     Dashboard.build_error := None;
     Dashboard.daemon := dk;
     Dashboard.environment := sample_env;
     Dashboard.first_poll := counted_world;
     Dashboard.clock := λ n, 1700 + Z.of_nat n |}.

Definition tetris_body : Server.Body :=
  {| Server.body_gameName := Some (Server.VString "tetris");
     Server.body_agentCount := Some (Server.VInt 3);
     Server.body_gameDescription := None |}.

Definition empty_dashboard : Dashboard.Dashboard :=
  {| Dashboard.sessionManager := Session.new_SessionManager;
     Dashboard.dockerManager := Docker.new_DockerManager;
     Dashboard.watcher := None |}.

End MoreSamples.

(** Facts that read a field of the polled state off the definition:
    split the pair [updateCommits] returns and compute. *)
Ltac poll_field :=
  unfold Watcher.poll;
  match goal with
  | |- context [Watcher.updateCommits ?wd ?w] =>
      destruct (Watcher.updateCommits wd w) as [? ?]; reflexivity
  end.

(* ===================================================================== *)
(** * Facts about the JavaScript fragments *)
(* ===================================================================== *)

Section JSFacts.

Lemma truthy_true (s : string) : JS.truthy s = true ↔ s ≠ "".
Proof. destruct s; simpl; split; intros; congruence. Qed.

End JSFacts.

(* ===================================================================== *)
(** * Session and SessionManager *)
(* ===================================================================== *)

Section SessionFacts.

Import Session.

Lemma toHex_truthy (r : Bytes4) : JS.truthy (toHex r) = true.
Proof. reflexivity. Qed.

(** [getActive] answers exactly when the guard of [create] blocks. *)
Lemma blocking_getActive (m : SessionManager) : blocking m = getActive m.
Proof.
  unfold blocking, getActive.
  destruct (activeSessionId m) as [aid|]; [|reflexivity].
  destruct (JS.truthy aid); [|reflexivity].
  destruct (sessions m !! aid) as [s|]; [|reflexivity].
  destruct (String.eqb (status s) STOPPED); reflexivity.
Qed.

Lemma getActive_Some (m : SessionManager) (s : Session) :
  getActive m = Some s →
  ∃ i, activeSessionId m = Some i ∧ i ≠ "" ∧ sessions m !! i = Some s
       ∧ status s ≠ STOPPED.
Proof.
  unfold getActive. intros H.
  destruct (activeSessionId m) as [aid|] eqn:Ha; [|discriminate].
  destruct (JS.truthy aid) eqn:Ht; [|discriminate].
  destruct (sessions m !! aid) as [s'|] eqn:Hs; [|discriminate].
  destruct (String.eqb (status s') STOPPED) eqn:He; [discriminate|].
  injection H as <-. exists aid.
  repeat split; try assumption.
  - by apply truthy_true.
  - by apply String.eqb_neq.
Qed.

(** Under the registry invariant a live session anywhere in the Map is
    the active one. *)
Lemma single_live_getActive (m : SessionManager) :
  single_live m →
  (∃ i s, sessions m !! i = Some s ∧ status s ≠ STOPPED) ↔
  (∃ s, getActive m = Some s).
Proof.
  intros Hinv. split.
  - intros (i & s & Hs & Hst).
    destruct (Hinv i s Hs Hst) as [Ha Hi].
    exists s. unfold getActive. rewrite Ha.
    apply truthy_true in Hi. rewrite Hi, Hs.
    apply String.eqb_neq in Hst. by rewrite Hst.
  - intros [s Hs]. apply getActive_Some in Hs as (i & _ & _ & Hs & Hst).
    by exists i, s.
Qed.

(** The manager's own methods keep the registry invariant. *)
Lemma single_live_new : single_live new_SessionManager.
Proof. intros i s H. simpl in H. by rewrite lookup_empty in H. Qed.

Lemma single_live_create gameName n rnd now (m : SessionManager) :
  single_live m → single_live (snd (create gameName n rnd now m)).
Proof.
  intros Hinv. unfold create.
  destruct (blocking m) as [b|] eqn:Hb; simpl; [assumption|].
  rewrite blocking_getActive in Hb.
  intros i s Hs Hst. simpl in *.
  destruct (decide (i = toHex rnd)) as [->|Hne].
  - split; [reflexivity|]. apply truthy_true, toHex_truthy.
  - rewrite lookup_insert_ne in Hs by congruence.
    exfalso.
    assert (∃ s', getActive m = Some s') as [s' Hs'].
    { apply single_live_getActive; [assumption|]. by exists i, s. }
    congruence.
Qed.

Lemma single_live_stop k (m : SessionManager) :
  single_live m → single_live (snd (stop k m)).
Proof.
  intros Hinv. unfold stop.
  destruct (stop_key k m) as [key|]; [|assumption].
  destruct (sessions m !! key) as [s0|] eqn:H0; [|assumption].
  simpl. intros i s Hs Hst. simpl in *.
  destruct (decide (i = key)) as [->|Hne].
  - rewrite lookup_insert_eq in Hs. injection Hs as <-.
    by destruct Hst.
  - rewrite lookup_insert_ne in Hs by congruence. by apply (Hinv i s).
Qed.

(** So every manager reached from a new one by calls of [create] and
    [stop] satisfies it. *)
Lemma single_live_calls (calls : list ManagerCall) :
  single_live (foldl call new_SessionManager calls).
Proof.
  assert (Hgen : ∀ m, single_live m → single_live (foldl call m calls)).
  { induction calls as [|c calls IH]; intros m Hm; simpl; [assumption|].
    apply IH. destruct c; simpl.
    - by apply single_live_create.
    - by apply single_live_stop. }
  apply Hgen, single_live_new.
Qed.



Lemma create_succeeds gameName n rnd now (m : SessionManager) :
  getActive m = None →
  fst (create gameName n rnd now m) = Ok (new_Session gameName n rnd now)
  ∧ snd (create gameName n rnd now m)
    = {| sessions := <[toHex rnd := new_Session gameName n rnd now]> (sessions m);
         activeSessionId := Some (toHex rnd) |}.
Proof.
  intros H. unfold create. rewrite blocking_getActive, H. by split.
Qed.


End SessionFacts.

Section SessionLogFacts.

Import Session.

Lemma addLog_logs now msg (s : Session) :
  logs (snd (addLog now msg s)) =
  if (500 <? length (logs s ++ [mkLogEntry now msg]))%nat
  then tail (logs s ++ [mkLogEntry now msg])%list
  else (logs s ++ [mkLogEntry now msg])%list.
Proof. reflexivity. Qed.

Lemma addLog_bounded now msg (s : Session) :
  (length (logs s) ≤ 500)%nat →
  (length (logs (snd (addLog now msg s))) ≤ 500)%nat.
Proof.
  intros Hlen. rewrite addLog_logs.
  destruct (Nat.ltb_spec 500 (length (logs s ++ [mkLogEntry now msg]))) as [Hgt|Hle].
  - destruct (logs s ++ [mkLogEntry now msg])%list as [|e l] eqn:Heq; simpl; [lia|].
    assert (length (logs s ++ [mkLogEntry now msg]) = S (length l)) as Hl
      by (by rewrite Heq).
    rewrite length_app in Hl. simpl in Hl. lia.
  - assumption.
Qed.

Lemma apply_op_bounded (s : Session) (op : SessionOp) :
  (length (logs s) ≤ 500)%nat → (length (logs (apply_op s op)) ≤ 500)%nat.
Proof.
  destruct op; simpl; try (intros; assumption).
  apply addLog_bounded.
Qed.

Lemma run_ops_bounded (ops : list SessionOp) (s : Session) :
  (length (logs s) ≤ 500)%nat → (length (logs (run_ops ops s)) ≤ 500)%nat.
Proof.
  revert s. induction ops as [|op ops IH]; intros s Hs; simpl; [assumption|].
  apply IH, apply_op_bounded, Hs.
Qed.

(** C8.  Whatever operations are applied to a new Session, its logs hold
    at most 500 entries; an [addLog] on a full buffer drops the oldest
    entry and appends the new one, and below the bound it only appends. *)
Theorem logs_bounded gameName n rnd now (ops : list SessionOp) :
  let s := run_ops ops (new_Session gameName n rnd now) in
  (length (logs s) ≤ 500)%nat
  ∧ (∀ t msg, length (logs s) = 500%nat →
       logs (snd (addLog t msg s)) = (tail (logs s) ++ [mkLogEntry t msg])%list
       ∧ length (logs (snd (addLog t msg s))) = 500%nat)
  ∧ (∀ t msg, (length (logs s) < 500)%nat →
       logs (snd (addLog t msg s)) = (logs s ++ [mkLogEntry t msg])%list).
Proof.
  intros s. split; [|split].
  - apply run_ops_bounded. simpl. lia.
  - intros t msg Hfull. rewrite addLog_logs.
    rewrite length_app. simpl.
    destruct (Nat.ltb_spec 500 (length (logs s) + 1)) as [_|Hle]; [|lia].
    destruct (logs s) as [|e l]; [discriminate|]. simpl.
    split; [reflexivity|]. rewrite length_app. simpl in *. lia.
  - intros t msg Hlt. rewrite addLog_logs.
    rewrite length_app. simpl.
    destruct (Nat.ltb_spec 500 (length (logs s) + 1)) as [Hgt|_]; [lia|].
    reflexivity.
Qed.

Lemma logs_bounded_witness :
  let s := run_ops (replicate 500 (OpAddLog 7 "step")) 
             (new_Session "tetris" (JS.Num 3) Samples.sample_bytes 0) in
  length (logs s) = 500%nat
  ∧ logs (snd (addLog 8 "late" s))
    = (tail (logs s) ++ [mkLogEntry 8 "late"])%list.
Proof.
  assert (Hlen : length (logs (run_ops (replicate 500 (OpAddLog 7 "step"))
                   (new_Session "tetris" (JS.Num 3) Samples.sample_bytes 0))) = 500%nat)
    by (vm_compute; reflexivity).
  split; [exact Hlen|].
  exact (proj1 (proj1 (proj2 (logs_bounded "tetris" (JS.Num 3) Samples.sample_bytes 0
                 (replicate 500 (OpAddLog 7 "step")))) 8 "late" Hlen)).
Defined.


End SessionLogFacts.

(* ===================================================================== *)
(** * parseInt and the decimal notation *)
(* ===================================================================== *)

Section ParseIntFacts.

Lemma span_digits_all (s : string) :
  JS.all_digits s = true → JS.span_digits s = (s, "").
Proof.
  induction s as [|c s IH]; simpl; [reflexivity|].
  intros H. apply andb_prop in H as [Hc Hs].
  rewrite Hc, (IH Hs). reflexivity.
Qed.

Lemma string_of_uint_digits (d : Decimal.uint) :
  JS.all_digits (NilEmpty.string_of_uint d) = true.
Proof. induction d; simpl; try reflexivity; assumption. Qed.

Lemma string_of_uint_head (d : Decimal.uint) :
  d ≠ Decimal.Nil →
  ∃ c r, NilEmpty.string_of_uint d = String c r ∧ JS.is_digit c = true.
Proof.
  destruct d; intros H; try congruence; simpl; eexists _, _; split;
    reflexivity.
Qed.

Lemma to_uint_nonnil (n : N) : N.to_uint n ≠ Decimal.Nil.
Proof.
  destruct n as [|p]; simpl; [discriminate|].
  apply DecimalPos.Unsigned.to_uint_nonnil.
Qed.

Lemma digits_value_print (n : N) :
  JS.digits_value (NilEmpty.string_of_uint (N.to_uint n)) = Z.of_N n.
Proof.
  unfold JS.digits_value. rewrite NilEmpty.usu.
  by rewrite DecimalN.Unsigned.of_to.
Qed.

Lemma digit_not_space (c : ascii) : JS.is_digit c = true → JS.is_space c = false.
Proof.
  unfold JS.is_digit, JS.is_space. intros H.
  apply andb_prop in H as [H1 H2].
  apply Nat.leb_le in H1. apply Nat.leb_le in H2.
  apply orb_false_iff. split.
  - apply andb_false_iff. right. apply Nat.leb_gt. lia.
  - apply Nat.eqb_neq. lia.
Qed.

(** A first character below 0xC2 that is not ASCII white space ends
    the white space at the front. *)
Lemma trimStart_unicode_keep (c : ascii) (r : string) :
  JS.is_space c = false → (nat_of_ascii c < 194)%nat →
  JS.trimStart_unicode (String c r) = String c r.
Proof.
  intros Hs Hc. cbn [JS.trimStart_unicode]. rewrite Hs.
  destruct r as [|d r1]; [reflexivity|].
  assert (Hn : JS.nbsp c d = false).
  { unfold JS.nbsp. apply andb_false_iff. left. apply Nat.eqb_neq. lia. }
  rewrite Hn. destruct r1 as [|e r2]; [reflexivity|].
  assert (Hw : JS.wide_space c d e = false).
  { unfold JS.wide_space.
    assert (H1 : (nat_of_ascii c =? 225)%nat = false) by (apply Nat.eqb_neq; lia).
    assert (H2 : (nat_of_ascii c =? 226)%nat = false) by (apply Nat.eqb_neq; lia).
    assert (H3 : (nat_of_ascii c =? 227)%nat = false) by (apply Nat.eqb_neq; lia).
    assert (H4 : (nat_of_ascii c =? 239)%nat = false) by (apply Nat.eqb_neq; lia).
    by rewrite H1, H2, H3, H4. }
  by rewrite Hw.
Qed.

Lemma digit_ascii (c : ascii) :
  JS.is_digit c = true → (nat_of_ascii c < 194)%nat.
Proof.
  unfold JS.is_digit. intros H. apply andb_prop in H as [_ H2].
  apply Nat.leb_le in H2. lia.
Qed.

Lemma digit_not_sign (c : ascii) :
  JS.is_digit c = true → c ≠ "-"%char ∧ c ≠ "+"%char.
Proof. intros H. split; intros ->; discriminate. Qed.

(** Parsing the digits of a natural number gives it back. *)
Lemma parseInt10_digits (n : N) :
  JS.parseInt10 (NilEmpty.string_of_uint (N.to_uint n)) = JS.Num (Z.of_N n).
Proof.
  pose proof (string_of_uint_digits (N.to_uint n)) as Hall.
  pose proof (digits_value_print n) as Hval.
  destruct (string_of_uint_head (N.to_uint n) (to_uint_nonnil n))
    as (c & r & Heq & Hc).
  rewrite Heq in *. unfold JS.parseInt10.
  rewrite (trimStart_unicode_keep c r (digit_not_space c Hc) (digit_ascii c Hc)).
  destruct (digit_not_sign c Hc) as [Hm Hp].
  assert (Hsign : (match String c r with
                   | String "-" r0 => (true, r0)
                   | String "+" r0 => (false, r0)
                   | _ => (false, String c r)
                   end) = (false, String c r)).
  { destruct c as [[] [] [] [] [] [] [] []]; try reflexivity; congruence. }
  rewrite Hsign. rewrite (span_digits_all _ Hall). simpl. by rewrite Hval.
Qed.

Lemma parseInt10_minus (s : string) :
  JS.all_digits s = true → JS.truthy s = true →
  JS.parseInt10 (String "-" s) = JS.Num (- JS.digits_value s).
Proof.
  intros Hall Hne. unfold JS.parseInt10.
  rewrite (trimStart_unicode_keep "-" s eq_refl)
    by (change (nat_of_ascii "-") with 45%nat; lia).
  rewrite (span_digits_all _ Hall), Hne. reflexivity.
Qed.

(** [parseInt(String(z), 10)] is [z]. *)
Lemma parseInt10_string_of_Z (z : Z) :
  JS.parseInt10 (JS.string_of_Z z) = JS.Num z.
Proof.
  unfold JS.string_of_Z. destruct (Z.ltb_spec z 0) as [Hneg|Hpos].
  - change ("-" +:+ ?x) with (String "-" x).
    rewrite parseInt10_minus.
    + rewrite digits_value_print, N2Z.inj_abs_N. f_equal. lia.
    + apply string_of_uint_digits.
    + destruct (string_of_uint_head _ (to_uint_nonnil (Z.abs_N z)))
        as (c & r & -> & _). reflexivity.
  - rewrite parseInt10_digits. f_equal. lia.
Qed.

End ParseIntFacts.

(* ===================================================================== *)
(** * POST /api/forge: the worker count *)
(* ===================================================================== *)

Section ServerFacts.

Import Server.

Lemma forge_count_clamp (field : option JSValue) :
  forge_count field
  = JS.Num (clamp (JS.parseInt10 (ToString (default (VInt 3) field)))).
Proof.
  unfold forge_count, clamp.
  destruct (JS.parseInt10 _) as [z|]; [|reflexivity].
  unfold JS.or_num, JS.truthy_num.
  destruct (Z.eqb_spec z 0); reflexivity.
Qed.

Lemma clamp_range (p : JS.number) : 1 ≤ clamp p ≤ 5.
Proof.
  unfold clamp. destruct p as [z|]; [|lia].
  destruct (Z.eqb_spec z 0); lia.
Qed.

Lemma post_forge_created body rnd now m session m' :
  post_forge body rnd now m = (Reply200 session, m') →
  Session.agentCount session = forge_count (body_agentCount body).
Proof.
  unfold post_forge.
  destruct (body_gameName body) as [[| | |g|]|]; try discriminate.
  destruct (negb (JS.truthy g)); [discriminate|].
  destruct (negb (valid_gameName g)); [discriminate|].
  unfold Session.create.
  destruct (Session.blocking m); [discriminate|].
  intros H. injection H as <- _. reflexivity.
Qed.

(** C9, as the code has it.  Whenever the endpoint creates a session, the
    worker count it passes is an integer between 1 and 5.  A missing
    field, a value [parseInt] cannot read, and a value it reads as 0 all
    give 3; a negative reading gives 1, a reading above 5 gives 5, and a
    reading from 1 to 5 is kept.  An integer in the body that
    JavaScript prints in plain decimal notation (below 10^21 in absolute
    value) reads as itself, so these cases apply to it directly. *)
Theorem forge_count_range body rnd now m session m' :
  post_forge body rnd now m = (Reply200 session, m') →
  ∃ c, Session.agentCount session = JS.Num c ∧ 1 ≤ c ≤ 5
    ∧ (body_agentCount body = None → c = 3)
    ∧ (∀ v, body_agentCount body = Some v →
         match JS.parseInt10 (ToString v) with
         | JS.NaN => c = 3
         | JS.Num z =>
             (z = 0 → c = 3) ∧ (z < 0 → c = 1) ∧ (5 < z → c = 5)
             ∧ (1 ≤ z ≤ 5 → c = z)
         end)
    ∧ (∀ z, body_agentCount body = Some (VInt z) → Z.abs z < 10 ^ 21 →
         (z = 0 → c = 3) ∧ (z < 0 → c = 1) ∧ (5 < z → c = 5)
         ∧ (1 ≤ z ≤ 5 → c = z)).
Proof.
  intros H. apply post_forge_created in H. rewrite H, forge_count_clamp.
  eexists. split; [reflexivity|]. split; [apply clamp_range|].
  split; [|split].
  - intros ->. reflexivity.
  - intros v ->. simpl. unfold clamp.
    destruct (JS.parseInt10 (ToString v)) as [z|]; [|reflexivity].
    destruct (Z.eqb_spec z 0); repeat split; intros; lia.
  - intros z -> _. change (default (VInt 3) (Some (VInt z))) with (VInt z).
    change (ToString (VInt z)) with (JS.string_of_Z z).
    rewrite parseInt10_string_of_Z.
    unfold clamp. destruct (Z.eqb_spec z 0); repeat split; intros; lia.
Qed.

Lemma forge_count_range_witness :
  ∃ session m',
    post_forge
      {| body_gameName := Some (VString "tetris");
         body_agentCount := Some (VInt 9);
         body_gameDescription := None |}
      Samples.sample_bytes 0 Session.new_SessionManager
    = (Reply200 session, m')
    ∧ ∃ c, Session.agentCount session = JS.Num c ∧ 1 ≤ c ≤ 5 ∧ c = 5.
Proof.
  eexists _, _. split; [reflexivity|].
  destruct (forge_count_range
              {| body_gameName := Some (VString "tetris");
                 body_agentCount := Some (VInt 9);
                 body_gameDescription := None |}
              Samples.sample_bytes 0 Session.new_SessionManager _ _
              eq_refl) as (c & Hc & Hr & _ & _ & Hint).
  exists c. split; [assumption|]. split; [assumption|].
  destruct (Hint 9 eq_refl) as (_ & _ & Hhigh & _); [lia|].
  apply Hhigh. lia.
Defined.

(** C9 as worded fails at 0: it is below 1, yet the count is 3, not 1. *)
Lemma forge_count_zero :
  0 < 1
  ∧ forge_count (Some (VInt 0)) = JS.Num 3
  ∧ forge_count (Some (VInt 0)) ≠ JS.Num 1
  ∧ ∃ session m',
      post_forge
        {| body_gameName := Some (VString "tetris");
           body_agentCount := Some (VInt 0);
           body_gameDescription := None |}
        Samples.sample_bytes 0 Session.new_SessionManager
      = (Reply200 session, m')
      ∧ Session.agentCount session = JS.Num 3.
Proof.
  split; [lia|]. split; [reflexivity|]. split; [discriminate|].
  eexists _, _. split; reflexivity.
Qed.

End ServerFacts.

(* ===================================================================== *)
(** * The watcher: deriving agent status *)
(* ===================================================================== *)

Section AgentStatusFacts.

Import Watcher.

Implicit Types (ag : gmap string AgentStatus) (k : string).

Lemma last_desc_None k (ts : list Task) :
  last_desc k ts = None ↔ k ∉ agentId <$> ts.
Proof.
  induction ts as [|t ts IH]; simpl.
  - split; [intros _; apply not_elem_of_nil|reflexivity].
  - rewrite not_elem_of_cons. destruct (last_desc k ts) as [d|].
    + split; [discriminate|]. intros [_ H]. by apply IH in H.
    + destruct (String.eqb_spec (agentId t) k) as [->|Hne].
      * split; [discriminate|]. intros [H _]. congruence.
      * split; [|reflexivity]. intros _. split; [congruence|]. by apply IH.
Qed.


Lemma set_working_worked k d d' (prev : option AgentStatus) :
  set_working d (worked k d' prev) = worked k d prev.
Proof. destruct prev; reflexivity. Qed.

Lemma note_task_lookup ag (t : Task) k :
  note_task ag t !! k =
  if decide (agentId t = k) then Some (worked k (description t) (ag !! k))
  else ag !! k.
Proof.
  unfold note_task. destruct (decide (agentId t = k)) as [<-|Hne].
  - destruct (ag !! agentId t); by rewrite lookup_insert_eq.
  - destruct (ag !! agentId t); by rewrite lookup_insert_ne.
Qed.

(** The task pass: an agent named by a record ends up working on the
    last such record's description; other entries are untouched. *)
Lemma fold_note_task (ts : list Task) ag k :
  foldl note_task ag ts !! k =
  match last_desc k ts with
  | Some d => Some (worked k d (ag !! k))
  | None => ag !! k
  end.
Proof.
  revert ag. induction ts as [|t ts IH]; intros ag; simpl; [reflexivity|].
  rewrite IH, note_task_lookup.
  destruct (last_desc k ts) as [d|].
  - destruct (decide (agentId t = k)) as [Heq|Hne]; [|reflexivity].
    simpl. by rewrite set_working_worked.
  - destruct (decide (agentId t = k)) as [Heq|Hne].
    + apply String.eqb_eq in Heq. by rewrite Heq.
    + apply String.eqb_neq in Hne. by rewrite Hne.
Qed.

Lemma note_commit_lookup (A : gset string) ag (c : Commit) k :
  note_commit A ag c !! k =
  if attributed k c
  then Some (count_commit (is_completion c) (counted_from A k (ag !! k)))
  else ag !! k.
Proof.
  unfold note_commit, attributed.
  destruct (author c ≫= match_agent) as [i|] eqn:Hi.
  - destruct (decide (i = k)) as [->|Hne].
    + rewrite (bool_decide_eq_true_2 (Some k = Some k)) by reflexivity.
      rewrite lookup_insert_eq. reflexivity.
    + rewrite (bool_decide_eq_false_2 (Some i = Some k)) by congruence.
      by rewrite lookup_insert_ne.
  - rewrite (bool_decide_eq_false_2 (None = Some k)) by discriminate.
    reflexivity.
Qed.

Lemma bump_count_commit n t b (a : AgentStatus) :
  bump n t (count_commit b a) = bump (1 + n) ((if b then 1 else 0) + t) a.
Proof.
  unfold bump, count_commit. simpl. f_equal; [lia|]. destruct b; lia.
Qed.

Lemma bump_zero (a : AgentStatus) : bump 0 0 a = a.
Proof.
  destruct a. unfold bump. simpl. f_equal; lia.
Qed.

Lemma count_by_cons k c (cs : list Commit) :
  count_by k (c :: cs) = (if attributed k c then 1 else 0) + count_by k cs.
Proof.
  unfold count_by. simpl. destruct (attributed k c); simpl; lia.
Qed.

Lemma done_by_cons k c (cs : list Commit) :
  done_by k (c :: cs) =
  (if attributed k c && is_completion c then 1 else 0) + done_by k cs.
Proof.
  unfold done_by. simpl.
  destruct (attributed k c && is_completion c); simpl; lia.
Qed.

Lemma count_by_nonneg k (cs : list Commit) : 0 ≤ count_by k cs.
Proof. unfold count_by. lia. Qed.

Lemma done_by_zero k (cs : list Commit) : count_by k cs = 0 → done_by k cs = 0.
Proof.
  induction cs as [|c cs IH]; [reflexivity|].
  rewrite count_by_cons, done_by_cons.
  pose proof (count_by_nonneg k cs).
  destruct (attributed k c); simpl; [lia|]. assumption.
Qed.

(** The commit pass: every commit of the window attributed to [k] adds
    one to the counter the entry already had. *)
Lemma fold_note_commit (A : gset string) (cs : list Commit) ag k :
  foldl (note_commit A) ag cs !! k =
  if decide (count_by k cs = 0) then ag !! k
  else Some (bump (count_by k cs) (done_by k cs) (counted_from A k (ag !! k))).
Proof.
  revert ag. induction cs as [|c cs IH]; intros ag; simpl; [reflexivity|].
  rewrite IH, note_commit_lookup, count_by_cons, done_by_cons.
  pose proof (count_by_nonneg k cs) as Hnn.
  destruct (attributed k c) eqn:Hc; simpl.
  - destruct (decide (count_by k cs = 0)) as [Hz|Hnz].
    + rewrite decide_False by lia.
      rewrite Hz, (done_by_zero _ _ Hz). f_equal.
      rewrite <- (bump_zero (count_commit _ _)) at 1.
      rewrite bump_count_commit. reflexivity.
    + rewrite decide_False by lia. f_equal.
      rewrite bump_count_commit. reflexivity.
  - rewrite !Z.add_0_l. reflexivity.
Qed.

Lemma settle_lookup (A : gset string) ag k :
  map_imap (settle A) ag !! k =
  (λ a, if bool_decide (k ∈ A) then a else set_idle a) <$> ag !! k.
Proof.
  rewrite map_lookup_imap. destruct (ag !! k); reflexivity.
Qed.

Lemma active_elem (ts : list Task) k :
  k ∈ (list_to_set (agentId <$> ts) : gset string) ↔ k ∈ agentId <$> ts.
Proof. apply elem_of_list_to_set. Qed.

End AgentStatusFacts.

Section DeriveFacts.

Import Watcher.

Implicit Types (s : State) (k : string).

(** The entry [derive_agents] leaves for [k], in closed form. *)
Lemma derive_agents_lookup s k :
  derive_agents s !! k =
  let A : gset string := list_to_set (agentId <$> currentTasks s) in
  let after_tasks :=
    match last_desc k (currentTasks s) with
    | Some d => Some (worked k d (agents s !! k))
    | None => agents s !! k
    end in
  let after_commits :=
    if decide (count_by k (commits s) = 0) then after_tasks
    else Some (bump (count_by k (commits s)) (done_by k (commits s))
                 (counted_from A k after_tasks)) in
  (λ a, if bool_decide (k ∈ A) then a else set_idle a) <$> after_commits.
Proof.
  unfold derive_agents.
  rewrite settle_lookup, fold_note_commit, fold_note_task. reflexivity.
Qed.

Lemma derive_working s k d :
  last_desc k (currentTasks s) = Some d →
  ∃ a, derive_agents s !! k = Some a
       ∧ status a = "working" ∧ currentTask a = Some d.
Proof.
  intros Hd. rewrite derive_agents_lookup. simpl. rewrite Hd.
  assert (Hin : k ∈ (list_to_set (agentId <$> currentTasks s) : gset string)).
  { apply active_elem. destruct (decide (k ∈ agentId <$> currentTasks s))
      as [|Hn]; [assumption|].
    apply last_desc_None in Hn. congruence. }
  rewrite (bool_decide_eq_true_2 _ Hin).
  destruct (decide (count_by k (commits s) = 0)); simpl;
    eexists; (split; [reflexivity|]);
    destruct (agents s !! k); split; reflexivity.
Qed.

Lemma derive_idle s k a :
  k ∉ agentId <$> currentTasks s →
  derive_agents s !! k = Some a →
  status a = "idle" ∧ currentTask a = None.
Proof.
  intros Hn. rewrite derive_agents_lookup. simpl.
  assert (Hout : k ∉ (list_to_set (agentId <$> currentTasks s) : gset string))
    by (by rewrite active_elem).
  rewrite (bool_decide_eq_false_2 _ Hout).
  destruct (if decide (count_by k (commits s) = 0) then _ else _) as [b|];
    simpl; [|discriminate].
  intros [= <-]. split; reflexivity.
Qed.

(** An entry, once there, stays. *)
Lemma derive_keeps s k :
  is_Some (agents s !! k) → is_Some (derive_agents s !! k).
Proof.
  intros [a Ha]. rewrite derive_agents_lookup. simpl. rewrite Ha.
  destruct (last_desc k (currentTasks s));
    destruct (decide (count_by k (commits s) = 0)); simpl; eauto.
Qed.

(** Every derivation adds the whole window to the counters an entry
    already carries. *)
Lemma derive_counts s k a :
  agents s !! k = Some a →
  ∃ a', derive_agents s !! k = Some a'
        ∧ commitCount a' = commitCount a + count_by k (commits s)
        ∧ taskCount a' = taskCount a + done_by k (commits s).
Proof.
  intros Ha. rewrite derive_agents_lookup. simpl. rewrite Ha.
  destruct (decide (count_by k (commits s) = 0)) as [Hz|Hnz].
  - rewrite (done_by_zero _ _ Hz), Hz.
    destruct (last_desc k (currentTasks s)); simpl;
      eexists; (split; [reflexivity|]);
      destruct (bool_decide _); simpl; lia.
  - destruct (last_desc k (currentTasks s)); simpl;
      eexists; (split; [reflexivity|]);
      destruct (bool_decide _); simpl; lia.
Qed.

(** ** What a poll leaves in the state *)


Lemma updateCommits_agents wd (w : RepoWatcher) :
  agents (state (fst (updateCommits wd w))) = agents (state w).
Proof.
  unfold updateCommits.
  destruct (negb (JS.truthy (execGit (git_log wd)))); [reflexivity|].
  destruct (head (parse_log (execGit (git_log wd)))) as [c0|]; [|reflexivity].
  destruct (head_changed _ _); reflexivity.
Qed.

Lemma poll_currentTasks wd (w : RepoWatcher) :
  currentTasks (state (fst (poll wd w))) = tasks_of wd.
Proof. poll_field. Qed.

Lemma poll_commits wd (w : RepoWatcher) :
  commits (state (fst (poll wd w))) = commits (state (fst (updateCommits wd w))).
Proof. poll_field. Qed.

Lemma poll_agents wd (w : RepoWatcher) :
  agents (state (fst (poll wd w)))
  = derive_agents (set_agents (agents (state w)) (state (fst (poll wd w)))).
Proof.
  pose proof (updateCommits_agents wd w) as Hag.
  unfold poll in *. destruct (updateCommits wd w) as [w1 ev].
  simpl in *. rewrite <- Hag. reflexivity.
Qed.

Lemma poll_events wd (w : RepoWatcher) :
  snd (poll wd w)
  = (snd (updateCommits wd w) ++ [stateEvent (getState (fst (poll wd w)))])%list.
Proof. poll_field. Qed.

End DeriveFacts.

Section AgentStatusClaims.

Import Watcher.

Lemma polls_snoc (wds : list World) wd (w : RepoWatcher) :
  fst (polls (wds ++ [wd]) w) = fst (poll wd (fst (polls wds w))).
Proof.
  revert w. induction wds as [|wd0 wds IH]; intros w; simpl.
  - destruct (poll wd w) as [w1 e1]. reflexivity.
  - destruct (poll wd0 w) as [w1 e1]. simpl.
    specialize (IH w1).
    destruct (polls (wds ++ [wd]) w1) as [w2 e2].
    destruct (polls wds w1) as [w3 e3]. simpl in *. assumption.
Qed.

Lemma poll_keeps wd (w : RepoWatcher) k :
  is_Some (agents (state w) !! k) →
  is_Some (agents (state (fst (poll wd w))) !! k).
Proof. intros H. rewrite poll_agents. by apply derive_keeps. Qed.

Lemma polls_keep (wds : list World) (w : RepoWatcher) k :
  is_Some (agents (state w) !! k) →
  is_Some (agents (state (fst (polls wds w))) !! k).
Proof.
  revert w. induction wds as [|wd wds IH]; intros w H; simpl; [assumption|].
  pose proof (poll_keeps wd w k H) as H1.
  destruct (poll wd w) as [w1 e1]. simpl in H1.
  specialize (IH w1 H1). destruct (polls wds w1) as [w2 e2]. assumption.
Qed.

Lemma poll_idle wd (w : RepoWatcher) k :
  is_Some (agents (state w) !! k) →
  k ∉ agentId <$> currentTasks (state (fst (poll wd w))) →
  ∃ a, agents (state (fst (poll wd w))) !! k = Some a
       ∧ status a = "idle" ∧ currentTask a = None.
Proof.
  intros Hsome Hnone.
  pose proof (poll_keeps wd w k Hsome) as [a Ha].
  exists a. split; [assumption|].
  rewrite poll_agents in Ha.
  exact (derive_idle
           (set_agents (agents (state w)) (state (fst (poll wd w))))
           k a Hnone Ha).
Qed.




(** C10.  No tick removes an entry of the agents map: an agent that has
    an entry keeps one through any sequence of ticks, whatever the commit
    window then shows; after a tick whose listing has no record naming
    it, the entry is 'idle' with currentTask null.  The map is empty in a
    newly constructed watcher and in the state [reset] installs. *)
Theorem agents_never_removed (wds : list World) (w : RepoWatcher) (k : string) :
  (is_Some (agents (state w) !! k) →
   is_Some (agents (state (fst (polls wds w))) !! k))
  ∧ (∀ wd, is_Some (agents (state w) !! k) →
       k ∉ agentId <$> tasks_of wd →
       ∃ a, agents (state (fst (polls (wds ++ [wd]) w))) !! k = Some a
            ∧ status a = "idle" ∧ currentTask a = None)
  ∧ (∀ path, agents (state (new_RepoWatcher path)) = ∅)
  ∧ (∀ path, agents (state (cleared path (fst (polls wds w)))) = ∅).
Proof.
  split; [apply polls_keep|]. split; [|split; reflexivity].
  intros wd Hsome Hnone. rewrite polls_snoc.
  apply poll_idle; [by apply polls_keep|].
  by rewrite poll_currentTasks.
Qed.

Lemma agents_never_removed_witness :
  ∃ a, agents (state (fst (polls ([Samples.busy_world] ++ [Samples.quiet_world])
                              (fst (poll Samples.busy_world
                                      (new_RepoWatcher "/work")))))) !! "2"
       = Some a
       ∧ status a = "idle" ∧ currentTask a = None.
Proof.
  apply (proj1 (proj2 (agents_never_removed [Samples.busy_world]
                         (fst (poll Samples.busy_world (new_RepoWatcher "/work")))
                         "2")) Samples.quiet_world).
  - vm_compute. eexists. reflexivity.
  - vm_compute. apply not_elem_of_nil.
Defined.

(** Each tick adds the whole commit window to the counters an agent
    already has. *)
Lemma poll_recounts wd (w : RepoWatcher) k a :
  agents (state w) !! k = Some a →
  ∃ a', agents (state (fst (poll wd w))) !! k = Some a'
        ∧ commitCount a' = commitCount a
                           + count_by k (commits (state (fst (poll wd w))))
        ∧ taskCount a' = taskCount a
                         + done_by k (commits (state (fst (poll wd w)))).
Proof.
  intros Ha. rewrite poll_agents.
  apply (derive_counts (set_agents (agents (state w)) (state (fst (poll wd w)))) k a Ha).
Qed.

(** C1 does not hold of the code.  With one commit by agent 1 in the
    history and nothing changing between ticks, the first tick reports
    commitCount 1 and taskCount 1, the second 2 and 2, the third 3 and 3:
    the window is added again on every tick. *)
Theorem counters_grow_with_polling :
  let after n := agents (state (fst (polls (replicate n Samples.quiet_world)
                                        (new_RepoWatcher "/work")))) !! "1" in
  (commitCount <$> after 1%nat, taskCount <$> after 1%nat) = (Some 1, Some 1)
  ∧ (commitCount <$> after 2%nat, taskCount <$> after 2%nat) = (Some 2, Some 2)
  ∧ (commitCount <$> after 3%nat, taskCount <$> after 3%nat) = (Some 3, Some 3).
Proof. vm_compute. repeat split. Qed.

End AgentStatusClaims.

(* ===================================================================== *)
(** * The watcher: task file names *)
(* ===================================================================== *)

Section TaskNameFacts.

Import Watcher.

#[local] Arguments String.append !s1 s2 : simpl nomatch.

Lemma append_assoc (a b c : string) : (a +:+ b) +:+ c = a +:+ (b +:+ c).
Proof. induction a as [|x a IH]; simpl; [reflexivity|]. by f_equal. Qed.

Lemma append_empty_r (a : string) : a +:+ "" = a.
Proof. induction a as [|x a IH]; simpl; [reflexivity|]. by f_equal. Qed.

Lemma strip_prefix_Some (p s r : string) :
  JS.strip_prefix p s = Some r ↔ s = p +:+ r.
Proof.
  revert s. induction p as [|a p IH]; intros s; simpl.
  - split; [intros [= ->]; reflexivity|intros ->; reflexivity].
  - destruct s as [|b s]; [split; discriminate|].
    destruct (Ascii.eqb_spec a b) as [->|Hne].
    + rewrite IH. split; [intros ->; reflexivity|intros [= ->]; reflexivity].
    + split; [discriminate|]. intros [= H _]. congruence.
Qed.

(** What [span_digits] returns: a split of the string into digits and a
    rest that does not begin with a digit. *)
Lemma span_digits_spec (s d r : string) :
  JS.span_digits s = (d, r) →
  s = d +:+ r ∧ JS.all_digits d = true
  ∧ match r with String c _ => JS.is_digit c = false | EmptyString => True end.
Proof.
  revert d r. induction s as [|c s IH]; intros d r; simpl.
  - intros [= <- <-]. auto.
  - destruct (JS.is_digit c) eqn:Hc.
    + destruct (JS.span_digits s) as [d' r'].
      intros [= <- <-]. destruct (IH d' r' eq_refl) as (-> & Hall & Hr).
      simpl. rewrite Hc. auto.
    + intros [= <- <-]. simpl. auto.
Qed.

Lemma span_digits_app (d r : string) :
  JS.all_digits d = true →
  JS.span_digits (d +:+ r)
  = (d +:+ fst (JS.span_digits r), snd (JS.span_digits r)).
Proof.
  induction d as [|c d IH]; simpl; intros H.
  - by destruct (JS.span_digits r).
  - apply andb_prop in H as [Hc Hd]. rewrite Hc, (IH Hd). reflexivity.
Qed.

Lemma truthy_append (a b : string) :
  JS.truthy a = true → JS.truthy (a +:+ b) = true.
Proof. by destruct a. Qed.

(** A match at the start of the name, read back as a decomposition. *)
Lemma task_name_here_Some (s a b : string) :
  task_name_here s = Some (a, b) →
  ∃ post, s = "agent-" +:+ a +:+ "-" +:+ b +:+ post
          ∧ digit_run a ∧ digit_run b.
Proof.
  unfold task_name_here.
  destruct (JS.strip_prefix "agent-" s) as [r|] eqn:Hp; [|discriminate].
  apply strip_prefix_Some in Hp as ->.
  destruct (JS.span_digits r) as [d1 r1] eqn:H1.
  apply span_digits_spec in H1 as (-> & Hall1 & _).
  destruct (JS.truthy d1) eqn:Ht1; [|discriminate].
  destruct r1 as [|c r2]; [discriminate|].
  destruct (Ascii.eqb_spec c "-") as [->|Hne].
  - destruct (JS.span_digits r2) as [d2 r3] eqn:H2.
    apply span_digits_spec in H2 as (-> & Hall2 & _).
    destruct (JS.truthy d2) eqn:Ht2; [|discriminate].
    intros [= <- <-]. exists r3. repeat split; assumption.
  - destruct c as [[] [] [] [] [] [] [] []]; try discriminate.
    congruence.
Qed.

(** A name that begins with the pattern is matched at its start; the
    second group runs on through any digits that follow. *)
Lemma task_name_here_complete (i ts post : string) :
  digit_run i → digit_run ts →
  task_name_here ("agent-" +:+ i +:+ "-" +:+ ts +:+ post)
  = Some (i, ts +:+ fst (JS.span_digits post)).
Proof.
  intros [Hti Hai] [Htt Hat]. unfold task_name_here.
  assert (Hp : JS.strip_prefix "agent-" ("agent-" +:+ i +:+ "-" +:+ ts +:+ post)
               = Some (i +:+ "-" +:+ ts +:+ post))
    by (by apply strip_prefix_Some).
  rewrite Hp. rewrite (span_digits_app _ _ Hai). simpl.
  rewrite append_empty_r, Hti.
  rewrite (span_digits_app _ _ Hat). simpl.
  by rewrite (truthy_append _ _ Htt).
Qed.

Lemma match_task_name_Some (f a b : string) :
  match_task_name f = Some (a, b) →
  ∃ pre post, f = pre +:+ "agent-" +:+ a +:+ "-" +:+ b +:+ post
              ∧ digit_run a ∧ digit_run b.
Proof.
  induction f as [|c f IH]; simpl.
  - discriminate.
  - destruct (task_name_here (String c f)) as [[a' b']|] eqn:Hh.
    + intros [= -> ->]. apply task_name_here_Some in Hh as (post & Heq & Hd).
      exists "", post. by split.
    + intros H. destruct (IH H) as (pre & post & -> & Hd).
      exists (String c pre), post. by split.
Qed.

Lemma match_task_name_None (f : string) :
  match_task_name f = None ↔ ¬ has_task_pattern f.
Proof.
  split.
  - intros Hnone (pre & i & ts & post & -> & Hi & Hts).
    revert Hnone. induction pre as [|c pre IH].
    + change ("" +:+ ?x) with x.
      destruct i as [|ci i]; [by destruct Hi|].
      pose proof (task_name_here_complete (String ci i) ts post Hi Hts) as Hh.
      simpl in *. rewrite Hh. discriminate.
    + simpl.
      destruct (task_name_here _); [discriminate|]. exact IH.
  - intros Hno. destruct (match_task_name f) as [[a b]|] eqn:Hm; [|reflexivity].
    exfalso. apply Hno.
    apply match_task_name_Some in Hm as (pre & post & Heq & Ha & Hb).
    by exists pre, a, b, post.
Qed.

(** A name that is exactly [agent-<id>-<millis>] yields its two parts. *)
Lemma match_task_name_exact (i ts : string) :
  digit_run i → digit_run ts →
  match_task_name ("agent-" +:+ i +:+ "-" +:+ ts) = Some (i, ts).
Proof.
  intros Hi Hts.
  pose proof (task_name_here_complete i ts "" Hi Hts) as Hh.
  rewrite !append_empty_r in Hh.
  destruct i as [|ci i]; [by destruct Hi|].
  simpl in *. by rewrite Hh.
Qed.

Lemma parseInt10_digit_run (s : string) :
  digit_run s → JS.parseInt10 s = JS.Num (JS.digits_value s).
Proof.
  intros [Ht Hall]. destruct s as [|c s]; [discriminate|].
  pose proof Hall as Hall'. simpl in Hall'. apply andb_prop in Hall' as [Hc _].
  unfold JS.parseInt10.
  rewrite (trimStart_unicode_keep c s (digit_not_space c Hc) (digit_ascii c Hc)).
  destruct (digit_not_sign c Hc) as [Hm Hp].
  assert (Hsign : (match String c s with
                   | String "-" r0 => (true, r0)
                   | String "+" r0 => (false, r0)
                   | _ => (false, String c s)
                   end) = (false, String c s)).
  { destruct c as [[] [] [] [] [] [] [] []]; try reflexivity; congruence. }
  rewrite Hsign, (span_digits_all _ Hall). reflexivity.
Qed.

End TaskNameFacts.

Section TaskNameClaims.

Import Watcher.

Lemma readTasks_readable (files : list (string * string)) :
  readTasks (List.map (λ e, (fst e, Some (snd e))) files)
  = Some (List.map (λ e, taskRecord (fst e) (snd e)) files).
Proof.
  induction files as [|[f c] files IH]; simpl; [reflexivity|].
  by rewrite IH.
Qed.

Lemma filter_map_readable (files : list (string * string)) :
  List.filter (λ e : string * option string, not_gitkeep (fst e))
    (List.map (λ e, (fst e, Some (snd e))) files)
  = List.map (λ e, (fst e, Some (snd e)))
      (List.filter (λ e : string * string, not_gitkeep (fst e)) files).
Proof.
  induction files as [|[f c] files IH]; simpl; [reflexivity|].
  destruct (not_gitkeep f); simpl; by rewrite IH.
Qed.

(** C3.  A tick always ends by publishing its snapshot.  When the files
    of current_tasks/ can be read, the snapshot's task records are the
    records of the files other than .gitkeep, in listing order.  The
    record of a file carries the file's name and its content, trimmed of
    white space as JavaScript trims it; if the name contains no
    [agent-<digits>-<digits>] its agentId is "unknown" and its timestamp
    0; if it does, they are the two digit runs of such an occurrence,
    and for a name that is exactly [agent-<id>-<millis>] the agentId is
    [<id>] and the timestamp the number [<millis>] denotes.  The
    timestamp is stated where [<millis>] is below 2^53, as every count
    of epoch milliseconds is: there the JavaScript number is exact. *)
Theorem task_names_degrade wd (w : RepoWatcher) :
  last (snd (poll wd w)) = Some (stateEvent (getState (fst (poll wd w))))
  ∧ (∀ files,
       dir_current_tasks wd = Some (List.map (λ e, (fst e, Some (snd e))) files) →
       currentTasks (getState (fst (poll wd w)))
       = List.map (λ e, taskRecord (fst e) (snd e))
           (List.filter (λ e, not_gitkeep (fst e)) files))
  ∧ (∀ f content,
       file (taskRecord f content) = f
       ∧ description (taskRecord f content) = JS.trim_unicode content
       ∧ (¬ has_task_pattern f →
          agentId (taskRecord f content) = "unknown"
          ∧ timestamp (taskRecord f content) = JS.Num 0)
       ∧ (has_task_pattern f →
          ∃ pre i ts post,
            f = pre +:+ "agent-" +:+ i +:+ "-" +:+ ts +:+ post
            ∧ digit_run i ∧ digit_run ts
            ∧ agentId (taskRecord f content) = i
            ∧ (JS.digits_value ts < 2 ^ 53 →
               timestamp (taskRecord f content) = JS.Num (JS.digits_value ts)))
       ∧ (∀ i ts,
            f = "agent-" +:+ i +:+ "-" +:+ ts →
            digit_run i → digit_run ts → JS.digits_value ts < 2 ^ 53 →
            agentId (taskRecord f content) = i
            ∧ timestamp (taskRecord f content) = JS.Num (JS.digits_value ts))).
Proof.
  split; [|split].
  - rewrite poll_events. apply last_snoc.
  - intros files Hdir. unfold getState.
    rewrite poll_currentTasks. unfold tasks_of.
    rewrite Hdir, filter_map_readable, readTasks_readable. reflexivity.
  - intros f content. split; [reflexivity|]. split; [reflexivity|].
    split; [|split].
    + intros Hno. apply match_task_name_None in Hno.
      unfold taskRecord. rewrite Hno. by split.
    + intros Hyes. unfold taskRecord.
      destruct (match_task_name f) as [[i ts]|] eqn:Hm.
      * destruct (match_task_name_Some f i ts Hm) as (pre & post & Hf & Hi & Hts).
        exists pre, i, ts, post. simpl.
        repeat split; try assumption; try apply Hi; try apply Hts.
        intros _. by apply parseInt10_digit_run.
      * by apply match_task_name_None in Hm.
    + intros i ts -> Hi Hts _. unfold taskRecord.
      rewrite (match_task_name_exact i ts Hi Hts). simpl.
      split; [reflexivity|]. by apply parseInt10_digit_run.
Qed.

Lemma task_names_degrade_witness :
  currentTasks (getState (fst (poll Samples.messy_world (new_RepoWatcher "/work"))))
  = [ {| file := "agent-2-1700000000000"; agentId := "2";
         timestamp := JS.Num 1700000000000;
         description := "implement scoring" |};
      {| file := "notes.txt"; agentId := "unknown";
         timestamp := JS.Num 0; description := "scratch" |} ]
  ∧ (agentId (taskRecord "agent-2-1700000000000" "implement scoring") = "2"
     ∧ timestamp (taskRecord "agent-2-1700000000000" "implement scoring")
       = JS.Num 1700000000000)
  ∧ (agentId (taskRecord "notes.txt" "scratch") = "unknown"
     ∧ timestamp (taskRecord "notes.txt" "scratch") = JS.Num 0)
  ∧ description (taskRecord "notes.txt" Samples.marked_note) = "scratch".
Proof.
  pose proof (task_names_degrade Samples.messy_world (new_RepoWatcher "/work"))
    as (_ & Hlist & Hrec).
  split; [|split; [|split]].
  - rewrite (Hlist Samples.messy_files eq_refl). reflexivity.
  - destruct (Hrec "agent-2-1700000000000" "implement scoring")
      as (_ & _ & _ & _ & Hmatch).
    apply (Hmatch "2" "1700000000000").
    + reflexivity.
    + split; reflexivity.
    + split; reflexivity.
    + vm_compute. reflexivity.
  - destruct (Hrec "notes.txt" "scratch") as (_ & _ & Hnone & _ & _).
    apply Hnone. apply match_task_name_None. reflexivity.
  - destruct (Hrec "notes.txt" Samples.marked_note) as (_ & -> & _).
    reflexivity.
Defined.

End TaskNameClaims.

(* ===================================================================== *)
(** * The watcher: reading the commit log *)
(* ===================================================================== *)

Section LogFacts.

Import Watcher.

#[local] Arguments String.append !s1 s2 : simpl nomatch.

Lemma split_nonempty (sep : ascii) (s : string) : JS.split sep s ≠ [].
Proof.
  destruct s as [|c s]; simpl; [discriminate|].
  destruct (Ascii.eqb c sep); [discriminate|].
  destruct (JS.split sep s); discriminate.
Qed.

(** A prefix without the separator stays in the first piece. *)
Lemma split_app (sep : ascii) (p r : string) :
  no_char sep p = true →
  JS.split sep (p +:+ r)
  = match JS.split sep r with
    | w :: ws => (p +:+ w) :: ws
    | [] => [p]
    end.
Proof.
  pose proof (split_nonempty sep r) as Hne.
  induction p as [|c p IH]; simpl; intros H.
  - by destruct (JS.split sep r).
  - apply andb_prop in H as [Hc Hp]. apply negb_true_iff in Hc.
    rewrite Hc, (IH Hp). by destruct (JS.split sep r).
Qed.

Lemma split_at_sep (sep : ascii) (p r : string) :
  no_char sep p = true →
  JS.split sep (p +:+ String sep r) = p :: JS.split sep r.
Proof.
  intros H. rewrite (split_app _ _ _ H). simpl.
  rewrite Ascii.eqb_refl. by rewrite append_empty_r.
Qed.

Lemma split_no_sep (sep : ascii) (p : string) :
  no_char sep p = true → JS.split sep p = [p].
Proof.
  intros H. rewrite <- (append_empty_r p) at 1.
  rewrite (split_app _ _ _ H). simpl. by rewrite append_empty_r.
Qed.

Lemma no_char_app (x : ascii) (a b : string) :
  no_char x (a +:+ b) = no_char x a && no_char x b.
Proof.
  induction a as [|c a IH]; simpl; [reflexivity|].
  by rewrite IH, andb_assoc.
Qed.

Lemma no_space_no_LF (s : string) : no_space s = true → no_char LF s = true.
Proof.
  induction s as [|c s IH]; simpl; [reflexivity|].
  intros H. apply andb_prop in H as [Hc Hs]. rewrite (IH Hs), andb_true_r.
  apply negb_true_iff. apply negb_true_iff in Hc.
  destruct (Ascii.eqb_spec c LF) as [->|]; [discriminate|reflexivity].
Qed.

Lemma trimStart_id (s : string) :
  JS.truthy s = true → no_space s = true → ∀ r, JS.trimStart (s +:+ r) = s +:+ r.
Proof.
  destruct s as [|c s]; [discriminate|]. simpl. intros _ H r.
  apply andb_prop in H as [Hc _]. apply negb_true_iff in Hc. by rewrite Hc.
Qed.

(** [trimEnd] only touches what follows the last non-blank character. *)
Lemma trimEnd_app_r (p r : string) :
  JS.trimEnd r ≠ "" → JS.trimEnd (p +:+ r) = p +:+ JS.trimEnd r.
Proof.
  intros Hr. induction p as [|c p IH]; simpl; [reflexivity|].
  rewrite IH. destruct (p +:+ JS.trimEnd r) eqn:He; [|reflexivity].
  destruct p; simpl in He; [congruence|discriminate].
Qed.

Lemma trimEnd_app_l (p r : string) :
  JS.trimEnd r = "" → JS.trimEnd (p +:+ r) = JS.trimEnd p.
Proof.
  intros Hr. induction p as [|c p IH]; simpl; [assumption|].
  by rewrite IH.
Qed.

Lemma trimEnd_nonblank (c : ascii) (r : string) :
  JS.is_space c = false → ∃ r', JS.trimEnd (String c r) = String c r'.
Proof.
  intros Hc. simpl. destruct (JS.trimEnd r); [rewrite Hc|]; eauto.
Qed.

(** A log output that starts with a hash and a bar still does after
    [trim]. *)
Lemma trim_keeps_hash (h rest : string) :
  hash_like h →
  ∃ rest', JS.trim (h +:+ String BAR rest) = h +:+ String BAR rest'.
Proof.
  intros (Ht & Hs & _). unfold JS.trim.
  rewrite (trimStart_id h Ht Hs).
  destruct (trimEnd_nonblank BAR rest eq_refl) as [r' Hr'].
  exists r'. rewrite trimEnd_app_r; rewrite Hr'; [reflexivity|discriminate].
Qed.

Lemma parse_line_hash (h r : string) :
  no_char BAR h = true → hash (parse_line (h +:+ String BAR r)) = Some h.
Proof.
  intros H. unfold parse_line. by rewrite (split_at_sep _ _ _ H).
Qed.

(** The first commit read from a log that starts with a hash and a bar
    carries that hash. *)
Lemma parse_log_head (h rest : string) :
  hash_like h →
  ∃ c, head (parse_log (h +:+ String BAR rest)) = Some c ∧ hash c = Some h.
Proof.
  intros (Ht & Hs & Hb). unfold parse_log.
  rewrite (split_app LF h _ (no_space_no_LF _ Hs)). simpl.
  change (Ascii.eqb BAR LF) with false. cbn iota.
  destruct (JS.split LF rest) as [|w ws] eqn:Hsp;
    [by apply split_nonempty in Hsp|].
  simpl. rewrite (truthy_append h _ Ht). simpl.
  eexists. split; [reflexivity|]. by apply parse_line_hash.
Qed.

Lemma parse_log_cons (l r : string) :
  no_char LF l = true → JS.truthy l = true →
  parse_log (l +:+ String LF r) = parse_line l :: parse_log r.
Proof.
  intros Hl Ht. unfold parse_log.
  rewrite (split_at_sep _ _ _ Hl). simpl. by rewrite Ht.
Qed.

Lemma parse_log_single (l : string) :
  no_char LF l = true → JS.truthy l = true → parse_log l = [parse_line l].
Proof.
  intros Hl Ht. unfold parse_log.
  rewrite (split_no_sep _ _ Hl). simpl. by rewrite Ht.
Qed.

End LogFacts.

Section NewCommitClaims.

Import Watcher.

#[local] Arguments String.append !s1 s2 : simpl nomatch.

Lemma poll_lastCommitHash wd (w : RepoWatcher) :
  lastCommitHash (fst (poll wd w)) = lastCommitHash (fst (updateCommits wd w)).
Proof. poll_field. Qed.

Lemma poll_newCommits wd (w : RepoWatcher) :
  List.filter is_newCommit (snd (poll wd w))
  = List.filter is_newCommit (snd (updateCommits wd w)).
Proof.
  rewrite poll_events, List.filter_app. simpl. by rewrite app_nil_r.
Qed.

Lemma updateCommits_no_log wd (w : RepoWatcher) :
  execGit (git_log wd) = "" → updateCommits wd w = (w, []).
Proof. intros H. unfold updateCommits. by rewrite H. Qed.

(** What [updateCommits] does with a log whose first line starts with
    the hash [h]. *)
Lemma updateCommits_head wd (w : RepoWatcher) (h rest : string) :
  git_log wd = Some (h +:+ String BAR rest) → hash_like h →
  ∃ c, head (commits (state (fst (updateCommits wd w)))) = Some c
       ∧ hash c = Some h
       ∧ lastCommitHash (fst (updateCommits wd w)) = Some h
       ∧ snd (updateCommits wd w)
         = if bool_decide (lastCommitHash w = Some h) then [] else [newCommit c].
Proof.
  intros Hlog Hh. unfold updateCommits. rewrite Hlog. unfold execGit.
  destruct (trim_keeps_hash h rest Hh) as [rest' ->].
  destruct Hh as (Ht & Hs & Hb).
  rewrite (truthy_append h _ Ht). simpl negb. cbn iota.
  destruct (parse_log_head h rest' (conj Ht (conj Hs Hb))) as (c & Hhead & Hc).
  rewrite Hhead. simpl. rewrite Hc. simpl. rewrite Ht. simpl.
  exists c. destruct (bool_decide (lastCommitHash w = Some h)) eqn:Hd; simpl.
  - apply bool_decide_eq_true in Hd. repeat split; assumption.
  - repeat split; assumption.
Qed.

(** C5.  The last observed head hash starts unset.  On a tick whose log
    output begins with the head hash [h], a newCommit event is emitted
    exactly when [h] differs from the last observed head hash; it is the
    only one, it carries the first (newest) commit of the snapshot, and
    [h] becomes the last observed hash.  A tick that sees no log emits no
    newCommit event and keeps the last observed hash. *)
Theorem newCommit_iff_head_changed wd (w : RepoWatcher) :
  (∀ path, lastCommitHash (new_RepoWatcher path) = None)
  ∧ (execGit (git_log wd) = "" →
     List.filter is_newCommit (snd (poll wd w)) = []
     ∧ lastCommitHash (fst (poll wd w)) = lastCommitHash w)
  ∧ (∀ h rest,
       git_log wd = Some (h +:+ String BAR rest) → hash_like h →
       lastCommitHash (fst (poll wd w)) = Some h
       ∧ ∃ c, head (commits (getState (fst (poll wd w)))) = Some c
              ∧ hash c = Some h
              ∧ (lastCommitHash w ≠ Some h →
                 List.filter is_newCommit (snd (poll wd w)) = [newCommit c])
              ∧ (lastCommitHash w = Some h →
                 List.filter is_newCommit (snd (poll wd w)) = [])).
Proof.
  split; [reflexivity|]. split.
  - intros Hno. rewrite poll_newCommits, poll_lastCommitHash.
    rewrite (updateCommits_no_log wd w Hno). by split.
  - intros h rest Hlog Hh.
    destruct (updateCommits_head wd w h rest Hlog Hh) as (c & Hhead & Hc & Hlast & Hev).
    rewrite poll_lastCommitHash, poll_newCommits. unfold getState.
    rewrite poll_commits. split; [assumption|].
    exists c. repeat split; try assumption.
    + intros Hne. rewrite Hev, bool_decide_eq_false_2 by assumption. reflexivity.
    + intros Heq. rewrite Hev, bool_decide_eq_true_2 by assumption. reflexivity.
Qed.

Lemma newCommit_iff_head_changed_witness :
  (∃ c, List.filter is_newCommit
          (snd (poll Samples.quiet_world (new_RepoWatcher "/work")))
        = [newCommit c] ∧ hash c = Some "3f2a9c")
  ∧ List.filter is_newCommit
      (snd (poll Samples.quiet_world
              (fst (poll Samples.quiet_world (new_RepoWatcher "/work")))))
    = [].
Proof.
  split.
  - destruct (proj2 (proj2 (newCommit_iff_head_changed Samples.quiet_world
                              (new_RepoWatcher "/work")))
                "3f2a9c" "agent-1|작업 완료: scoring|2 minutes ago" eq_refl)
      as (_ & c & _ & Hc & Hnew & _).
    + repeat split.
    + exists c. split; [|exact Hc]. apply Hnew. discriminate.
  - destruct (proj2 (proj2 (newCommit_iff_head_changed Samples.quiet_world
                              (fst (poll Samples.quiet_world
                                      (new_RepoWatcher "/work")))))
                "3f2a9c" "agent-1|작업 완료: scoring|2 minutes ago" eq_refl)
      as (_ & c & _ & _ & _ & Hsame).
    + repeat split.
    + apply Hsame. reflexivity.
Defined.

End NewCommitClaims.

Section GitLogFacts.

Import Watcher.

#[local] Arguments String.append !s1 s2 : simpl nomatch.

Lemma well_formed_parts (c : GitCommit) :
  well_formed c = true →
  hash_like (g_hash c)
  ∧ no_char LF (g_author c) = true
  ∧ no_char LF (g_subject c) = true
  ∧ no_char LF (g_reldate c) = true
  ∧ JS.truthy (g_reldate c) = true
  ∧ JS.trimEnd (g_reldate c) = g_reldate c.
Proof.
  unfold well_formed, hash_like. rewrite !andb_true_iff, String.eqb_eq.
  tauto.
Qed.

Lemma format_commit_no_LF (c : GitCommit) :
  well_formed c = true → no_char LF (format_commit c) = true.
Proof.
  intros H. apply well_formed_parts in H as ((_ & Hs & _) & Ha & Hm & Hr & _).
  unfold format_commit.
  rewrite no_char_app, (no_space_no_LF _ Hs). simpl.
  rewrite no_char_app, Ha. simpl.
  rewrite no_char_app, Hm. simpl. assumption.
Qed.

Lemma format_commit_truthy (c : GitCommit) :
  well_formed c = true → JS.truthy (format_commit c) = true.
Proof.
  intros H. apply well_formed_parts in H as ((Ht & _) & _).
  unfold format_commit. by apply truthy_append.
Qed.

Lemma trimEnd_cons_fixed (x : ascii) (r : string) :
  JS.trimEnd r = r → r ≠ "" → JS.trimEnd (String x r) = String x r.
Proof. intros H Hne. simpl. rewrite H. by destruct r. Qed.

Lemma trimEnd_app_fixed (p r : string) :
  JS.trimEnd r = r → r ≠ "" → JS.trimEnd (p +:+ r) = p +:+ r.
Proof. intros H Hne. rewrite trimEnd_app_r; by rewrite H. Qed.

Lemma format_commit_trimEnd (c : GitCommit) :
  well_formed c = true → JS.trimEnd (format_commit c) = format_commit c.
Proof.
  intros H. apply well_formed_parts in H as (_ & _ & _ & _ & Ht & Hfix).
  apply truthy_true in Ht. unfold format_commit.
  apply trimEnd_app_fixed; [|discriminate].
  apply trimEnd_cons_fixed; [|by destruct (g_author c)].
  apply trimEnd_app_fixed; [|discriminate].
  apply trimEnd_cons_fixed; [|by destruct (g_subject c)].
  apply trimEnd_app_fixed; [|discriminate].
  by apply trimEnd_cons_fixed.
Qed.

Lemma join_lines_truthy (c : GitCommit) (cs : list GitCommit) :
  well_formed c = true → JS.truthy (join_lines (c :: cs)) = true.
Proof.
  intros H. pose proof (format_commit_truthy c H) as Ht.
  destruct cs; simpl; [assumption|]. by apply truthy_append.
Qed.

(** Trimming the end of git's output removes exactly the final line
    feed. *)
Lemma trimEnd_format_lines (c : GitCommit) (cs : list GitCommit) :
  Forall (λ c, well_formed c = true) (c :: cs) →
  JS.trimEnd (format_lines (c :: cs)) = join_lines (c :: cs).
Proof.
  revert c. induction cs as [|c' cs IH]; intros c Hwf.
  - apply Forall_cons in Hwf as [Hc _]. cbn [format_lines join_lines].
    rewrite trimEnd_app_l by reflexivity. by apply format_commit_trimEnd.
  - apply Forall_cons in Hwf as [Hc Hrest].
    change (format_lines (c :: c' :: cs))
      with (format_commit c +:+ String LF (format_lines (c' :: cs))).
    change (join_lines (c :: c' :: cs))
      with (format_commit c +:+ String LF (join_lines (c' :: cs))).
    pose proof (IH c' Hrest) as Hin.
    assert (Hne : join_lines (c' :: cs) ≠ "").
    { apply truthy_true, join_lines_truthy.
      by apply Forall_cons in Hrest as [? _]. }
    assert (Hstep : JS.trimEnd (String LF (format_lines (c' :: cs)))
                    = String LF (join_lines (c' :: cs))).
    { cbn [JS.trimEnd]. rewrite Hin. by destruct (join_lines (c' :: cs)). }
    rewrite trimEnd_app_r; rewrite Hstep; [reflexivity|discriminate].
Qed.

Lemma format_lines_starts (c : GitCommit) (cs : list GitCommit) :
  ∃ r, format_lines (c :: cs) = g_hash c +:+ r.
Proof.
  simpl. unfold format_commit. rewrite append_assoc. eauto.
Qed.

Lemma trim_format_lines (c : GitCommit) (cs : list GitCommit) :
  Forall (λ c, well_formed c = true) (c :: cs) →
  JS.trim (format_lines (c :: cs)) = join_lines (c :: cs).
Proof.
  intros Hwf. unfold JS.trim.
  destruct (format_lines_starts c cs) as [r Hr].
  pose proof Hwf as Hwf'. apply Forall_cons in Hwf' as [Hc _].
  apply well_formed_parts in Hc as ((Ht & Hs & _) & _).
  rewrite Hr, (trimStart_id _ Ht Hs), <- Hr.
  by apply trimEnd_format_lines.
Qed.

Lemma parse_line_format (c : GitCommit) :
  well_formed c = true → hash (parse_line (format_commit c)) = Some (g_hash c).
Proof.
  intros H. apply well_formed_parts in H as ((_ & _ & Hb) & _).
  by apply parse_line_hash.
Qed.

(** Reading git's lines back: one commit per line, in git's order, each
    with its line's hash. *)
Lemma parse_log_join_lines (cs : list GitCommit) :
  Forall (λ c, well_formed c = true) cs →
  hash <$> parse_log (join_lines cs) = (λ c, Some (g_hash c)) <$> cs.
Proof.
  induction cs as [|c cs IH]; intros Hwf; [reflexivity|].
  apply Forall_cons in Hwf as [Hc Hrest].
  destruct cs as [|c' cs].
  - cbn [join_lines].
    rewrite (parse_log_single _ (format_commit_no_LF c Hc)
               (format_commit_truthy c Hc)).
    rewrite !fmap_cons, (parse_line_format c Hc). reflexivity.
  - change (join_lines (c :: c' :: cs))
      with (format_commit c +:+ String LF (join_lines (c' :: cs))).
    rewrite (parse_log_cons _ _ (format_commit_no_LF c Hc)
               (format_commit_truthy c Hc)).
    rewrite fmap_cons, (parse_line_format c Hc), (IH Hrest). reflexivity.
Qed.

Lemma Forall_take_wf (n : nat) (history : list GitCommit) :
  Forall (λ c, well_formed c = true) history →
  Forall (λ c, well_formed c = true) (take n history).
Proof. apply Forall_take. Qed.

Lemma updateCommits_commits wd (w : RepoWatcher) :
  commits (state (fst (updateCommits wd w)))
  = if JS.truthy (execGit (git_log wd)) then parse_log (execGit (git_log wd))
    else commits (state w).
Proof.
  unfold updateCommits.
  destruct (JS.truthy (execGit (git_log wd))); [|reflexivity].
  cbn [negb].
  destruct (head (parse_log (execGit (git_log wd))));
    [destruct (head_changed _ _)|]; reflexivity.
Qed.

(** What [updateCommits] stores when git answers for a history. *)
Lemma updateCommits_git wd (w : RepoWatcher) (history : list GitCommit) :
  Forall (λ c, well_formed c = true) history →
  git_log wd = Some (git_log_30 history) →
  commits (state (fst (updateCommits wd w)))
  = match history with
    | [] => commits (state w)
    | _ => parse_log (join_lines (take 30 history))
    end
  ∧ (history ≠ [] →
     hash <$> commits (state (fst (updateCommits wd w)))
     = (λ c, Some (g_hash c)) <$> take 30 history).
Proof.
  intros Hwf Hlog. rewrite updateCommits_commits, Hlog.
  unfold execGit, git_log_30.
  destruct history as [|c history]; [by split|].
  pose proof (Forall_take_wf 30 _ Hwf) as Hwf30.
  change (take 30 (c :: history)) with (c :: take 29 history) in *.
  rewrite (trim_format_lines _ _ Hwf30).
  assert (Hc : well_formed c = true) by (by apply Forall_cons in Hwf as [? _]).
  rewrite (join_lines_truthy c _ Hc).
  split; [reflexivity|]. intros _. by apply parse_log_join_lines.
Qed.

End GitLogFacts.

Section SnapshotClaims.

Import Watcher.

Lemma updateCommits_emits wd (w : RepoWatcher) (e : Event) :
  e ∈ snd (updateCommits wd w) → is_newCommit e = true.
Proof.
  unfold updateCommits.
  destruct (negb (JS.truthy (execGit (git_log wd)))); simpl.
  - intros H. by apply not_elem_of_nil in H.
  - destruct (head (parse_log (execGit (git_log wd)))) as [c0|]; simpl.
    + destruct (head_changed _ _); simpl; intros H.
      * apply list_elem_of_singleton in H as ->. reflexivity.
      * by apply not_elem_of_nil in H.
    + intros H. by apply not_elem_of_nil in H.
Qed.

Lemma poll_commits_bound wd (w : RepoWatcher) :
  git_sound wd →
  (length (commits (state w)) ≤ 30)%nat →
  (length (commits (state (fst (poll wd w)))) ≤ 30)%nat.
Proof.
  intros Hsound Hb. rewrite poll_commits.
  destruct Hsound as [Hnone|(history & Hwf & Hlog)].
  - change (git wd LOG_COMMAND) with (git_log wd) in Hnone.
    rewrite updateCommits_commits, Hnone. assumption.
  - change (git wd LOG_COMMAND) with (git_log wd) in Hlog.
    change (git_log_answer history LOG_COMMAND)
      with (Some (git_log_30 history)) in Hlog.
    destruct (updateCommits_git wd w history Hwf Hlog) as [Heq Hhash].
    destruct history as [|c history]; [by rewrite Heq|].
    assert (Hlen : length (hash <$> commits (state (fst (updateCommits wd w))))
                   = length ((λ c, Some (g_hash c)) <$> take 30 (c :: history)))
      by (by rewrite Hhash).
    rewrite !length_fmap in Hlen. rewrite Hlen, length_take. lia.
Qed.

Lemma polls_commits_bound (wds : list World) (w : RepoWatcher) :
  Forall git_sound wds →
  (length (commits (state w)) ≤ 30)%nat →
  ∀ snap, stateEvent snap ∈ snd (polls wds w) →
          (length (commits snap) ≤ 30)%nat.
Proof.
  revert w. induction wds as [|wd wds IH]; intros w Hs Hb snap Hin; simpl in Hin.
  - by apply not_elem_of_nil in Hin.
  - apply Forall_cons in Hs as [Hwd Hrest].
    pose proof (poll_commits_bound wd w Hwd Hb) as Hb1.
    pose proof (poll_events wd w) as Hev.
    specialize (IH (fst (poll wd w)) Hrest Hb1 snap).
    destruct (poll wd w) as [w1 e1]. simpl in *.
    destruct (polls wds w1) as [w2 e2]. simpl in *.
    apply elem_of_app in Hin as [Hin|Hin]; [|by apply IH].
    rewrite Hev in Hin. apply elem_of_app in Hin as [Hin|Hin].
    + apply updateCommits_emits in Hin. discriminate.
    + apply list_elem_of_singleton in Hin. injection Hin as ->. exact Hb1.
Qed.

Lemma poll_completedTaskCount wd (w : RepoWatcher) :
  completedTaskCount (state (fst (poll wd w)))
  = match dir_completed_tasks wd with
    | Some listing => Z.of_nat (length (List.filter not_gitkeep listing))
    | None => 0
    end.
Proof. poll_field. Qed.

Lemma filter_not_gitkeep (listing : list string) :
  List.filter not_gitkeep listing = filter (λ f, f ≠ ".gitkeep") listing.
Proof.
  induction listing as [|f l IH]; [reflexivity|].
  cbn [List.filter]. rewrite filter_cons, <- IH. unfold not_gitkeep at 1.
  destruct (String.eqb_spec f ".gitkeep") as [Heq|Hne];
    destruct (decide (f ≠ ".gitkeep")) as [Hd|Hd]; simpl;
    try reflexivity; contradiction.
Qed.

Lemma poll_totalLines wd (w : RepoWatcher) :
  totalLines (state (fst (poll wd w)))
  = default 0 (walkEntry (EDir "src" (src_tree wd))).
Proof. poll_field. Qed.

Lemma poll_totalCommits wd (w : RepoWatcher) :
  totalCommits (state (fst (poll wd w)))
  = totalCommits (state (fst (updateCommits wd w))).
Proof. poll_field. Qed.

Lemma poll_specModules wd (w : RepoWatcher) :
  specModules (state (fst (poll wd w)))
  = match spec_headings wd with
    | Some hs =>
        List.map (λ h, {| name := JS.trim_unicode h;
                          module_status := "pending" |}) hs
    | None => []
    end.
Proof. poll_field. Qed.

(** C7.  Every tick ends by publishing the watcher's state, whose seven
    fields are the ones the tick has just computed: agents from the
    task records and the commit window, commits and totalCommits from
    git, currentTasks and completedTaskCount from the two directories,
    totalLines from src/, specModules from SPEC.md.  The log command the
    watcher sends ends in -30: as long as git answers it as git answers
    that command, every snapshot published by a watcher since its
    construction has at most 30 commits, and after a tick on a non-empty
    history the list reads, in order, the hashes of the 30 newest
    commits from HEAD backwards.  completedTaskCount is the number of
    entries of completed_tasks/ other than .gitkeep (0 when the
    directory cannot be listed). *)
Theorem snapshot_shape (wds : list World) (path : string) :
  Forall git_sound wds →
  (∀ snap, stateEvent snap ∈ snd (polls wds (new_RepoWatcher path)) →
           (length (commits snap) ≤ 30)%nat)
  ∧ (∀ wd w,
       let snap := getState (fst (poll wd w)) in
       last (snd (poll wd w)) = Some (stateEvent snap)
       ∧ (agents snap = derive_agents (set_agents (agents (state w)) snap)
          ∧ commits snap = commits (state (fst (updateCommits wd w)))
          ∧ currentTasks snap = tasks_of wd
          ∧ totalLines snap = default 0 (walkEntry (EDir "src" (src_tree wd)))
          ∧ totalCommits snap = totalCommits (state (fst (updateCommits wd w)))
          ∧ specModules snap
            = match spec_headings wd with
              | Some hs =>
                  List.map (λ h, {| name := JS.trim_unicode h;
                                    module_status := "pending" |}) hs
              | None => []
              end)
       ∧ (∀ history,
            history ≠ [] → Forall (λ c, well_formed c = true) history →
            git wd LOG_COMMAND = git_log_answer history LOG_COMMAND →
            hash <$> commits snap = (λ c, Some (g_hash c)) <$> take 30 history)
       ∧ (∀ listing,
            dir_completed_tasks wd = Some listing →
            completedTaskCount snap
            = Z.of_nat (length (filter (λ f, f ≠ ".gitkeep") listing)))
       ∧ (dir_completed_tasks wd = None → completedTaskCount snap = 0)).
Proof.
  intros Hsound. split.
  - apply polls_commits_bound; [assumption|]. simpl. lia.
  - intros wd w snap. subst snap. unfold getState.
    split; [rewrite poll_events; apply last_snoc|].
    split; [|split; [|split]].
    + split; [apply poll_agents|]. split; [apply poll_commits|].
      split; [apply poll_currentTasks|]. split; [apply poll_totalLines|].
      split; [apply poll_totalCommits|apply poll_specModules].
    + intros history Hne Hwf Hlog. rewrite poll_commits.
      change (git wd LOG_COMMAND) with (git_log wd) in Hlog.
      change (git_log_answer history LOG_COMMAND)
        with (Some (git_log_30 history)) in Hlog.
      by apply (updateCommits_git wd w history Hwf Hlog).
    + intros listing Hdir.
      by rewrite poll_completedTaskCount, Hdir, filter_not_gitkeep.
    + intros Hdir. by rewrite poll_completedTaskCount, Hdir.
Qed.

Lemma snapshot_shape_witness :
  Forall git_sound [Samples.git_world; Samples.long_world]
  ∧ hash <$> commits (getState (fst (poll Samples.git_world
                                       (new_RepoWatcher "/work"))))
    = [Some "9b1d4e07"; Some "3f2a9c11"]
  ∧ completedTaskCount (getState (fst (poll Samples.git_world
                                         (new_RepoWatcher "/work")))) = 1
  ∧ length (commits (getState (fst (poll Samples.long_world
                                      (new_RepoWatcher "/work"))))) = 30%nat.
Proof.
  assert (Hwf : Forall (λ c, well_formed c = true) Samples.sample_history)
    by (repeat constructor).
  assert (Hall : forallb well_formed Samples.long_history = true)
    by (vm_compute; reflexivity).
  assert (Hlong : Forall (λ c, well_formed c = true) Samples.long_history)
    by (apply Forall_forall; intros c Hc;
        by apply (proj1 (forallb_forall _ _) Hall), list_elem_of_In).
  assert (Hsound : Forall git_sound [Samples.git_world; Samples.long_world]).
  { apply Forall_cons_2;
      [right; exists Samples.sample_history; by split|].
    apply Forall_cons_2;
      [right; exists Samples.long_history; by split|].
    apply Forall_nil_2. }
  split; [exact Hsound|].
  destruct (proj2 (snapshot_shape [Samples.git_world; Samples.long_world]
                     "/work" Hsound)
              Samples.git_world (new_RepoWatcher "/work"))
    as (_ & _ & Horder & Hcount & _).
  split; [|split].
  - apply (Horder Samples.sample_history); [discriminate|exact Hwf|reflexivity].
  - apply (Hcount [".gitkeep"; "agent-1-1699999999000"]). reflexivity.
  - vm_compute. reflexivity.
Defined.

End SnapshotClaims.

(* ===================================================================== *)
(** * The worker's loop *)
(* ===================================================================== *)

Section AgentLoopFacts.

Import AgentLoop.

Lemma simple_ok (a : Answers) (c : Command) (s : Shell) :
  exit_status a c = 0 → simple a c s = Running (executed a c s).
Proof. intros H. unfold simple. by rewrite H. Qed.

(** One iteration, under answers whose unguarded commands succeed. *)
Section OneIteration.

Variable a : Answers.
Hypothesis Hok : unguarded_ok a.

Ltac unguarded c := rewrite (simple_ok a c) by (by apply Hok).

(** The conflict branch runs to its [continue]. *)
Lemma conflict_block_runs (s : Shell) :
  conflict_block a s
  = Running (executed a (Sleep 3)
               (executed a GitResetHard
                  (executed a GitRebaseAbort
                     (executed a (Log RebaseConflict) s)))).
Proof.
  unfold conflict_block. unguarded (Log RebaseConflict).
  simpl. by unguarded (Sleep 3).
Qed.

Lemma execute_block_runs (s : Shell) :
  ∃ s', execute_block a s = Running s'
    ∧ LOOP_COUNT s' = LOOP_COUNT s
    ∧ trace s' = (trace s ++ [Log Invoking; Claude; Log (ClaudeExited 0);
                              Sleep 5])%list.
Proof.
  unfold execute_block. unguarded (Log Invoking).
  simpl. unguarded (Log (ClaudeExited 0)).
  simpl. unguarded (Sleep 5).
  eexists. split; [reflexivity|]. split; [reflexivity|].
  simpl. by rewrite <- !app_assoc.
Qed.

Lemma iteration_unfold (s : Shell) :
  iteration a s
  = if exit_status a GitPullRebase =? 0 then execute_block a (synced a s)
    else conflict_block a (synced a s).
Proof.
  unfold iteration. unguarded (Log (Banner (LOOP_COUNT s + 1))).
  simpl. unguarded (Log Pulling).
  simpl. unguarded CdProject.
  reflexivity.
Qed.

Lemma iteration_runs (s : Shell) :
  ∃ s', iteration a s = Running s' ∧ LOOP_COUNT s' = LOOP_COUNT s + 1.
Proof.
  rewrite iteration_unfold.
  destruct (exit_status a GitPullRebase =? 0).
  - destruct (execute_block_runs (synced a s)) as (s' & -> & Hc & _).
    exists s'. split; [reflexivity|]. by rewrite Hc.
  - rewrite conflict_block_runs. eexists. split; reflexivity.
Qed.

End OneIteration.

Lemma loop_runs (answers : list Answers) (s : Shell) :
  Forall unguarded_ok answers →
  ∃ s', loop answers s = Running s'
        ∧ LOOP_COUNT s' = LOOP_COUNT s + Z.of_nat (length answers).
Proof.
  revert s. induction answers as [|a rest IH]; intros s Hok.
  - exists s. split; [reflexivity|]. simpl. lia.
  - apply Forall_cons in Hok as [Ha Hrest].
    destruct (iteration_runs a Ha s) as (s1 & H1 & Hc1).
    destruct (IH s1 Hrest) as (s2 & H2 & Hc2).
    exists s2. simpl. rewrite H1. simpl. split; [assumption|].
    rewrite Hc2, Hc1. simpl length. lia.
Qed.

(** C4, as the code has it.  As long as the commands the script leaves
    unguarded ([log], [cd], [sleep]) succeed, the loop never exits: any
    number of iterations leaves it running, whatever git and the executor
    return.  In an iteration whose rebase fails, the commands run are the
    sync commands, the conflict log line, [git rebase --abort],
    [git reset --hard origin/main] and [sleep 3], in this order, and the
    loop goes on with the next iteration; when the reset succeeds the
    local branch equals origin/main, and when the abort succeeds no rebase
    is left in progress. *)
Theorem conflict_resets_and_retries (answers : list Answers) (a : Answers)
    (s : Shell) :
  Forall unguarded_ok answers → unguarded_ok a →
  (∃ s', loop answers s = Running s')
  ∧ (exit_status a GitPullRebase ≠ 0 →
     ∃ s', iteration a s = Running s'
       ∧ loop (a :: answers) s = loop answers s'
       ∧ trace s'
         = (trace s ++ [ Log (Banner (LOOP_COUNT s + 1)); Log Pulling;
                         CdProject; GitFetch; GitPullRebase;
                         Log RebaseConflict; GitRebaseAbort; GitResetHard;
                         Sleep 3 ])%list
       ∧ (exit_status a GitResetHard = 0 →
          local_branch (repo s') = origin_main (repo s'))
       ∧ (exit_status a GitRebaseAbort = 0 →
          rebase_in_progress (repo s') = false)).
Proof.
  intros Hall Ha. split.
  - destruct (loop_runs answers s Hall) as (s' & Hs' & _). by exists s'.
  - intros Hfail. apply Z.eqb_neq in Hfail.
    pose proof (iteration_unfold a Ha s) as Hit. rewrite Hfail in Hit.
    rewrite (conflict_block_runs a Ha) in Hit.
    eexists. split; [exact Hit|]. split; [simpl; by rewrite Hit|].
    split; [simpl; by rewrite <- !app_assoc|]. split.
    + intros Hreset. simpl. rewrite Hreset. reflexivity.
    + intros Habort. simpl. rewrite Habort.
      destruct (exit_status a GitResetHard =? 0); reflexivity.
Qed.

Lemma conflict_resets_and_retries_witness :
  unguarded_ok Samples.conflict_answers
  ∧ ∃ s', iteration Samples.conflict_answers (initial_shell Samples.stale_repo)
          = Running s'
          ∧ local_branch (repo s') = origin_main (repo s')
          ∧ local_branch (repo s') = 7%nat.
Proof.
  assert (Hok : unguarded_ok Samples.conflict_answers)
    by (intros c Hc; destruct c; try discriminate; reflexivity).
  split; [exact Hok|].
  destruct (proj2 (conflict_resets_and_retries [] Samples.conflict_answers
                     (initial_shell Samples.stale_repo) (Forall_nil_2 _) Hok))
    as (s' & Hrun & _ & _ & Hreset & _).
  - discriminate.
  - exists s'. split; [exact Hrun|]. split; [by apply Hreset|].
    assert (Hs' : Running s'
                  = iteration Samples.conflict_answers
                      (initial_shell Samples.stale_repo))
      by (by rewrite Hrun).
    vm_compute in Hs'. by injection Hs' as ->.
Defined.

(** C4 as worded fails.  When the rebase conflicts and the log file
    cannot be written, the script exits with status 1 right after the
    pull: nothing is aborted or reset.  When [cd /work/project] fails the
    script exits before syncing. *)
Lemma loop_exits_on_unguarded_failure :
  (∃ s', iteration Samples.conflict_log_unwritable
           (initial_shell Samples.stale_repo) = Exited 1 s'
         ∧ trace s' = [ Log (Banner 1); Log Pulling; CdProject; GitFetch;
                        GitPullRebase; Log RebaseConflict ]
         ∧ local_branch (repo s') ≠ origin_main (repo s'))
  ∧ (∃ s', iteration Samples.cd_fails (initial_shell Samples.stale_repo)
           = Exited 1 s'
           ∧ trace s' = [ Log (Banner 1); Log Pulling; CdProject ]).
Proof.
  split; eexists; (split; [reflexivity|]); simpl; [split|]; try reflexivity.
  discriminate.
Qed.

End AgentLoopFacts.

(* ===================================================================== *)
(** * Further properties: sessions *)
(* ===================================================================== *)

Section SessionMore.

Import Session.

Lemma read_hex_byte (b : Byte.byte) (rest : string) :
  SessionId.read_byte (hex_byte b rest) = Some (b, rest).
Proof. destruct b; reflexivity. Qed.

Lemma hex_byte_all_hex (b : Byte.byte) (rest : string) :
  SessionId.all_hex (hex_byte b rest) = SessionId.all_hex rest.
Proof. destruct b; reflexivity. Qed.

(** X1.  A session id is eight lower-case hexadecimal digits, and it
    determines the four random bytes it was made from: reading the digits
    back gives the bytes, so two ids are equal only if the bytes are. *)
Theorem session_id_format (r r' : Bytes4) gameName n now :
  String.length (id (new_Session gameName n r now)) = 8%nat
  ∧ SessionId.all_hex (id (new_Session gameName n r now)) = true
  ∧ SessionId.fromHex (id (new_Session gameName n r now)) = Some r
  ∧ (id (new_Session gameName n r now) = id (new_Session gameName n r' now)
     → r = r').
Proof.
  assert (Hback : ∀ x : Bytes4, SessionId.fromHex (toHex x) = Some x).
  { intros [x0 x1 x2 x3]. unfold SessionId.fromHex, toHex. simpl b0.
    simpl b1. simpl b2. simpl b3.
    rewrite !read_hex_byte. reflexivity. }
  split; [reflexivity|]. split; [|split].
  - change (id (new_Session gameName n r now)) with (toHex r).
    unfold toHex. by rewrite !hex_byte_all_hex.
  - apply Hback.
  - change (toHex r = toHex r' → r = r'). intros Heq.
    pose proof (Hback r) as H1. rewrite Heq, Hback in H1. congruence.
Qed.

Lemma stop_lookup (k : option string) (m : SessionManager) (i : string) :
  sessions (snd (stop k m)) !! i
  = if decide (stop_key k m = Some i)
    then setStatus STOPPED <$> sessions m !! i
    else sessions m !! i.
Proof.
  unfold stop. destruct (stop_key k m) as [key|] eqn:Hk.
  - destruct (sessions m !! key) as [s|] eqn:Hs; simpl.
    + destruct (decide (Some key = Some i)) as [[= ->]|Hne].
      * by rewrite lookup_insert_eq, Hs.
      * rewrite lookup_insert_ne by congruence. reflexivity.
    + destruct (decide (Some key = Some i)) as [[= ->]|Hne];
        [by rewrite Hs|reflexivity].
  - destruct (decide (None = Some i)); [discriminate|reflexivity].
Qed.

(** X2.  [stop] never removes a session and never changes which id is
    active: afterwards every id has a session exactly when it had one
    before, and each session is as it was except that the one looked up
    has status 'stopped'.  When nothing is found the manager is
    unchanged.  Stopping the active session makes [getActive] answer
    null; stopping any other leaves [getActive] as it was. *)
Theorem stop_effect (k : option string) (m : SessionManager) :
  let m' := snd (stop k m) in
  activeSessionId m' = activeSessionId m
  ∧ (∀ i, sessions m' !! i
          = if decide (stop_key k m = Some i)
            then setStatus STOPPED <$> sessions m !! i
            else sessions m !! i)
  ∧ (fst (stop k m) = None → m' = m)
  ∧ (∀ s, fst (stop k m) = Some s → status s = STOPPED)
  ∧ (stop_key k m = activeSessionId m → getActive m' = None)
  ∧ (stop_key k m ≠ activeSessionId m → getActive m' = getActive m).
Proof.
  intros m'. subst m'.
  assert (Hact : activeSessionId (snd (stop k m)) = activeSessionId m).
  { unfold stop. destruct (stop_key k m) as [key|]; [|reflexivity].
    destruct (sessions m !! key); reflexivity. }
  split; [exact Hact|]. split; [apply stop_lookup|]. split; [|split; [|split]].
  - unfold stop. destruct (stop_key k m) as [key|]; [|reflexivity].
    destruct (sessions m !! key); [discriminate|reflexivity].
  - unfold stop. destruct (stop_key k m) as [key|]; [|discriminate].
    destruct (sessions m !! key) as [s0|]; [|discriminate].
    intros s [= <-]. reflexivity.
  - intros Hkey. unfold getActive. rewrite Hact.
    destruct (activeSessionId m) as [aid|]; [|reflexivity].
    destruct (JS.truthy aid); [|reflexivity].
    rewrite stop_lookup, decide_True by assumption.
    destruct (sessions m !! aid); reflexivity.
  - intros Hkey. unfold getActive. rewrite Hact.
    destruct (activeSessionId m) as [aid|]; [|reflexivity].
    destruct (JS.truthy aid); [|reflexivity].
    rewrite stop_lookup, decide_False by assumption. reflexivity.
Qed.

Lemma stop_effect_witness :
  let m := snd (create "tetris" (JS.Num 3) Samples.sample_bytes 0
                  new_SessionManager) in
  getActive (snd (stop (Some "1fa0007c") m)) = None
  ∧ getActive (snd (stop (Some "deadbeef") m)) = getActive m.
Proof.
  split.
  - apply (stop_effect (Some "1fa0007c")). reflexivity.
  - apply (stop_effect (Some "deadbeef")). discriminate.
Defined.

Lemma stop_key_active (k : option string) (m : SessionManager) :
  k = None ∨ k = activeSessionId m → stop_key k m = activeSessionId m.
Proof.
  intros [->| ->]; [reflexivity|]. unfold stop_key.
  destruct (activeSessionId m) as [i|]; [|reflexivity].
  destruct (JS.truthy i); reflexivity.
Qed.

Lemma stop_active_none (k : option string) (m : SessionManager) :
  stop_key k m = activeSessionId m → getActive (snd (stop k m)) = None.
Proof.
  intros Hkey.
  assert (Hact : activeSessionId (snd (stop k m)) = activeSessionId m).
  { unfold stop. destruct (stop_key k m) as [key|]; [|reflexivity].
    destruct (sessions m !! key); reflexivity. }
  unfold getActive. rewrite Hact.
  destruct (activeSessionId m) as [aid|]; [|reflexivity].
  destruct (JS.truthy aid); [|reflexivity].
  rewrite stop_lookup, decide_True by assumption.
  destruct (sessions m !! aid); reflexivity.
Qed.

(** X3.  Stopping the active session, whether [stop] is called with no
    id or with the id of the active session, and then calling [create]
    always succeeds: nothing is active after the stop, the new session
    is active after the create, and the stopped one can still be fetched
    by id, with status 'stopped', unless the new id happens to be the
    same. *)
Theorem stop_then_create (k : option string) (m : SessionManager)
    gameName n rnd now :
  k = None ∨ k = activeSessionId m →
  let m1 := snd (stop k m) in
  let m2 := snd (create gameName n rnd now m1) in
  getActive m1 = None
  ∧ fst (create gameName n rnd now m1) = Ok (new_Session gameName n rnd now)
  ∧ getActive m2 = Some (new_Session gameName n rnd now)
  ∧ (∀ i old, activeSessionId m = Some i → sessions m !! i = Some old →
              i ≠ toHex rnd →
              get i m2 = Some (setStatus STOPPED old)).
Proof.
  intros Hk m1 m2. subst m1 m2.
  pose proof (stop_key_active k m Hk) as Hkey.
  assert (Hnone : getActive (snd (stop k m)) = None)
    by (by apply stop_active_none).
  destruct (create_succeeds gameName n rnd now _ Hnone) as [Hok Hm2].
  split; [exact Hnone|]. split; [exact Hok|]. split.
  - rewrite Hm2. unfold getActive. simpl. by rewrite lookup_insert_eq.
  - intros i old Hact Hold Hne. rewrite Hm2. unfold get. simpl.
    rewrite lookup_insert_ne by congruence.
    rewrite stop_lookup, Hkey.
    rewrite decide_True by assumption. by rewrite Hold.
Qed.

Lemma stop_then_create_witness :
  let m := snd (create "tetris" (JS.Num 3) Samples.sample_bytes 0
                  new_SessionManager) in
  let fresh := {| b0 := Byte.x00; b1 := Byte.x01; b2 := Byte.x02;
                  b3 := Byte.x03 |} in
  (∃ old, get "1fa0007c"
            (snd (create "pong" (JS.Num 2) fresh 5 (snd (stop None m))))
          = Some old
          ∧ status old = STOPPED ∧ Session.gameName old = "tetris")
  ∧ (∃ old, get "1fa0007c"
              (snd (create "pong" (JS.Num 2) fresh 5
                      (snd (stop (Some "1fa0007c") m))))
            = Some old
            ∧ status old = STOPPED ∧ Session.gameName old = "tetris").
Proof.
  intros m fresh.
  assert (Hlook : sessions m !! "1fa0007c"
                  = Some (new_Session "tetris" (JS.Num 3)
                            Samples.sample_bytes 0))
    by (subst m; simpl; apply lookup_insert_eq).
  split.
  - eexists. split.
    + apply (stop_then_create None m "pong" (JS.Num 2) fresh 5).
      * by left.
      * reflexivity.
      * exact Hlook.
      * discriminate.
    + split; reflexivity.
  - eexists. split.
    + apply (stop_then_create (Some "1fa0007c") m "pong" (JS.Num 2) fresh 5).
      * by right.
      * reflexivity.
      * exact Hlook.
      * discriminate.
    + split; reflexivity.
Defined.

Lemma call_keeps_ids (m : SessionManager) (c : ManagerCall) (i : string) :
  is_Some (sessions m !! i) → is_Some (sessions (call m c) !! i).
Proof.
  intros [s Hs]. destruct c as [g n rnd now|k]; simpl.
  - unfold create. destruct (blocking m); simpl; [by exists s|].
    destruct (decide (toHex rnd = i)) as [<-|Hne].
    + rewrite lookup_insert_eq. eauto.
    + rewrite lookup_insert_ne by assumption. by exists s.
  - rewrite stop_lookup, Hs. destruct (decide _); simpl; eauto.
Qed.

(** X4.  The manager never forgets an id: through any sequence of
    [create] and [stop] calls an id that has a session keeps having one.
    A successful [create] stores the new session under its own id and
    leaves the session of every other id untouched; a failed one changes
    no entry. *)
Theorem sessions_only_grow (calls : list ManagerCall) (m : SessionManager) :
  (∀ i, is_Some (get i m) → is_Some (get i (foldl call m calls)))
  ∧ (∀ gameName n rnd now i,
       i ≠ toHex rnd →
       get i (snd (create gameName n rnd now m)) = get i m)
  ∧ (∀ gameName n rnd now s,
       fst (create gameName n rnd now m) = Ok s →
       get (id s) (snd (create gameName n rnd now m)) = Some s
       ∧ id s = toHex rnd).
Proof.
  split; [|split].
  - revert m. induction calls as [|c calls IH]; intros m i Hi; simpl;
      [assumption|].
    apply IH. unfold get in *. by apply call_keeps_ids.
  - intros g n rnd now i Hne. unfold get, create.
    destruct (blocking m); simpl; [reflexivity|].
    by rewrite lookup_insert_ne by congruence.
  - intros g n rnd now s. unfold get, create.
    destruct (blocking m); simpl; [discriminate|].
    intros [= <-]. split; [apply lookup_insert_eq|reflexivity].
Qed.

Lemma sessions_only_grow_witness :
  is_Some (get "1fa0007c"
             (foldl call new_SessionManager
                [ CallCreate "tetris" (JS.Num 3) Samples.sample_bytes 0;
                  CallStop None;
                  CallCreate "pong" (JS.Num 2)
                    {| b0 := Byte.x00; b1 := Byte.x01; b2 := Byte.x02;
                       b3 := Byte.x03 |} 5;
                  CallStop (Some "00010203") ])).
Proof.
  apply (proj1 (sessions_only_grow
                  [ CallStop None;
                    CallCreate "pong" (JS.Num 2)
                      {| b0 := Byte.x00; b1 := Byte.x01; b2 := Byte.x02;
                         b3 := Byte.x03 |} 5;
                    CallStop (Some "00010203") ]
                  (call new_SessionManager
                     (CallCreate "tetris" (JS.Num 3) Samples.sample_bytes 0)))).
  vm_compute. eexists. reflexivity.
Defined.

Lemma slice_last_suffix {A} (n : nat) (l : list A) :
  l = (take (length l - n) l ++ slice_last n l)%list
  ∧ length (slice_last n l) = Nat.min n (length l).
Proof.
  unfold slice_last. split; [by rewrite take_drop|].
  rewrite length_drop. lia.
Qed.

(** X5.  [toJSON] reports the last 50 log entries, in order: the
    reported list is a suffix of the session's logs of length
    min(50, number of logs); the other fields are reported as they are.
    Right after [addLog] the newest entry is the last one reported. *)
Theorem toJSON_last_logs (s : Session) :
  (∃ older, logs s = (older ++ logs (toJSON s))%list)
  ∧ length (logs (toJSON s)) = Nat.min 50 (length (logs s))
  ∧ with_logs (logs s) (toJSON s) = with_logs (logs s) s
  ∧ (∀ now msg,
       last (logs (toJSON (snd (addLog now msg s)))) = Some (mkLogEntry now msg)).
Proof.
  destruct (slice_last_suffix 50 (logs s)) as [Hsplit Hlen].
  split; [by eexists|]. split; [exact Hlen|]. split; [reflexivity|].
  intros now msg.
  change (logs (toJSON (snd (addLog now msg s))))
    with (slice_last 50 (logs (snd (addLog now msg s)))).
  assert (Hlast : ∃ pre, logs (snd (addLog now msg s))
                         = (pre ++ [mkLogEntry now msg])%list).
  { rewrite addLog_logs.
    destruct (500 <? length (logs s ++ [mkLogEntry now msg]))%nat eqn:Hc.
    - destruct (logs s) as [|e l]; simpl.
      + apply Nat.ltb_lt in Hc. simpl in Hc. lia.
      + by exists l.
    - by exists (logs s). }
  destruct Hlast as [pre ->]. unfold slice_last.
  rewrite length_app. simpl.
  rewrite drop_app_le by lia. apply last_snoc.
Qed.

End SessionMore.

(* ===================================================================== *)
(** * Further properties: the watcher's agents map *)
(* ===================================================================== *)

Section AgentsMore.

Import Watcher WatcherMore.

Implicit Types (s : State) (k : string).

Lemma last_desc_is_Some k (ts : list Task) :
  k ∈ agentId <$> ts → ∃ d, last_desc k ts = Some d.
Proof.
  intros Hin. destruct (last_desc k ts) as [d|] eqn:Hd; [by exists d|].
  apply last_desc_None in Hd. contradiction.
Qed.

Lemma derive_entry s k a :
  derive_agents s !! k = Some a →
  (k ∈ agentId <$> currentTasks s
   ∧ status a = "working"
   ∧ ∃ d, currentTask a = Some d ∧ last_desc k (currentTasks s) = Some d)
  ∨ ((k ∉ agentId <$> currentTasks s)
     ∧ status a = "idle" ∧ currentTask a = None).
Proof.
  intros Ha.
  destruct (decide (k ∈ agentId <$> currentTasks s)) as [Hin|Hout].
  - left. split; [assumption|].
    destruct (last_desc_is_Some k _ Hin) as [d Hd].
    destruct (derive_working s k d Hd) as (a' & Ha' & Hst & Hct).
    rewrite Ha in Ha'. injection Ha' as <-. eauto.
  - right. split; [assumption|]. by apply (derive_idle s k a Hout).
Qed.

Lemma poll_entry wd (w : RepoWatcher) (k : string) (a : AgentStatus) :
  agents (state (fst (poll wd w))) !! k = Some a →
  (k ∈ agentId <$> tasks_of wd
   ∧ status a = "working"
   ∧ ∃ d, currentTask a = Some d ∧ last_desc k (tasks_of wd) = Some d)
  ∨ ((k ∉ agentId <$> tasks_of wd)
     ∧ status a = "idle" ∧ currentTask a = None).
Proof.
  rewrite poll_agents. intros Ha. apply derive_entry in Ha.
  change (currentTasks (set_agents (agents (state w)) (state (fst (poll wd w)))))
    with (currentTasks (state (fst (poll wd w)))) in Ha.
  by rewrite poll_currentTasks in Ha.
Qed.

(** X6.  After every tick each entry of the agents map is in one of two
    shapes, decided by the task records of that tick alone: if a record
    names the agent, the entry is 'working' with a non-null currentTask
    (the description of the last such record); otherwise it is 'idle'
    with currentTask null.  No other status ever appears, also for
    agents first seen through a commit. *)
Theorem agent_entries_two_shapes wd (w : RepoWatcher) (k : string)
    (a : AgentStatus) :
  agents (state (fst (poll wd w))) !! k = Some a →
  (k ∈ agentId <$> tasks_of wd
   ∧ status a = "working"
   ∧ ∃ d, currentTask a = Some d ∧ last_desc k (tasks_of wd) = Some d)
  ∨ ((k ∉ agentId <$> tasks_of wd)
     ∧ status a = "idle" ∧ currentTask a = None).
Proof. apply poll_entry. Qed.

Lemma agent_entries_two_shapes_witness :
  ∃ a, agents (state (fst (poll Samples.busy_world
                             (new_RepoWatcher "/work")))) !! "1" = Some a
       ∧ status a = "idle" ∧ currentTask a = None.
Proof.
  assert (Hlook : agents (state (fst (poll Samples.busy_world
                                        (new_RepoWatcher "/work")))) !! "1"
                  = Some (mkAgent "1" "idle" None 1 1))
    by (vm_compute; reflexivity).
  exists (mkAgent "1" "idle" None 1 1). split; [exact Hlook|].
  destruct (agent_entries_two_shapes Samples.busy_world
              (new_RepoWatcher "/work") "1" _ Hlook)
    as [(Hin & _)|(_ & Hst & Hct)].
  - exfalso. vm_compute in Hin.
    apply list_elem_of_singleton in Hin. discriminate.
  - by split.
Defined.

Lemma done_by_le k (cs : list Commit) : 0 ≤ done_by k cs ≤ count_by k cs.
Proof.
  induction cs as [|c cs IH].
  - unfold done_by, count_by. simpl. lia.
  - rewrite count_by_cons, done_by_cons.
    destruct (attributed k c); destruct (is_completion c); simpl; lia.
Qed.

Lemma derive_agents_ok s : agents_ok (agents s) → agents_ok (derive_agents s).
Proof.
  intros Hok k a. rewrite derive_agents_lookup. cbv zeta.
  pose proof (done_by_le k (commits s)) as Hle.
  assert (Hprev : ∀ p, agents s !! k = Some p → entry_ok k p)
    by (intros p; apply Hok).
  destruct (agents s !! k) as [p|].
  - destruct (Hprev p eq_refl) as [Hid Hc].
    destruct (last_desc k (currentTasks s));
      destruct (decide (count_by k (commits s) = 0));
      destruct (bool_decide _); simpl; intros [= <-];
      (split; [exact Hid|simpl; lia]).
  - destruct (last_desc k (currentTasks s));
      destruct (decide (count_by k (commits s) = 0));
      destruct (bool_decide (k ∈ _)) eqn:Hb; simpl; try discriminate;
      intros [= <-]; (split; [reflexivity|simpl; lia]).
Qed.

Lemma poll_agents_ok wd (w : RepoWatcher) :
  agents_ok (agents (state w)) → agents_ok (agents (state (fst (poll wd w)))).
Proof.
  intros H. rewrite poll_agents.
  by apply (derive_agents_ok (set_agents (agents (state w)) _)).
Qed.

Lemma polls_agents_ok (wds : list World) (w : RepoWatcher) :
  agents_ok (agents (state w)) →
  agents_ok (agents (state (fst (polls wds w)))).
Proof.
  revert w. induction wds as [|wd wds IH]; intros w H; simpl; [assumption|].
  pose proof (poll_agents_ok wd w H) as H1.
  destruct (poll wd w) as [w1 e1]. simpl in H1.
  specialize (IH w1 H1). by destruct (polls wds w1).
Qed.

(** X7.  Through any sequence of ticks of a watcher since its
    construction (or reset), every entry of the agents map is filed under
    its own id, its counters are not negative, and its taskCount never
    exceeds its commitCount. *)
Theorem agents_well_kept (wds : list World) (path : string) (k : string)
    (a : AgentStatus) :
  agents (state (fst (polls wds (new_RepoWatcher path)))) !! k = Some a →
  id a = k ∧ 0 ≤ taskCount a ≤ commitCount a.
Proof.
  apply (polls_agents_ok wds (new_RepoWatcher path)).
  intros k' a' H. simpl in H. by rewrite lookup_empty in H.
Qed.

Lemma agents_well_kept_witness :
  ∃ a, agents (state (fst (polls [Samples.busy_world; Samples.quiet_world]
                             (new_RepoWatcher "/work")))) !! "1" = Some a
       ∧ id a = "1" ∧ 0 ≤ taskCount a ≤ commitCount a.
Proof.
  assert (Hlook : agents (state (fst (polls [Samples.busy_world;
                                             Samples.quiet_world]
                                        (new_RepoWatcher "/work")))) !! "1"
                  = Some (mkAgent "1" "idle" None 2 2))
    by (vm_compute; reflexivity).
  exists (mkAgent "1" "idle" None 2 2). split; [exact Hlook|].
  exact (agents_well_kept [Samples.busy_world; Samples.quiet_world] "/work"
           "1" _ Hlook).
Defined.

Lemma count_by_pos k (cs : list Commit) :
  count_by k cs ≠ 0 ↔ ∃ c, c ∈ cs ∧ author_id c = Some k.
Proof.
  induction cs as [|c cs IH].
  - split; [intros H; by destruct H|].
    intros (c & Hc & _). by apply not_elem_of_nil in Hc.
  - rewrite count_by_cons. pose proof (count_by_nonneg k cs) as Hnn.
    unfold attributed at 1. fold (author_id c).
    destruct (decide (author_id c = Some k)) as [Heq|Hne].
    + rewrite bool_decide_eq_true_2 by assumption. split; [|lia].
      intros _. exists c. split; [apply list_elem_of_here|assumption].
    + rewrite bool_decide_eq_false_2 by assumption. rewrite Z.add_0_l, IH.
      split.
      * intros (c' & Hc' & Ha). exists c'.
        split; [by apply list_elem_of_further|assumption].
      * intros (c' & Hc' & Ha). apply elem_of_cons in Hc' as [->|Hc'];
          [contradiction|]. by exists c'.
Qed.

Lemma derive_domain s k :
  is_Some (derive_agents s !! k) ↔
  is_Some (agents s !! k)
  ∨ k ∈ agentId <$> currentTasks s
  ∨ (∃ c, c ∈ commits s ∧ author_id c = Some k).
Proof.
  rewrite <- count_by_pos, derive_agents_lookup. cbv zeta.
  rewrite fmap_is_Some. split.
  - destruct (decide (count_by k (commits s) = 0)) as [Hz|Hnz]; [|by auto].
    destruct (last_desc k (currentTasks s)) as [d|] eqn:Hd.
    + intros _. right. left.
      destruct (decide (k ∈ agentId <$> currentTasks s)) as [|Hn];
        [assumption|]. apply last_desc_None in Hn. congruence.
    + by left.
  - intros [Hprev|[Hin|Hc]].
    + destruct (decide (count_by k (commits s) = 0)); [|eauto].
      destruct (last_desc k (currentTasks s)); eauto.
    + destruct (last_desc_is_Some k _ Hin) as [d ->].
      destruct (decide (count_by k (commits s) = 0)); eauto.
    + rewrite decide_False by assumption. eauto.
Qed.

(** X8.  After a tick the agents map holds exactly the ids it held
    before, the ids named by the tick's task records, and the ids of the
    authors of the commits in the tick's window: an entry appears for no
    other reason. *)
Theorem agents_domain wd (w : RepoWatcher) (k : string) :
  is_Some (agents (state (fst (poll wd w))) !! k) ↔
  is_Some (agents (state w) !! k)
  ∨ k ∈ agentId <$> tasks_of wd
  ∨ (∃ c, c ∈ commits (state (fst (poll wd w))) ∧ author_id c = Some k).
Proof.
  rewrite poll_agents, derive_domain.
  change (currentTasks (set_agents (agents (state w)) (state (fst (poll wd w)))))
    with (currentTasks (state (fst (poll wd w)))).
  by rewrite poll_currentTasks.
Qed.

End AgentsMore.

(* ===================================================================== *)
(** * Further properties: what a tick does when reads fail *)
(* ===================================================================== *)

Section FailedReads.

Import Watcher WatcherMore.

#[local] Arguments String.append !s1 s2 : simpl nomatch.

Lemma updateCommits_stale wd (w : RepoWatcher) :
  execGit (git_log wd) = "" → fst (updateCommits wd w) = w.
Proof. intros H. by rewrite (updateCommits_no_log wd w H). Qed.

(** X9.  When the log command fails (or prints nothing), the tick keeps
    the commits, totalCommits and last observed head of the tick before,
    emits no newCommit event, and still refreshes the task records and
    publishes a snapshot; the stale window is counted once more into the
    commit counters of the agents that already have an entry. *)
Theorem failed_log_keeps_commits wd (w : RepoWatcher) :
  execGit (git_log wd) = "" →
  commits (state (fst (poll wd w))) = commits (state w)
  ∧ totalCommits (state (fst (poll wd w))) = totalCommits (state w)
  ∧ lastCommitHash (fst (poll wd w)) = lastCommitHash w
  ∧ currentTasks (state (fst (poll wd w))) = tasks_of wd
  ∧ snd (poll wd w) = [stateEvent (getState (fst (poll wd w)))]
  ∧ (∀ k a, agents (state w) !! k = Some a →
       ∃ a', agents (state (fst (poll wd w))) !! k = Some a'
             ∧ commitCount a' = commitCount a + count_by k (commits (state w))).
Proof.
  intros Hno.
  assert (Hc : commits (state (fst (poll wd w))) = commits (state w))
    by (by rewrite poll_commits, (updateCommits_stale wd w Hno)).
  split; [exact Hc|]. split; [|split; [|split; [|split]]].
  - by rewrite poll_totalCommits, (updateCommits_stale wd w Hno).
  - by rewrite poll_lastCommitHash, (updateCommits_stale wd w Hno).
  - apply poll_currentTasks.
  - by rewrite poll_events, (updateCommits_no_log wd w Hno).
  - intros k a Ha. destruct (poll_recounts wd w k a Ha) as (a' & Ha' & Hcc & _).
    exists a'. split; [assumption|]. by rewrite Hcc, Hc.
Qed.

Lemma failed_log_keeps_commits_witness :
  let w1 := fst (poll Samples.quiet_world (new_RepoWatcher "/work")) in
  commits (state (fst (poll Samples.messy_world w1))) = commits (state w1)
  ∧ ∃ a', agents (state (fst (poll Samples.messy_world w1))) !! "1" = Some a'
          ∧ commitCount a' = 2.
Proof.
  destruct (failed_log_keeps_commits Samples.messy_world
              (fst (poll Samples.quiet_world (new_RepoWatcher "/work")))
              eq_refl) as (Hc & _ & _ & _ & _ & Hcount).
  split; [exact Hc|].
  destruct (Hcount "1" (mkAgent "1" "idle" None 1 1)) as (a' & Ha' & Hn).
  - vm_compute. reflexivity.
  - exists a'. split; [exact Ha'|]. rewrite Hn. vm_compute. reflexivity.
Defined.

Lemma all_digits_no_space (s : string) :
  JS.all_digits s = true → no_space s = true.
Proof.
  induction s as [|c s IH]; simpl; [reflexivity|].
  intros H. apply andb_prop in H as [Hc Hs].
  by rewrite (digit_not_space c Hc), (IH Hs).
Qed.

Lemma trimEnd_no_space (s : string) : no_space s = true → JS.trimEnd s = s.
Proof.
  induction s as [|c s IH]; simpl; [reflexivity|].
  intros H. apply andb_prop in H as [Hc Hs]. apply negb_true_iff in Hc.
  rewrite (IH Hs), Hc. by destruct s.
Qed.

(** Trimming a printed number followed by a line feed gives the number
    back. *)
Lemma trim_number_line (n : N) :
  JS.trim (NilEmpty.string_of_uint (N.to_uint n) +:+ String LF "")
  = NilEmpty.string_of_uint (N.to_uint n).
Proof.
  pose proof (all_digits_no_space _ (string_of_uint_digits (N.to_uint n))) as Hs.
  destruct (string_of_uint_head _ (to_uint_nonnil n)) as (c & r & Heq & _).
  unfold JS.trim. rewrite trimStart_id; [| by rewrite Heq | assumption].
  rewrite trimEnd_app_l by reflexivity. by apply trimEnd_no_space.
Qed.

Lemma updateCommits_totalCommits wd (w : RepoWatcher) :
  JS.truthy (execGit (git_log wd)) = true →
  totalCommits (state (fst (updateCommits wd w)))
  = JS.parseInt10 (if JS.truthy (execGit (git_rev_count wd))
                   then execGit (git_rev_count wd) else "0").
Proof.
  intros Ht. unfold updateCommits. rewrite Ht. cbn [negb].
  destruct (head (parse_log (execGit (git_log wd))));
    [destruct (head_changed _ _)|]; reflexivity.
Qed.

(** X10.  On a tick that sees a log, totalCommits is the number
    [git rev-list --count HEAD] prints; when that command fails or prints
    nothing it is 0 (not the previous value), and when it prints
    something that does not start with a number it is NaN. *)
Theorem totalCommits_read wd (w : RepoWatcher) :
  JS.truthy (execGit (git_log wd)) = true →
  (∀ n : N,
     git_rev_count wd
     = Some (NilEmpty.string_of_uint (N.to_uint n) +:+ String LF "") →
     totalCommits (state (fst (poll wd w))) = JS.Num (Z.of_N n))
  ∧ (execGit (git_rev_count wd) = "" →
     totalCommits (state (fst (poll wd w))) = JS.Num 0)
  ∧ (∀ out, git_rev_count wd = Some out → JS.truthy (JS.trim out) = true →
       JS.parseInt10 (JS.trim out) = JS.NaN →
       totalCommits (state (fst (poll wd w))) = JS.NaN).
Proof.
  intros Ht. rewrite poll_totalCommits, (updateCommits_totalCommits wd w Ht).
  split; [|split].
  - intros n ->. unfold execGit. rewrite trim_number_line.
    destruct (string_of_uint_head _ (to_uint_nonnil n)) as (c & r & Heq & _).
    rewrite Heq. cbn [JS.truthy]. rewrite <- Heq. apply parseInt10_digits.
  - intros ->. reflexivity.
  - intros out -> Htr Hnan. unfold execGit. by rewrite Htr.
Qed.

Lemma totalCommits_read_witness :
  totalCommits (state (fst (poll MoreSamples.counted_world
                              (new_RepoWatcher "/work")))) = JS.Num 42.
Proof.
  apply (proj1 (totalCommits_read MoreSamples.counted_world
                  (new_RepoWatcher "/work") eq_refl) 42%N).
  reflexivity.
Defined.

Lemma readTasks_unreadable (listing : list (string * option string)) f :
  (f, None) ∈ listing → readTasks listing = None.
Proof.
  induction listing as [|[g c] l IH]; intros Hin.
  - by apply not_elem_of_nil in Hin.
  - apply elem_of_cons in Hin as [[= <- <-]|Hin]; [reflexivity|].
    simpl. destruct c; [|reflexivity]. by rewrite (IH Hin).
Qed.

Lemma filter_keeps_unreadable (listing : list (string * option string)) f :
  (f, None) ∈ listing → f ≠ ".gitkeep" →
  (f, None) ∈ List.filter (λ e : string * option string, not_gitkeep (fst e))
                listing.
Proof.
  intros Hin Hne. apply list_elem_of_In, List.filter_In.
  split; [by apply list_elem_of_In|]. simpl. unfold not_gitkeep.
  apply negb_true_iff, String.eqb_neq, Hne.
Qed.

(** X11.  If current_tasks/ cannot be listed, or a single file in it
    other than .gitkeep cannot be read, the tick reports no task record
    at all, and therefore every agent as 'idle' with currentTask null,
    whatever the readable records say. *)
Theorem unreadable_task_idles_everyone wd (w : RepoWatcher) :
  (dir_current_tasks wd = None
   ∨ ∃ listing, dir_current_tasks wd = Some listing ∧ unreadable_task listing) →
  currentTasks (state (fst (poll wd w))) = []
  ∧ ∀ k a, agents (state (fst (poll wd w))) !! k = Some a →
           status a = "idle" ∧ currentTask a = None.
Proof.
  intros Hbad.
  assert (Hnone : tasks_of wd = []).
  { unfold tasks_of. destruct Hbad as [->|(listing & -> & f & Hin & Hne)];
      [reflexivity|].
    by rewrite (readTasks_unreadable _ f (filter_keeps_unreadable _ f Hin Hne)). }
  split; [by rewrite poll_currentTasks|].
  intros k a Ha.
  destruct (poll_entry wd w k a Ha) as [(Hin & _)|(_ & Hst & Hct)].
  - rewrite Hnone in Hin. by apply not_elem_of_nil in Hin.
  - by split.
Qed.

Lemma unreadable_task_idles_everyone_witness :
  let w1 := fst (poll Samples.busy_world (new_RepoWatcher "/work")) in
  currentTasks (state (fst (poll MoreSamples.half_read_world w1))) = []
  ∧ ∃ a, agents (state (fst (poll MoreSamples.half_read_world w1))) !! "2"
         = Some a
         ∧ status a = "idle" ∧ currentTask a = None.
Proof.
  intros w1.
  assert (Hbad : dir_current_tasks MoreSamples.half_read_world = None
                 ∨ ∃ listing,
                     dir_current_tasks MoreSamples.half_read_world = Some listing
                     ∧ unreadable_task listing).
  { right. eexists. split; [reflexivity|].
    exists "agent-3-1700000000500". split; [|discriminate].
    apply list_elem_of_further, list_elem_of_here. }
  destruct (unreadable_task_idles_everyone MoreSamples.half_read_world w1 Hbad)
    as [Hts Hall].
  split; [exact Hts|].
  assert (Hlook : agents (state (fst (poll MoreSamples.half_read_world w1))) !! "2"
                  = Some (mkAgent "2" "idle" None 0 0))
    by (vm_compute; reflexivity).
  eexists. split; [exact Hlook|]. exact (Hall "2" _ Hlook).
Defined.

End FailedReads.

(* ===================================================================== *)
(** * Further properties: the line count *)
(* ===================================================================== *)

Section CodeStats.

Import Watcher WatcherMore.

Lemma split_length (sep : ascii) (s : string) :
  length (JS.split sep s) = S (count_char sep s).
Proof.
  induction s as [|c s IH]; simpl; [reflexivity|].
  destruct (Ascii.eqb c sep); simpl; [by rewrite IH|].
  destruct (JS.split sep s); simpl in *; [discriminate|assumption].
Qed.

(** Induction over a tree of entries, with the hypothesis for every
    entry of a listed directory. *)
Lemma Entry_tree_ind (P : Entry → Prop) :
  (∀ nm content, P (EFile nm content)) →
  (∀ nm, P (EDir nm None)) →
  (∀ nm es, Forall P es → P (EDir nm (Some es))) →
  ∀ e, P e.
Proof.
  intros Hfile Hnone Hdir.
  fix IH 1. intros [nm content|nm [es|]].
  - apply Hfile.
  - apply Hdir.
    exact ((fix each (l : list Entry) : Forall P l :=
              match l with
              | [] => Forall_nil_2 P
              | e' :: l' => Forall_cons_2 P e' l' (IH e') (each l')
              end) es).
  - apply Hnone.
Qed.

Lemma walkEntry_refines (e : Entry) :
  walkEntry e
  = if walkable e then Some (sum_lines (source_contents e)) else None.
Proof.
  induction e as [nm content|nm|nm es IH] using Entry_tree_ind.
  - simpl. destruct (source_file nm); [|reflexivity].
    destruct content as [c|]; [|reflexivity].
    simpl. unfold lines_of. rewrite split_length. f_equal. lia.
  - reflexivity.
  - simpl. induction es as [|e es IHes]; [reflexivity|].
    apply Forall_cons in IH as [He Hes]. rewrite He, (IHes Hes).
    destruct (walkable e); [|reflexivity]. simpl.
    match goal with
    | |- context [if ?b then Some _ else None] => destruct b
    end; [|reflexivity].
    f_equal.
    assert (Hsum : ∀ a b, sum_lines (a ++ b) = sum_lines a + sum_lines b).
    { intros a b. induction a as [|x a IHa]; simpl; [reflexivity|].
      rewrite IHa. lia. }
    by rewrite Hsum.
Qed.

Lemma sum_lines_ge (cs : list string) : Z.of_nat (length cs) ≤ sum_lines cs.
Proof.
  induction cs as [|c cs IH]; simpl sum_lines; simpl length; [lia|].
  unfold lines_of. lia.
Qed.

(** X12.  totalLines is all or nothing.  If src/ and every directory
    below it can be listed and every .js, .html and .css file read,
    totalLines is the sum over those files of their line feeds plus one
    (so at least the number of such files; an empty file counts as one
    line).  If a single directory or counted file cannot be read,
    totalLines is 0.  Files with other extensions are never opened and
    count for nothing. *)
Theorem totalLines_all_or_nothing wd (w : RepoWatcher) :
  let tree := EDir "src" (src_tree wd) in
  (walkable tree = true →
   totalLines (state (fst (poll wd w))) = sum_lines (source_contents tree)
   ∧ Z.of_nat (length (source_contents tree))
     ≤ totalLines (state (fst (poll wd w))))
  ∧ (walkable tree = false → totalLines (state (fst (poll wd w))) = 0)
  ∧ (∀ nm content, source_file nm = false →
       walkable (EFile nm content) = true
       ∧ source_contents (EFile nm content) = []).
Proof.
  intros tree. rewrite poll_totalLines. fold tree.
  rewrite (walkEntry_refines tree).
  split; [|split].
  - intros ->. simpl default. split; [reflexivity|apply sum_lines_ge].
  - intros ->. reflexivity.
  - intros nm content Hnm. simpl. by rewrite Hnm.
Qed.

Lemma totalLines_all_or_nothing_witness :
  totalLines (state (fst (poll MoreSamples.tree_world (new_RepoWatcher "/work"))))
  = 6
  ∧ totalLines (state (fst (poll MoreSamples.broken_tree_world
                              (new_RepoWatcher "/work")))) = 0.
Proof.
  split.
  - apply (proj1 (totalLines_all_or_nothing MoreSamples.tree_world
                    (new_RepoWatcher "/work"))).
    reflexivity.
  - apply (proj1 (proj2 (totalLines_all_or_nothing MoreSamples.broken_tree_world
                           (new_RepoWatcher "/work")))).
    reflexivity.
Defined.

End CodeStats.

(* ===================================================================== *)
(** * Further properties: commit authors and log lines *)
(* ===================================================================== *)

Section AuthorsAndLines.

Import Watcher WatcherMore.

#[local] Arguments String.append !s1 s2 : simpl nomatch.

Lemma agent_here_Some (s d : string) :
  agent_here s = Some d →
  ∃ post, s = "agent-" +:+ d +:+ post ∧ digit_run d.
Proof.
  unfold agent_here.
  destruct (JS.strip_prefix "agent-" s) as [r|] eqn:Hp; [|discriminate].
  apply strip_prefix_Some in Hp as ->.
  destruct (JS.span_digits r) as [d1 r1] eqn:H1.
  apply span_digits_spec in H1 as (-> & Hall & _).
  destruct (JS.truthy d1) eqn:Ht; [|discriminate].
  intros [= <-]. exists r1. by repeat split.
Qed.

Lemma agent_here_complete (d post : string) :
  digit_run d →
  agent_here ("agent-" +:+ d +:+ post) = Some (d +:+ fst (JS.span_digits post)).
Proof.
  intros [Ht Hall]. unfold agent_here.
  assert (Hp : JS.strip_prefix "agent-" ("agent-" +:+ d +:+ post)
               = Some (d +:+ post)) by (by apply strip_prefix_Some).
  rewrite Hp, (span_digits_app _ _ Hall). simpl.
  by rewrite (truthy_append _ _ Ht).
Qed.

Lemma match_agent_Some (s d : string) :
  match_agent s = Some d →
  ∃ pre post, s = pre +:+ "agent-" +:+ d +:+ post ∧ digit_run d.
Proof.
  induction s as [|c s IH]; simpl; [discriminate|].
  destruct (agent_here (String c s)) as [d'|] eqn:Hh.
  - intros [= ->]. apply agent_here_Some in Hh as (post & Heq & Hd).
    by exists "", post.
  - intros H. destruct (IH H) as (pre & post & -> & Hd).
    by exists (String c pre), post.
Qed.

Lemma match_agent_None (s : string) :
  match_agent s = None ↔ ¬ names_agent s.
Proof.
  split.
  - intros Hnone (pre & d & post & -> & Hd). revert Hnone.
    induction pre as [|c pre IH].
    + change ("" +:+ ?x) with x.
      pose proof (agent_here_complete d post Hd) as Hh.
      simpl in *. rewrite Hh. discriminate.
    + simpl. destruct (agent_here _); [discriminate|]. exact IH.
  - intros Hno. destruct (match_agent s) as [d|] eqn:Hm; [|reflexivity].
    exfalso. apply Hno. apply match_agent_Some in Hm as (pre & post & Heq & Hd).
    by exists pre, d, post.
Qed.

Lemma match_agent_worker (d : string) :
  digit_run d → match_agent (worker_author d) = Some d.
Proof.
  intros Hd. unfold worker_author.
  pose proof (agent_here_complete d "" Hd) as Hh.
  rewrite !append_empty_r in Hh. simpl in *. by rewrite Hh.
Qed.

Lemma string_of_Z_digit_run (i : Z) : 0 ≤ i → digit_run (JS.string_of_Z i).
Proof.
  intros Hi. unfold JS.string_of_Z.
  destruct (Z.ltb_spec i 0) as [|_]; [lia|]. split.
  - destruct (string_of_uint_head _ (to_uint_nonnil (Z.to_N i)))
      as (c & r & -> & _). reflexivity.
  - apply string_of_uint_digits.
Qed.

Lemma string_of_Z_inj (i j : Z) : JS.string_of_Z i = JS.string_of_Z j → i = j.
Proof.
  intros H. pose proof (parseInt10_string_of_Z i) as Hi.
  rewrite H, parseInt10_string_of_Z in Hi. congruence.
Qed.

(** X13.  Attribution follows the worker loop's author name: a commit
    whose author is [agent-<digits>] (what the loop configures for
    AGENT_ID [<digits>]) is attributed to exactly that id, so workers
    with different numbers never share a counter; a name that contains no
    [agent-] followed by a digit is attributed to nobody. *)
Theorem author_attribution (c : Commit) :
  (∀ d k, digit_run d → author c = Some (worker_author d) →
          (attributed k c = true ↔ k = d))
  ∧ (∀ i j, 0 ≤ i → 0 ≤ j →
       author c = Some (worker_author (JS.string_of_Z i)) →
       attributed (JS.string_of_Z j) c = true → i = j)
  ∧ (∀ a, author c = Some a → ¬ names_agent a →
          ∀ k, attributed k c = false)
  ∧ (author c = None → ∀ k, attributed k c = false).
Proof.
  assert (Hfirst : ∀ d k, digit_run d → author c = Some (worker_author d) →
                          (attributed k c = true ↔ k = d)).
  { intros d k Hd Ha. unfold attributed. rewrite Ha.
    change (Some (worker_author d) ≫= match_agent)
      with (match_agent (worker_author d)).
    rewrite (match_agent_worker d Hd), bool_decide_eq_true.
    split; congruence. }
  split; [exact Hfirst|]. split; [|split].
  - intros i j Hi Hj Ha Hatt.
    apply (Hfirst _ _ (string_of_Z_digit_run i Hi) Ha) in Hatt.
    symmetry. by apply string_of_Z_inj.
  - intros a Ha Hno k. unfold attributed. rewrite Ha.
    change (Some a ≫= match_agent) with (match_agent a).
    apply match_agent_None in Hno. rewrite Hno.
    by apply bool_decide_eq_false.
  - intros Ha k. unfold attributed. rewrite Ha. reflexivity.
Qed.

Lemma author_attribution_witness :
  attributed "12" (mkCommit (Some "9b1d") (Some "agent-12") (Some "fix") None)
  = true
  ∧ attributed "1" (mkCommit (Some "9b1d") (Some "agent-12") (Some "fix") None)
    = false.
Proof.
  pose proof (proj1 (author_attribution
                       (mkCommit (Some "9b1d") (Some "agent-12") (Some "fix") None))
                "12") as H.
  split.
  - apply (H "12"); [split; reflexivity|reflexivity|reflexivity].
  - destruct (attributed "1" _) eqn:Hatt; [|reflexivity].
    apply (H "1") in Hatt; [discriminate|split; reflexivity|reflexivity].
Defined.

Lemma parse_line_fields (h a m r : string) :
  no_char BAR h = true → no_char BAR a = true →
  no_char BAR m = true → no_char BAR r = true →
  parse_line (h +:+ String BAR (a +:+ String BAR (m +:+ String BAR r)))
  = {| hash := Some h; author := Some a; message := Some m;
       timeAgo := Some r |}.
Proof.
  intros Hh Ha Hm Hr. unfold parse_line.
  rewrite (split_at_sep _ _ _ Hh), (split_at_sep _ _ _ Ha),
    (split_at_sep _ _ _ Hm), (split_no_sep _ _ Hr).
  reflexivity.
Qed.

Lemma parse_log_lines (cs : list GitCommit) :
  Forall (λ c, well_formed c = true) cs →
  parse_log (join_lines cs) = (λ c, parse_line (format_commit c)) <$> cs.
Proof.
  induction cs as [|c cs IH]; intros Hwf; [reflexivity|].
  apply Forall_cons in Hwf as [Hc Hrest].
  destruct cs as [|c' cs].
  - cbn [join_lines].
    by rewrite (parse_log_single _ (format_commit_no_LF c Hc)
                  (format_commit_truthy c Hc)).
  - change (join_lines (c :: c' :: cs))
      with (format_commit c +:+ String LF (join_lines (c' :: cs))).
    rewrite (parse_log_cons _ _ (format_commit_no_LF c Hc)
               (format_commit_truthy c Hc)).
    by rewrite fmap_cons, (IH Hrest).
Qed.

Lemma well_formed_hash_bar (c : GitCommit) :
  well_formed c = true → no_char BAR (g_hash c) = true.
Proof. intros H. by apply well_formed_parts in H as ((_ & _ & Hb) & _). Qed.

Lemma parse_format_lines (l : list GitCommit) :
  Forall (λ c, well_formed c = true) l →
  Forall (λ c, bar_free c = true) l →
  (λ c, parse_line (format_commit c)) <$> l = commit_of <$> l.
Proof.
  induction l as [|c l IHl]; intros Hwf Hbar; [reflexivity|].
  apply Forall_cons in Hbar as [Hb Hbs].
  apply Forall_cons in Hwf as [Hc Hcs].
  rewrite !fmap_cons, (IHl Hcs Hbs). f_equal.
  unfold bar_free in Hb. rewrite !andb_true_iff in Hb.
  destruct Hb as [[Ha Hm] Hr].
  unfold format_commit, commit_of.
  by apply parse_line_fields; [apply well_formed_hash_bar| | |].
Qed.

(** X14.  Reading the log back.  When no author, subject or relative
    date contains '|', the commits of the snapshot are the 30 newest
    commits of the history, field for field and in git's order.  A
    subject that does contain '|' is cut at its first bar: the message
    is the part before it, and what follows the bar is reported as
    timeAgo in place of the relative date. *)
Theorem log_fields_read_back wd (w : RepoWatcher) :
  (∀ history,
     history ≠ [] →
     Forall (λ c, well_formed c = true) history →
     Forall (λ c, bar_free c = true) (take 30 history) →
     git_log wd = Some (git_log_30 history) →
     commits (state (fst (poll wd w))) = commit_of <$> take 30 history)
  ∧ (∀ h a before after r,
       no_char BAR h = true → no_char BAR a = true →
       no_char BAR before = true → no_char BAR after = true →
       parse_line (format_commit (with_bar_subject h a before after r))
       = {| hash := Some h; author := Some a; message := Some before;
            timeAgo := Some after |}).
Proof.
  split.
  - intros history Hne Hwf Hbar Hlog.
    rewrite poll_commits.
    destruct (updateCommits_git wd w history Hwf Hlog) as [Heq _].
    rewrite Heq. destruct history as [|c0 hs]; [congruence|].
    pose proof (Forall_take_wf 30 _ Hwf) as Hwf30.
    rewrite (parse_log_lines _ Hwf30).
    by apply parse_format_lines.
  - intros h a before after r Hh Ha Hb Haf. unfold format_commit. simpl.
    unfold parse_line.
    rewrite (split_at_sep _ _ _ Hh), (split_at_sep _ _ _ Ha).
    rewrite append_assoc. simpl.
    rewrite (split_at_sep _ _ _ Hb), (split_at_sep _ _ _ Haf).
    reflexivity.
Qed.

Lemma log_fields_read_back_witness :
  commits (state (fst (poll MoreSamples.clean_git_world
                         (new_RepoWatcher "/work"))))
  = [ mkCommit (Some "9b1d4e07") (Some "agent-2") (Some "add paddle")
        (Some "5 seconds ago");
      mkCommit (Some "3f2a9c11") (Some "agent-1") (Some "init")
        (Some "2 minutes ago") ]
  ∧ parse_line "9b1d4e07|agent-2|add paddle | wip|5 seconds ago"
    = mkCommit (Some "9b1d4e07") (Some "agent-2") (Some "add paddle ")
        (Some " wip").
Proof.
  pose proof (log_fields_read_back MoreSamples.clean_git_world
                (new_RepoWatcher "/work")) as [Hall Hcut].
  split.
  - apply (Hall MoreSamples.clean_history).
    + discriminate.
    + repeat constructor.
    + repeat constructor.
    + reflexivity.
  - apply (Hcut "9b1d4e07" "agent-2" "add paddle " " wip" "5 seconds ago");
      reflexivity.
Defined.

(** What [updateCommits] emits: nothing, or one newCommit event. *)
Lemma updateCommits_events wd (w : RepoWatcher) :
  snd (updateCommits wd w) = [] ∨ ∃ c, snd (updateCommits wd w) = [newCommit c].
Proof.
  unfold updateCommits.
  destruct (negb (JS.truthy (execGit (git_log wd)))); [by left|].
  destruct (head (parse_log (execGit (git_log wd)))) as [c0|]; [|by left].
  destruct (head_changed _ _); [right; by exists c0|by left].
Qed.

Lemma polls_events_app (wd : World) (wds : list World) (w : RepoWatcher) :
  snd (polls (wd :: wds) w)
  = (snd (poll wd w) ++ snd (polls wds (fst (poll wd w))))%list.
Proof.
  simpl. destruct (poll wd w) as [w1 e1]. simpl.
  by destruct (polls wds w1).
Qed.

(** X15.  Every tick publishes exactly one snapshot, as its last event,
    preceded by at most one newCommit event: over any number of ticks
    there are as many state events as ticks and at most as many
    newCommit events, and nothing else. *)
Theorem one_snapshot_per_tick (wds : list World) (w : RepoWatcher) :
  length (List.filter is_stateEvent (snd (polls wds w))) = length wds
  ∧ (length (List.filter is_newCommit (snd (polls wds w))) ≤ length wds)%nat
  ∧ (∀ wd w0,
       snd (poll wd w0) = [stateEvent (getState (fst (poll wd w0)))]
       ∨ ∃ c, snd (poll wd w0)
              = [newCommit c; stateEvent (getState (fst (poll wd w0)))]).
Proof.
  assert (Hone : ∀ wd w0,
            snd (poll wd w0) = [stateEvent (getState (fst (poll wd w0)))]
            ∨ ∃ c, snd (poll wd w0)
                   = [newCommit c; stateEvent (getState (fst (poll wd w0)))]).
  { intros wd w0. rewrite poll_events.
    destruct (updateCommits_events wd w0) as [->|[c ->]];
      [by left|right; by exists c]. }
  split; [|split; [|exact Hone]].
  - revert w. induction wds as [|wd wds IH]; intros w; [reflexivity|].
    rewrite polls_events_app, List.filter_app, length_app, IH.
    destruct (Hone wd w) as [->|[c ->]]; reflexivity.
  - revert w. induction wds as [|wd wds IH]; intros w; [simpl; lia|].
    rewrite polls_events_app, List.filter_app, length_app.
    specialize (IH (fst (poll wd w))).
    destruct (Hone wd w) as [->|[c ->]]; simpl in *; lia.
Qed.

End AuthorsAndLines.

(* ===================================================================== *)
(** * Further properties: the worker's loop *)
(* ===================================================================== *)

Section LoopMoreFacts.

Import AgentLoop LoopMore.

Lemma and_then_Exited (o : Outcome) (k : Shell → Outcome) code s' :
  o >> k = Exited code s' →
  o = Exited code s' ∨ ∃ s1, o = Running s1 ∧ k s1 = Exited code s'.
Proof. destruct o as [s1|c1 s1]; simpl; intros H; [right; eauto|by left]. Qed.

Lemma simple_Exited (a : Answers) (c : Command) (s : Shell) code s' :
  unguarded c = true → simple a c s = Exited code s' → died_of a code s'.
Proof.
  intros Hu. unfold simple.
  destruct (Z.eqb_spec (exit_status a c) 0) as [|Hne]; [discriminate|].
  intros [= <- <-]. split; [assumption|].
  exists c. repeat split; [assumption|]. simpl. apply last_snoc.
Qed.

Lemma conflict_block_Exited (a : Answers) (s : Shell) code s' :
  conflict_block a s = Exited code s' → died_of a code s'.
Proof.
  unfold conflict_block. intros H.
  apply and_then_Exited in H as [H|(s1 & _ & H)];
    [|by apply simple_Exited in H].
  apply and_then_Exited in H as [H|(s1 & _ & H)]; [|discriminate].
  apply and_then_Exited in H as [H|(s1 & _ & H)]; [|discriminate].
  by apply simple_Exited in H.
Qed.

Lemma execute_block_Exited (a : Answers) (s : Shell) code s' :
  execute_block a s = Exited code s' → died_of a code s'.
Proof.
  unfold execute_block. intros H.
  apply and_then_Exited in H as [H|(s1 & _ & H)];
    [|by apply simple_Exited in H].
  apply and_then_Exited in H as [H|(s1 & _ & H)];
    [|by apply simple_Exited in H].
  apply and_then_Exited in H as [H|(s1 & _ & H)]; [|discriminate].
  apply and_then_Exited in H as [H|(s1 & _ & H)]; [|discriminate].
  by apply simple_Exited in H.
Qed.

Lemma iteration_Exited (a : Answers) (s : Shell) code s' :
  iteration a s = Exited code s' → died_of a code s'.
Proof.
  unfold iteration. intros H.
  apply and_then_Exited in H as [H|(s1 & _ & H)].
  - apply and_then_Exited in H as [H|(s1 & _ & H)]; [|discriminate].
    apply and_then_Exited in H as [H|(s1 & _ & H)];
      [|by apply simple_Exited in H].
    apply and_then_Exited in H as [H|(s1 & _ & H)];
      [|by apply simple_Exited in H].
    by apply simple_Exited in H.
  - destruct (exit_status a GitPullRebase =? 0).
    + by apply execute_block_Exited in H.
    + by apply conflict_block_Exited in H.
Qed.

(** X16.  The loop ends only by dying of an unguarded command: whenever
    it exits, the exit status is not 0, it is the status of a [log], [cd]
    or [sleep] of some iteration, and that command is the last one run.
    No status of a git command or of the executor ever ends it. *)
Theorem loop_dies_only_of_unguarded (answers : list Answers) (s : Shell)
    code s' :
  loop answers s = Exited code s' →
  ∃ a, a ∈ answers ∧ died_of a code s'.
Proof.
  revert s. induction answers as [|a rest IH]; intros s; simpl; [discriminate|].
  intros H. apply and_then_Exited in H as [H|(s1 & _ & H)].
  - exists a. split; [apply list_elem_of_here|by apply iteration_Exited in H].
  - destruct (IH s1 H) as (a' & Hin & Hd).
    exists a'. split; [by apply list_elem_of_further|assumption].
Qed.

Lemma loop_dies_only_of_unguarded_witness :
  ∃ s', loop [Samples.conflict_answers; Samples.cd_fails]
          (initial_shell Samples.stale_repo) = Exited 1 s'
        ∧ last (trace s') = Some CdProject.
Proof.
  assert (Hrun : loop [Samples.conflict_answers; Samples.cd_fails]
                   (initial_shell Samples.stale_repo)
                 = Exited 1
                     (shell_of (loop [Samples.conflict_answers; Samples.cd_fails]
                                  (initial_shell Samples.stale_repo))))
    by (vm_compute; reflexivity).
  eexists. split; [exact Hrun|].
  destruct (loop_dies_only_of_unguarded _ _ _ _ Hrun) as (a & _ & _ & c & _ & _ & Hl).
  vm_compute in Hl. vm_compute. reflexivity.
Defined.

(** Splitting every status test of one iteration. *)
Ltac split_statuses a :=
  repeat match goal with
         | |- context [exit_status a ?c =? 0] =>
             let E := fresh "E" in
             destruct (exit_status a c =? 0) eqn:E; simpl
         end.

(** X17.  The destructive commands and the executor exclude each other
    within an iteration, however it ends: [git rebase --abort] and
    [git reset --hard origin/main] run only after the pull of that
    iteration failed, the executor only after it succeeded, and the pull
    is attempted at most once. *)
Theorem reset_only_after_failed_pull (a : Answers) (s : Shell) :
  ∃ delta,
    trace (shell_of (iteration a s)) = (trace s ++ delta)%list
    ∧ ((0 < count is_reset delta)%nat → exit_status a GitPullRebase ≠ 0)
    ∧ ((0 < count is_claude delta)%nat → exit_status a GitPullRebase = 0)
    ∧ (count is_pull delta ≤ 1)%nat
    ∧ (count is_claude delta ≤ 1)%nat.
Proof.
  unfold iteration, execute_block, conflict_block, simple, or_true,
    assign_exit_code, and_then, executed.
  simpl. split_statuses a;
    rewrite <- ?app_assoc; simpl; eexists;
    (split; [reflexivity|]); unfold count; simpl;
    repeat split; intros; try lia; try congruence;
    try (apply Z.eqb_eq; assumption); try (apply Z.eqb_neq; assumption).
Qed.

Lemma reset_only_after_failed_pull_witness :
  (0 < count is_reset
         (trace (shell_of (iteration Samples.conflict_answers
                             (initial_shell Samples.stale_repo)))))%nat
  ∧ exit_status Samples.conflict_answers GitPullRebase ≠ 0.
Proof.
  destruct (reset_only_after_failed_pull Samples.conflict_answers
              (initial_shell Samples.stale_repo))
    as (delta & Htr & Hreset & _).
  change (trace (initial_shell Samples.stale_repo) ++ delta)%list
    with delta in Htr.
  rewrite Htr.
  assert (Hpos : (0 < count is_reset delta)%nat).
  { rewrite <- Htr. vm_compute. lia. }
  split; [exact Hpos|exact (Hreset Hpos)].
Defined.

Lemma count_app (p : Command → bool) (t1 t2 : list Command) :
  count p (t1 ++ t2) = (count p t1 + count p t2)%nat.
Proof. unfold count. by rewrite List.filter_app, length_app. Qed.

Lemma iteration_counts (a : Answers) (s : Shell) :
  unguarded_ok a →
  ∃ s', iteration a s = Running s'
    ∧ count is_pull (trace s') = S (count is_pull (trace s))
    ∧ count is_claude (trace s')
      = ((if (exit_status a GitPullRebase =? 0)%Z then 1 else 0)
         + count is_claude (trace s))%nat.
Proof.
  intros Hok. rewrite (iteration_unfold a Hok s).
  destruct (exit_status a GitPullRebase =? 0).
  - destruct (execute_block_runs a Hok (synced a s)) as (s' & -> & _ & Ht).
    exists s'. split; [reflexivity|]. rewrite Ht. simpl trace.
    rewrite !count_app. unfold count. simpl. split; lia.
  - rewrite (conflict_block_runs a Hok). eexists. split; [reflexivity|].
    simpl trace. rewrite !count_app. unfold count. simpl. split; lia.
Qed.

(** X18.  As long as the unguarded commands succeed, [n] iterations
    attempt the pull [n] times and run the executor once for every
    iteration whose pull succeeded, never more: a conflict costs the
    worker that iteration's executor run. *)
Theorem executor_runs_once_per_sync (answers : list Answers) (s : Shell) :
  Forall unguarded_ok answers →
  ∃ s', loop answers s = Running s'
    ∧ count is_pull (trace s')
      = (length answers + count is_pull (trace s))%nat
    ∧ count is_claude (trace s')
      = (synced_count answers + count is_claude (trace s))%nat.
Proof.
  revert s. induction answers as [|a rest IH]; intros s Hok.
  - exists s. by repeat split.
  - apply Forall_cons in Hok as [Ha Hrest].
    destruct (iteration_counts a s Ha) as (s1 & H1 & Hp1 & Hc1).
    destruct (IH s1 Hrest) as (s2 & H2 & Hp2 & Hc2).
    exists s2. simpl loop. rewrite H1. simpl and_then.
    split; [assumption|]. rewrite Hp2, Hp1, Hc2, Hc1.
    unfold synced_count. simpl.
    destruct (exit_status a GitPullRebase =? 0); simpl; split; lia.
Qed.

Lemma executor_runs_once_per_sync_witness :
  ∃ s', loop [Samples.conflict_answers; Samples.conflict_answers]
          (initial_shell Samples.stale_repo) = Running s'
        ∧ count is_pull (trace s') = 2%nat
        ∧ count is_claude (trace s') = 0%nat.
Proof.
  assert (Hok : unguarded_ok Samples.conflict_answers)
    by (intros c Hc; destruct c; try discriminate; reflexivity).
  destruct (executor_runs_once_per_sync
              [Samples.conflict_answers; Samples.conflict_answers]
              (initial_shell Samples.stale_repo))
    as (s' & Hrun & Hp & Hc).
  - apply Forall_cons_2; [exact Hok|].
    apply Forall_cons_2; [exact Hok|]. apply Forall_nil_2.
  - exists s'. split; [exact Hrun|]. split; [exact Hp|exact Hc].
Defined.

End LoopMoreFacts.

(* ===================================================================== *)
(** * Further properties: the docker manager *)
(* ===================================================================== *)

Section DockerFacts.

Import Docker.

Lemma agent_ids_range (from : Z) (n : nat) (x : string) :
  x ∈ agent_ids from n →
  ∃ k, from ≤ k < from + Z.of_nat n ∧ x = JS.string_of_Z k.
Proof.
  revert from. induction n as [|n IH]; intros from Hin; simpl in Hin.
  - by apply not_elem_of_nil in Hin.
  - apply elem_of_cons in Hin as [->|Hin].
    + exists from. split; [lia|reflexivity].
    + destruct (IH _ Hin) as (k & Hk & ->). exists k. split; [lia|reflexivity].
Qed.

Lemma agent_ids_NoDup (from : Z) (n : nat) : NoDup (agent_ids from n).
Proof.
  revert from. induction n as [|n IH]; intros from; simpl; constructor.
  - intros Hin. apply agent_ids_range in Hin as (k & Hk & Heq).
    apply string_of_Z_inj in Heq. lia.
  - apply IH.
Qed.

Lemma agent_ids_length (from : Z) (n : nat) : length (agent_ids from n) = n.
Proof. revert from. induction n as [|n IH]; intros from; simpl; auto. Qed.

Lemma record_all_notin (ls : list Launched) (m : gmap string string) k :
  k ∉ agentId <$> ls → record_all ls m !! k = m !! k.
Proof.
  revert m. induction ls as [|l ls IH]; intros m Hk; [reflexivity|].
  rewrite fmap_cons in Hk. apply not_elem_of_cons in Hk as [Hne Hk].
  unfold record_all in *. simpl. rewrite (IH _ Hk).
  by rewrite lookup_insert_ne.
Qed.

Lemma record_all_in (ls : list Launched) (m : gmap string string) l :
  NoDup (agentId <$> ls) → l ∈ ls →
  record_all ls m !! agentId l = Some (containerId l).
Proof.
  revert m. induction ls as [|l0 ls IH]; intros m Hnd Hin.
  - by apply not_elem_of_nil in Hin.
  - rewrite fmap_cons in Hnd. apply NoDup_cons in Hnd as [Hhead Hnd].
    apply elem_of_cons in Hin as [->|Hin].
    + change (record_all (l0 :: ls) m)
        with (record_all ls (<[agentId l0 := containerId l0]> m)).
      rewrite (record_all_notin _ _ _ Hhead). apply lookup_insert_eq.
    + by apply (IH _ Hnd Hin).
Qed.

Lemma record_all_app (l1 l2 : list Launched) (m : gmap string string) :
  record_all (l1 ++ l2) m = record_all l2 (record_all l1 m).
Proof. unfold record_all. apply foldl_app. Qed.

(** What the loop leaves, whatever the daemon answers. *)
Lemma launch_loop_spec dk env session (todo : nat) :
  ∀ (i : Z) (dm : DockerManager) (launched : list Launched),
  ∃ (n : nat) (new : list Launched),
    (n ≤ todo)%nat
    ∧ agentId <$> new = agent_ids i n
    ∧ Forall (λ l, create_answer dk (options_for env session (agentId l))
                   = Session.Ok (containerId l)
                   ∧ start_answer dk (containerId l) = None) new
    ∧ containers (snd (launch_loop dk env session todo i dm launched))
      = record_all new (containers dm)
    ∧ logStreams (snd (launch_loop dk env session todo i dm launched))
      = logStreams dm
    ∧ ((fst (launch_loop dk env session todo i dm launched)
        = Session.Ok (launched ++ new)%list ∧ n = todo)
       ∨ (∃ msg, fst (launch_loop dk env session todo i dm launched)
                 = Session.Throw msg
          ∧ (n < todo)%nat
          ∧ (create_answer dk
               (options_for env session (JS.string_of_Z (i + Z.of_nat n)))
             = Session.Throw msg
             ∨ ∃ cid,
                 create_answer dk
                   (options_for env session (JS.string_of_Z (i + Z.of_nat n)))
                 = Session.Ok cid
                 ∧ start_answer dk cid = Some msg))).
Proof.
  induction todo as [|todo IH]; intros i dm launched.
  - exists O, []. simpl. rewrite app_nil_r.
    split; [lia|]. split; [reflexivity|]. split; [constructor|].
    split; [reflexivity|]. split; [reflexivity|]. by left.
  - simpl.
    destruct (create_answer dk (options_for env session (JS.string_of_Z i)))
      as [cid|msg] eqn:Hc.
    + destruct (start_answer dk cid) as [msg|] eqn:Hs.
      * exists O, []. simpl. rewrite Z.add_0_r.
        split; [lia|]. split; [reflexivity|]. split; [constructor|].
        split; [reflexivity|]. split; [reflexivity|].
        right. exists msg. split; [reflexivity|]. split; [lia|].
        right. by exists cid.
      * destruct (IH (i + 1)
                    {| containers := <[JS.string_of_Z i := cid]> (containers dm);
                       logStreams := logStreams dm |}
                    (launched ++ [ {| agentId := JS.string_of_Z i;
                                      containerId := cid |} ])%list)
          as (n & new & Hn & Hids & Hall & Hcont & Hlog & Hres).
        exists (S n), ({| agentId := JS.string_of_Z i; containerId := cid |} :: new).
        split; [lia|]. split; [by rewrite fmap_cons, Hids|].
        split; [by constructor|]. split; [exact Hcont|]. split; [exact Hlog|].
        destruct Hres as [[Hok ->]|(msg & Hthrow & Hlt & Hwhy)].
        -- left. split; [|reflexivity]. by rewrite Hok, <- app_assoc.
        -- right. exists msg. split; [assumption|]. split; [lia|].
           by replace (i + Z.of_nat (S n)) with (i + 1 + Z.of_nat n) by lia.
    + exists O, []. simpl. rewrite Z.add_0_r.
      split; [lia|]. split; [reflexivity|]. split; [constructor|].
      split; [reflexivity|]. split; [reflexivity|].
      right. exists msg. split; [reflexivity|]. split; [lia|]. by left.
Qed.

(** X19.  [launchAgents] works through the agents 1, 2, ... in order
    and stops at the first error.  Whatever the daemon answers, the
    agents launched before that point, and only they, have been added to
    the containers map, each under its own number and with the container
    the daemon created for it; a session with agentCount [n] and no error
    gets exactly the agents 1 to [n].  The container of the agent whose
    create or start failed is not tracked. *)
Theorem launchAgents_prefix dk env session (dm : DockerManager) :
  let r := fst (launchAgents dk env session dm) in
  let dm' := snd (launchAgents dk env session dm) in
  ∃ (n : nat) (new : list Launched),
    (n ≤ rounds (Session.agentCount session))%nat
    ∧ agentId <$> new = agent_ids 1 n
    ∧ containers dm' = record_all new (containers dm)
    ∧ (∀ l, l ∈ new →
         containers dm' !! agentId l = Some (containerId l)
         ∧ create_answer dk (options_for env session (agentId l))
           = Session.Ok (containerId l))
    ∧ (∀ k, k ∉ agent_ids 1 n → containers dm' !! k = containers dm !! k)
    ∧ ((r = Session.Ok new ∧ n = rounds (Session.agentCount session))
       ∨ (∃ msg, r = Session.Throw msg
                 ∧ (n < rounds (Session.agentCount session))%nat)).
Proof.
  intros r dm'. subst r dm'. unfold launchAgents.
  destruct (launch_loop_spec dk env session
              (rounds (Session.agentCount session)) 1 dm [])
    as (n & new & Hn & Hids & Hall & Hcont & _ & Hres).
  exists n, new. split; [exact Hn|]. split; [exact Hids|].
  split; [exact Hcont|]. split; [|split].
  - intros l Hl. split.
    + rewrite Hcont. apply record_all_in; [|assumption].
      rewrite Hids. apply agent_ids_NoDup.
    + rewrite Forall_forall in Hall. by apply Hall.
  - intros k Hk. rewrite Hcont. apply record_all_notin. by rewrite Hids.
  - destruct Hres as [[Hok ->]|(msg & Hthrow & Hlt & _)].
    + left. by split.
    + right. by exists msg.
Qed.

Lemma launchAgents_prefix_witness :
  ∃ msg, fst (launchAgents MoreSamples.flaky_daemon MoreSamples.sample_env
                MoreSamples.sample_session new_DockerManager)
         = Session.Throw msg
         ∧ containers (snd (launchAgents MoreSamples.flaky_daemon
                              MoreSamples.sample_env MoreSamples.sample_session
                              new_DockerManager)) !! "2"
           = Some "c-tokamak-agent-1fa0007c-2".
Proof.
  destruct (launchAgents_prefix MoreSamples.flaky_daemon MoreSamples.sample_env
              MoreSamples.sample_session new_DockerManager)
    as (n & new & _ & _ & _ & _ & _ & Hres).
  destruct Hres as [[Hok _]|(msg & Hthrow & _)].
  - vm_compute in Hok. discriminate.
  - exists msg. split; [exact Hthrow|]. vm_compute. reflexivity.
Defined.

Lemma strip_controls_plain (s : string) :
  all_chars kept_or_LF (strip_controls s) = true.
Proof.
  induction s as [|c s IH]; simpl; [reflexivity|].
  destruct (nat_of_ascii c <=? 31)%nat eqn:Hc.
  - destruct (Ascii.eqb c "010") eqn:Hn; simpl.
    + rewrite IH, andb_true_r. unfold kept_or_LF. by rewrite Hn, orb_true_r.
    + destruct (Ascii.eqb c "009") eqn:Ht; simpl; [|assumption].
      rewrite IH, andb_true_r. unfold kept_or_LF, kept_char.
      by rewrite Ht, orb_true_r.
  - simpl. rewrite IH, andb_true_r. unfold kept_or_LF, kept_char.
    apply Nat.leb_gt in Hc.
    assert (H32 : (32 <=? nat_of_ascii c)%nat = true) by (apply Nat.leb_le; lia).
    by rewrite H32.
Qed.

Lemma strip_controls_id (s : string) :
  all_chars kept_char s = true → strip_controls s = s.
Proof.
  induction s as [|c s IH]; simpl; [reflexivity|].
  intros H. apply andb_prop in H as [Hc Hs]. rewrite (IH Hs).
  destruct (nat_of_ascii c <=? 31)%nat eqn:Hle; [|reflexivity].
  unfold kept_char in Hc. apply Nat.leb_le in Hle.
  apply orb_prop in Hc as [Hc|Hc]; [apply Nat.leb_le in Hc; lia|].
  by rewrite Hc, orb_true_r.
Qed.

Lemma strip_header_id (s : string) :
  all_chars kept_char s = true → strip_header s = s.
Proof.
  destruct s as [|c s]; simpl; [reflexivity|].
  intros H. apply andb_prop in H as [Hc _].
  destruct (nat_of_ascii c <=? 8)%nat eqn:Hle; [|reflexivity].
  unfold kept_char in Hc. apply Nat.leb_le in Hle.
  apply orb_prop in Hc as [Hc|Hc]; [apply Nat.leb_le in Hc; lia|].
  apply Ascii.eqb_eq in Hc. subst c.
  change (nat_of_ascii "009") with 9%nat in Hle. lia.
Qed.

Lemma all_chars_no_LF (s : string) :
  Watcher.no_char Watcher.LF s = true →
  all_chars kept_or_LF s = true →
  all_chars kept_char s = true.
Proof.
  induction s as [|c s IH]; simpl; [reflexivity|].
  intros Hn Ha. apply andb_prop in Hn as [Hc Hs].
  apply andb_prop in Ha as [Hp Hrest]. rewrite (IH Hs Hrest), andb_true_r.
  apply negb_true_iff in Hc. unfold Watcher.LF in Hc.
  unfold kept_or_LF in Hp. rewrite Hc, orb_false_r in Hp. exact Hp.
Qed.

Lemma split_pieces_no_sep (sep : ascii) (s : string) :
  Forall (λ piece, Watcher.no_char sep piece = true) (JS.split sep s).
Proof.
  induction s as [|c s IH]; simpl; [by repeat constructor|].
  destruct (Ascii.eqb c sep) eqn:Hc; [by constructor|].
  destruct (JS.split sep s) as [|w ws]; [by repeat constructor; simpl; rewrite Hc|].
  apply Forall_cons in IH as [Hw Hws]. constructor; [|assumption].
  simpl. by rewrite Hc, Hw.
Qed.

Lemma strip_controls_no_LF (s : string) :
  Watcher.no_char Watcher.LF s = true →
  Watcher.no_char Watcher.LF (strip_controls s) = true.
Proof.
  induction s as [|c s IH]; simpl; [reflexivity|].
  intros H. apply andb_prop in H as [Hc Hs]. specialize (IH Hs).
  destruct (nat_of_ascii c <=? 31)%nat.
  - destruct (Ascii.eqb c "010" || Ascii.eqb c "009"); [|assumption].
    simpl. by rewrite Hc, IH.
  - simpl. by rewrite Hc, IH.
Qed.

Lemma strip_header_no_LF (s : string) :
  Watcher.no_char Watcher.LF s = true →
  Watcher.no_char Watcher.LF (strip_header s) = true.
Proof.
  destruct s as [|c s]; simpl; [reflexivity|].
  intros H. destruct (nat_of_ascii c <=? 8)%nat; [|assumption].
  by apply andb_prop in H as [_ Hs].
Qed.

Lemma all_chars_trimStart_unicode (p : ascii → bool) (n : nat) :
  ∀ s, (String.length s ≤ n)%nat → all_chars p s = true →
       all_chars p (JS.trimStart_unicode s) = true.
Proof.
  induction n as [|n IH]; intros s Hlen H.
  - destruct s; [reflexivity|simpl in Hlen; lia].
  - destruct s as [|c r]; [reflexivity|].
    simpl in Hlen. pose proof H as Hall. simpl in H.
    apply andb_prop in H as [_ Hr].
    cbn [JS.trimStart_unicode].
    destruct (JS.is_space c); [apply IH; [lia|assumption]|].
    destruct r as [|d r1]; [assumption|].
    simpl in Hlen, Hr. apply andb_prop in Hr as [_ Hr1].
    destruct (JS.nbsp c d); [apply IH; [lia|assumption]|].
    destruct r1 as [|e r2]; [assumption|].
    simpl in Hlen, Hr1. apply andb_prop in Hr1 as [_ Hr2].
    destruct (JS.wide_space c d e); [apply IH; [lia|assumption]|assumption].
Qed.

Lemma all_chars_trimEnd_unicode (p : ascii → bool) (s : string) :
  all_chars p s = true → all_chars p (JS.trimEnd_unicode s) = true.
Proof.
  induction s as [|c s IH]; [done|].
  intros H. simpl in H. apply andb_prop in H as [Hc Hs]. specialize (IH Hs).
  cbn [JS.trimEnd_unicode].
  destruct (JS.one_space (String c (JS.trimEnd_unicode s))); [reflexivity|].
  simpl. by rewrite Hc, IH.
Qed.

Lemma all_chars_trim_unicode (p : ascii → bool) (s : string) :
  all_chars p s = true → all_chars p (JS.trim_unicode s) = true.
Proof.
  intros H. unfold JS.trim_unicode.
  by apply all_chars_trimEnd_unicode,
           (all_chars_trimStart_unicode p (String.length s)).
Qed.

Lemma trim_unicode_blank (s : string) :
  all_chars JS.is_space s = true → JS.trim_unicode s = "".
Proof.
  intros H. unfold JS.trim_unicode.
  assert (Hs : JS.trimStart_unicode s = "").
  { induction s as [|c s IH]; [reflexivity|].
    simpl in H. apply andb_prop in H as [Hc Hs].
    cbn [JS.trimStart_unicode]. rewrite Hc. by apply IH. }
  by rewrite Hs.
Qed.

Lemma all_chars_split (p : ascii → bool) (sep : ascii) (s : string) :
  all_chars p s = true →
  Forall (λ piece, all_chars p piece = true) (JS.split sep s).
Proof.
  induction s as [|c s IH]; simpl; [by repeat constructor|].
  intros H. apply andb_prop in H as [Hc Hs]. specialize (IH Hs).
  destruct (Ascii.eqb c sep); [by constructor|].
  destruct (JS.split sep s) as [|w ws];
    [by repeat constructor; simpl; rewrite Hc|].
  apply Forall_cons in IH as [Hw Hws]. constructor; [|assumption].
  simpl. by rewrite Hc, Hw.
Qed.

Lemma strip_header_keeps (p : ascii → bool) (s : string) :
  all_chars p s = true → all_chars p (strip_header s) = true.
Proof.
  destruct s as [|c s]; simpl; [done|].
  intros H. destruct (nat_of_ascii c <=? 8)%nat; [|assumption].
  by apply andb_prop in H as [_ Hs].
Qed.

Lemma blank_kept_is_space (c : ascii) :
  blank_char c = true → kept_or_LF c = true → JS.is_space c = true.
Proof.
  unfold blank_char, kept_or_LF, kept_char, JS.is_space.
  intros Hb Hk. apply Nat.leb_le in Hb.
  apply orb_prop in Hk as [Hk|Hk]; [apply orb_prop in Hk as [Hk|Hk]|].
  - apply Nat.leb_le in Hk.
    assert (Heq : (nat_of_ascii c =? 32)%nat = true) by (apply Nat.eqb_eq; lia).
    by rewrite Heq, orb_true_r.
  - apply Ascii.eqb_eq in Hk. by subst c.
  - apply Ascii.eqb_eq in Hk. by subst c.
Qed.

Lemma strip_controls_blank (s : string) :
  all_chars blank_char s = true →
  all_chars JS.is_space (strip_controls s) = true.
Proof.
  intros Hb. pose proof (strip_controls_plain s) as Hk. revert Hb Hk.
  induction s as [|c s IH]; simpl; [done|].
  intros Hb. apply andb_prop in Hb as [Hc Hs].
  destruct (nat_of_ascii c <=? 31)%nat.
  - destruct (Ascii.eqb c "010" || Ascii.eqb c "009"); [|by apply IH].
    simpl. intros Hk. apply andb_prop in Hk as [Hkc Hks].
    by rewrite (blank_kept_is_space c Hc Hkc), (IH Hs Hks).
  - simpl. intros Hk. apply andb_prop in Hk as [Hkc Hks].
    by rewrite (blank_kept_is_space c Hc Hkc), (IH Hs Hks).
Qed.

Lemma kept_no_LF (s : string) :
  all_chars kept_char s = true → Watcher.no_char Watcher.LF s = true.
Proof.
  induction s as [|c s IH]; simpl; [done|].
  intros H. apply andb_prop in H as [Hc Hs]. rewrite (IH Hs), andb_true_r.
  apply negb_true_iff. destruct (Ascii.eqb_spec c Watcher.LF) as [->|_];
    [discriminate Hc|reflexivity].
Qed.

(** X20.  For a chunk whose decoded text is [text]: every line handed
    to the log callback is non-empty and
    contains no character below U+0020 other than tab (DEL and
    characters beyond ASCII pass), and there are at most as many calls
    as the text has non-empty pieces between line feeds.  A chunk that
    is one line without such control characters is passed on trimmed,
    and otherwise as it is, unless trimming leaves nothing; a chunk made
    only of control characters and spaces produces no call. *)
Theorem log_lines_are_clean (text : string) :
  (∀ l, l ∈ log_lines text →
        JS.truthy l = true ∧ all_chars kept_char l = true)
  ∧ (length (log_lines text)
     ≤ length (List.filter JS.truthy (JS.split Watcher.LF text)))%nat
  ∧ (all_chars kept_char text = true →
     log_lines text = if JS.truthy (JS.trim_unicode text)
                      then [JS.trim_unicode text] else [])
  ∧ (all_chars blank_char text = true → log_lines text = []).
Proof.
  split; [|split; [|split]].
  - intros l Hl. unfold log_lines in Hl.
    apply list_elem_of_In, List.in_flat_map in Hl as (line & Hline & Hl).
    apply List.filter_In in Hline as [Hline _].
    destruct (JS.truthy (JS.trim_unicode (clean_line line))) eqn:Ht;
      [|by destruct Hl].
    destruct Hl as [<-|[]]. split; [exact Ht|].
    assert (Hn : Watcher.no_char Watcher.LF line = true).
    { pose proof (split_pieces_no_sep Watcher.LF text) as Hall.
      rewrite Forall_forall in Hall. by apply Hall, list_elem_of_In. }
    apply all_chars_trim_unicode.
    apply all_chars_no_LF; [|apply strip_controls_plain].
    by apply strip_controls_no_LF, strip_header_no_LF.
  - unfold log_lines.
    induction (List.filter JS.truthy (JS.split Watcher.LF text))
      as [|x ls IH]; simpl; [lia|].
    rewrite length_app. destruct (JS.truthy _); simpl; lia.
  - intros Hk. unfold log_lines.
    rewrite (split_no_sep _ _ (kept_no_LF _ Hk)). simpl.
    destruct text as [|c r] eqn:Htext; [reflexivity|].
    rewrite <- Htext in *. simpl.
    assert (Ht : JS.truthy text = true) by (by rewrite Htext).
    rewrite Ht. simpl. rewrite app_nil_r. unfold clean_line.
    by rewrite (strip_header_id _ Hk), (strip_controls_id _ Hk).
  - intros Hb. unfold log_lines.
    pose proof (all_chars_split blank_char Watcher.LF text Hb) as Hall.
    induction (JS.split Watcher.LF text) as [|x ls IH]; [reflexivity|].
    apply Forall_cons in Hall as [Hx Hls]. simpl.
    destruct (JS.truthy x); [|by apply IH]. simpl.
    rewrite (IH Hls), app_nil_r. unfold clean_line.
    rewrite (trim_unicode_blank (strip_controls (strip_header x))); [done|].
    by apply strip_controls_blank, strip_header_keeps.
Qed.

Lemma log_lines_are_clean_witness :
  log_lines "  ready	in 3s " = ["ready	in 3s"].
Proof.
  rewrite (proj1 (proj2 (proj2 (log_lines_are_clean "  ready	in 3s "))) eq_refl).
  reflexivity.
Defined.

End DockerFacts.

(* ===================================================================== *)
(** * server.js: the replies of POST /api/forge *)
(* ===================================================================== *)

Section ServerMore.

Import Session Server.

Lemma getActive_created gameName n rnd now (m : SessionManager) :
  getActive m = None →
  getActive (snd (create gameName n rnd now m))
  = Some (new_Session gameName n rnd now).
Proof.
  intros H. destruct (create_succeeds gameName n rnd now m H) as [_ ->].
  unfold getActive. cbn [activeSessionId sessions].
  rewrite toHex_truthy, lookup_insert_eq. reflexivity.
Qed.



Lemma name_chars_exclude (c : ascii) (g : string) :
  name_char c = false → all_name_chars g = true → Watcher.no_char c g = true.
Proof.
  intros Hc. induction g as [|x g IH]; [reflexivity|].
  simpl. intros [Hx Hg]%andb_true_iff. rewrite (IH Hg), andb_true_r.
  destruct (Ascii.eqb_spec x c) as [->|_]; [congruence|reflexivity].
Qed.

(** X22.  The game name of a session the endpoint created is the string
    the body gave, it is not empty, and it holds no path separator, dot,
    blank, quote, dollar sign, backquote, backslash, line feed or other
    shell metacharacter of the list [unsafe_chars]: none of the
    characters that would change the meaning of the paths and quoted
    commands forge.js builds from it. *)
Theorem accepted_names_are_safe (body : Body) (rnd : Bytes4) (now : Z)
    (m : SessionManager) (s : Session) :
  fst (post_forge body rnd now m) = Reply200 s →
  body_gameName body = Some (VString (gameName s))
  ∧ gameName s ≠ ""
  ∧ Forall (λ c, Watcher.no_char c (gameName s) = true)
      Dashboard.unsafe_chars.
Proof.
  unfold post_forge.
  destruct (body_gameName body) as [[| | |g|]|]; try discriminate.
  destruct (JS.truthy g) eqn:Ht; [|discriminate]. cbn [negb].
  destruct (valid_gameName g) eqn:Hv; [|discriminate]. cbn [negb].
  unfold create. destruct (blocking m); [discriminate|].
  cbn [fst]. intros [= <-]. cbn [gameName new_Session].
  split; [reflexivity|]. split; [by apply truthy_true|].
  apply andb_true_iff in Hv as [_ Hall].
  unfold Dashboard.unsafe_chars.
  repeat (apply Forall_cons_2;
          [apply name_chars_exclude; [reflexivity|assumption]|]).
  apply Forall_nil_2.
Qed.

Lemma accepted_names_are_safe_witness :
  let body := {| body_gameName := Some (VString "space-rocks_2");
                 body_agentCount := None; body_gameDescription := None |} in
  let s := new_Session "space-rocks_2" (JS.Num 3) Samples.sample_bytes 1700 in
  Forall (λ c, Watcher.no_char c "space-rocks_2" = true) Dashboard.unsafe_chars.
Proof.
  intros body s.
  assert (H : fst (post_forge body Samples.sample_bytes 1700 new_SessionManager)
              = Reply200 s) by (vm_compute; reflexivity).
  exact (proj2 (proj2 (accepted_names_are_safe body Samples.sample_bytes 1700
                         new_SessionManager s H))).
Defined.

End ServerMore.

(* ===================================================================== *)
(** * forge.js and server.js: a forge from request to running agents *)
(* ===================================================================== *)

Ltac session_fields :=
  cbn [Dashboard.session Dashboard.written Dashboard.sent Dashboard.send
       Dashboard.update Dashboard.write_log Dashboard.logForge
       Dashboard.failed Dashboard.forged Dashboard.manager_after
       Dashboard.watcher_after Dashboard.with_paths
       Dashboard.with_containerIds
       Session.setStatus Session.setForgeStep Session.with_status
       Session.with_forgeStep Session.with_logs Session.addLog
       Session.toJSON snd fst
       Session.id Session.gameName Session.agentCount Session.status
       Session.repoPath Session.workDir Session.logs Session.forgeStep
       Session.forgeSteps Session.containerIds Session.createdAt].

Ltac session_fields_all :=
  cbn [Dashboard.session Dashboard.written Dashboard.sent Dashboard.send
       Dashboard.update Dashboard.write_log Dashboard.logForge
       Dashboard.failed Dashboard.forged Dashboard.manager_after
       Dashboard.watcher_after Dashboard.with_paths
       Dashboard.with_containerIds
       Session.setStatus Session.setForgeStep Session.with_status
       Session.with_forgeStep Session.with_logs Session.addLog
       Session.toJSON snd fst
       Session.id Session.gameName Session.agentCount Session.status
       Session.repoPath Session.workDir Session.logs Session.forgeStep
       Session.forgeSteps Session.containerIds Session.createdAt] in *.

Section ForgeFacts.

Import Session Forge Dashboard.

Lemma step_numbers_app (ps qs : list Progress) :
  step_numbers (ps ++ qs) = (step_numbers ps ++ step_numbers qs)%list.
Proof. apply omap_app. Qed.

Lemma step_numbers_reports (l : list Report) :
  step_numbers (progress_of <$> l) = [].
Proof.
  induction l as [|[m|c] l IH]; [reflexivity| |]; exact IH.
Qed.

Lemma reports_not_final (l : list Report) :
  Forall (λ q, is_final q = false) (progress_of <$> l).
Proof.
  induction l as [|[m|c] l IH]; [constructor| |]; by constructor.
Qed.

Lemma run_steps_not_final (todo : list (Z * string * StepRun)) :
  Forall (λ q, is_final q = false) (fst (run_steps todo)).
Proof.
  induction todo as [|[[n msg] sr] todo IH]; [constructor|].
  simpl. destruct (thrown sr); cbn [fst].
  - constructor; [reflexivity|apply reports_not_final].
  - constructor; [reflexivity|].
    apply Forall_app. split; [apply reports_not_final|exact IH].
Qed.

(** What [run_steps] announces and returns, by the step that throws
    first. *)
Lemma run_steps_spec (todo : list (Z * string * StepRun)) :
  match first_failure todo with
  | None =>
      snd (run_steps todo) = None
      ∧ step_numbers (fst (run_steps todo)) = (λ t, fst (fst t)) <$> todo
  | Some k =>
      ∃ pre msg sr post e,
        todo = (pre ++ (k, msg, sr) :: post)%list
        ∧ thrown sr = Some e
        ∧ snd (run_steps todo) = Some e
        ∧ step_numbers (fst (run_steps todo))
          = (((λ t, fst (fst t)) <$> pre) ++ [k])%list
  end.
Proof.
  induction todo as [|[[n msg] sr] todo IH]; [by split|].
  simpl. destruct (thrown sr) as [e|] eqn:Hsr.
  - exists [], msg, sr, todo, e. cbn [fst snd].
    split; [reflexivity|]. split; [assumption|]. split; [reflexivity|].
    unfold step_numbers. cbn [omap list_omap step_number].
    fold (step_numbers (progress_of <$> reported sr)).
    by rewrite step_numbers_reports.
  - cbn [fst snd].
    assert (Hnum : step_numbers
                     (step n msg :: (progress_of <$> reported sr)
                        ++ fst (run_steps todo))
                   = n :: step_numbers (fst (run_steps todo))).
    { change (step n msg :: (progress_of <$> reported sr)
                ++ fst (run_steps todo))%list
        with ([step n msg] ++ (progress_of <$> reported sr)
                ++ fst (run_steps todo))%list.
      by rewrite !step_numbers_app, step_numbers_reports. }
    destruct (first_failure todo) as [k|].
    + destruct IH as (pre & msg' & sr' & post & e & -> & Hthrown & Hsnd & Hn).
      exists ((n, msg, sr) :: pre), msg', sr', post, e.
      split; [reflexivity|]. split; [assumption|]. split; [assumption|].
      rewrite Hnum, Hn. reflexivity.
    + destruct IH as [Hsnd Hn]. split; [assumption|].
      rewrite Hnum, Hn. reflexivity.
Qed.

(** The two ways [run] ends. *)
Lemma run_cases (g : string) (p : Pipeline) :
  (first_failure (steps p) = None
   ∧ snd (run g p) = Ok (repoPath_of g, projectDir_of g)
   ∧ ∃ body,
       fst (run g p) = (body ++ [complete (repoPath_of g) (projectDir_of g)])%list
       ∧ Forall (λ q, is_final q = false) body
       ∧ step_numbers body = [0; 1; 2; 3; 4; 5])
  ∨ (∃ k e,
       first_failure (steps p) = Some k
       ∧ 0 ≤ k ≤ 5
       ∧ snd (run g p) = Throw e
       ∧ (∃ msg sr, (k, msg, sr) ∈ steps p ∧ thrown sr = Some e)
       ∧ ∃ body,
           fst (run g p) = (body ++ [error e])%list
           ∧ Forall (λ q, is_final q = false) body
           ∧ step_numbers body = Z.of_nat <$> seq 0 (Z.to_nat k + 1)).
Proof.
  pose proof (run_steps_spec (steps p)) as Hspec.
  pose proof (run_steps_not_final (steps p)) as Hnf.
  unfold run.
  destruct (run_steps (steps p)) as [ps r]. cbn [fst snd] in Hspec, Hnf.
  destruct (first_failure (steps p)) as [k|] eqn:Hff.
  - right. destruct Hspec as (pre & msg & sr & post & e & Hsteps & Hthrown
                              & -> & Hn).
    exists k, e. cbn [fst snd].
    assert (Hin : (k, msg, sr) ∈ steps p).
    { rewrite Hsteps. apply elem_of_app. right. apply list_elem_of_here. }
    assert (Hk : 0 ≤ k ≤ 5 ∧ (λ t, fst (fst t)) <$> pre
                               = Z.of_nat <$> seq 0 (Z.to_nat k)).
    { unfold steps in Hsteps.
      destruct pre as [|t0 pre]; simplify_eq/=; [by split; [lia|]|].
      destruct pre as [|t1 pre]; simplify_eq/=; [by split; [lia|]|].
      destruct pre as [|t2 pre]; simplify_eq/=; [by split; [lia|]|].
      destruct pre as [|t3 pre]; simplify_eq/=; [by split; [lia|]|].
      destruct pre as [|t4 pre]; simplify_eq/=; [by split; [lia|]|].
      destruct pre as [|t5 pre]; simplify_eq/=; [by split; [lia|]|].
      destruct pre; discriminate. }
    destruct Hk as [Hk Hpre].
    split; [reflexivity|]. split; [assumption|]. split; [reflexivity|].
    split; [by exists msg, sr|].
    exists ps. split; [reflexivity|]. split; [assumption|].
    rewrite Hn, Hpre.
    replace (Z.to_nat k + 1)%nat with (S (Z.to_nat k)) by lia.
    rewrite seq_S, fmap_app. simpl. by rewrite Z2Nat.id by lia.
  - left. destruct Hspec as [-> Hn]. cbn [fst snd].
    split; [reflexivity|]. split; [reflexivity|].
    exists ps. split; [reflexivity|]. split; [assumption|]. exact Hn.
Qed.

(** X23.  [run] announces the steps in order from 0, stops at the first
    step that throws, and ends with exactly one final report, which is
    its last: 'complete' with the two paths built from the game name
    when all six steps went through (and then it returns those paths),
    'error' with the message of the step that threw (and then it throws
    that error again).  No step after the failing one is announced.
    (The name is one the server lets through, for which the paths are
    plain concatenations.) *)
Theorem run_reports (g : string) (p : Pipeline) :
  Server.valid_gameName g = true →
  ∃ body final,
    fst (run g p) = (body ++ [final])%list
    ∧ Forall (λ q, is_final q = false) body
    ∧ match first_failure (steps p) with
      | None =>
          step_numbers body = [0; 1; 2; 3; 4; 5]
          ∧ final = complete (repoPath_of g) (projectDir_of g)
          ∧ snd (run g p) = Ok (repoPath_of g, projectDir_of g)
      | Some k =>
          0 ≤ k ≤ 5
          ∧ step_numbers body = Z.of_nat <$> seq 0 (Z.to_nat k + 1)
          ∧ ∃ e msg sr,
              (k, msg, sr) ∈ steps p ∧ thrown sr = Some e
              ∧ final = error e
              ∧ snd (run g p) = Throw e
      end.
Proof.
  intros _.
  destruct (run_cases g p)
    as [(Hff & Hr & body & Hps & Hnf & Hn)
       |(k & e & Hff & Hk & Hr & (msg & sr & Hin & Hthrown)
         & body & Hps & Hnf & Hn)]; rewrite Hff.
  - exists body, (complete (repoPath_of g) (projectDir_of g)).
    by repeat split.
  - exists body, (error e).
    split; [assumption|]. split; [assumption|]. split; [assumption|].
    split; [assumption|]. by exists e, msg, sr.
Qed.

Lemma run_reports_witness :
  snd (run "tetris" MoreSamples.working_pipeline)
  = Ok ("/tmp/tokamak-forge-repos/tetris.git",
        "/tmp/tokamak-forge-work/tetris/project").
Proof.
  destruct (run_reports "tetris" MoreSamples.working_pipeline eq_refl)
    as (body & final & _ & _ & Hm).
  change (first_failure (steps MoreSamples.working_pipeline))
    with (@None Z) in Hm.
  exact (proj2 (proj2 Hm)).
Defined.

End ForgeFacts.

Section RunForgeFacts.

Import Session Forge Dashboard.

Lemma updateCommits_repoPath wd (w : Watcher.RepoWatcher) :
  Watcher.repoPath (fst (Watcher.updateCommits wd w)) = Watcher.repoPath w.
Proof.
  unfold Watcher.updateCommits.
  destruct (negb (JS.truthy _)); [reflexivity|].
  destruct (head _) as [c0|]; [|reflexivity].
  destruct (Watcher.head_changed _ _); reflexivity.
Qed.

Lemma poll_repoPath wd (w : Watcher.RepoWatcher) :
  Watcher.repoPath (fst (Watcher.poll wd w)) = Watcher.repoPath w.
Proof.
  rewrite <- (updateCommits_repoPath wd w). poll_field.
Qed.

(** The fields of the session that only [runForge] itself writes. *)
Lemma onProgress_fields (c : nat → Z) (r : Run) (p : Progress) :
  id (session (onProgress c r p)) = id (session r)
  ∧ gameName (session (onProgress c r p)) = gameName (session r)
  ∧ agentCount (session (onProgress c r p)) = agentCount (session r)
  ∧ repoPath (session (onProgress c r p)) = repoPath (session r)
  ∧ workDir (session (onProgress c r p)) = workDir (session r)
  ∧ containerIds (session (onProgress c r p)) = containerIds (session r).
Proof. destruct p; repeat split; reflexivity. Qed.

Lemma onProgress_status (c : nat → Z) (r : Run) (p : Progress) :
  status (session (onProgress c r p))
  = from_option status_for_step (status (session r)) (step_number p)
  ∧ forgeStep (session (onProgress c r p))
    = default (forgeStep (session r)) (step_number p).
Proof. destruct p; split; reflexivity. Qed.

Lemma fold_onProgress_fields (c : nat → Z) (ps : list Progress) (r : Run) :
  id (session (foldl (onProgress c) r ps)) = id (session r)
  ∧ gameName (session (foldl (onProgress c) r ps)) = gameName (session r)
  ∧ agentCount (session (foldl (onProgress c) r ps)) = agentCount (session r)
  ∧ repoPath (session (foldl (onProgress c) r ps)) = repoPath (session r)
  ∧ workDir (session (foldl (onProgress c) r ps)) = workDir (session r)
  ∧ containerIds (session (foldl (onProgress c) r ps))
    = containerIds (session r).
Proof.
  revert r. induction ps as [|p ps IH]; intros r; [by repeat split|].
  simpl. destruct (IH (onProgress c r p)) as (-> & -> & -> & -> & -> & ->).
  apply onProgress_fields.
Qed.

Lemma fold_onProgress_status (c : nat → Z) (ps : list Progress) (r : Run) :
  status (session (foldl (onProgress c) r ps))
  = from_option status_for_step (status (session r)) (last (step_numbers ps))
  ∧ forgeStep (session (foldl (onProgress c) r ps))
    = default (forgeStep (session r)) (last (step_numbers ps)).
Proof.
  induction ps as [|p ps IH] using rev_ind; [by split|].
  rewrite foldl_snoc, step_numbers_app.
  destruct (onProgress_status c (foldl (onProgress c) r ps) p) as [-> ->].
  destruct IH as [-> ->].
  destruct p; cbn [step_number step_numbers omap list_omap from_option default];
    rewrite ?app_nil_r, ?last_snoc; split; reflexivity.
Qed.

Lemma fold_watcher_event (evs : list Watcher.Event) (r : Run) :
  session (foldl watcher_event r evs) = session r
  ∧ shown_ranks (sent (foldl watcher_event r evs)) = shown_ranks (sent r).
Proof.
  revert r. induction evs as [|e evs IH]; intros r; [by split|].
  simpl. destruct (IH (watcher_event r e)) as [-> ->].
  split; [reflexivity|].
  unfold watcher_event, shown_ranks. cbn [sent].
  rewrite omap_app. cbn [omap list_omap shown fmap option_fmap option_map].
  by rewrite app_nil_r.
Qed.

Lemma fold_logForge_fields {A} (c : nat → Z) (line : A → string)
    (l : list A) (r : Run) :
  let r' := foldl (λ r x, logForge c (line x) r) r l in
  id (session r') = id (session r)
  ∧ gameName (session r') = gameName (session r)
  ∧ agentCount (session r') = agentCount (session r)
  ∧ status (session r') = status (session r)
  ∧ forgeStep (session r') = forgeStep (session r)
  ∧ repoPath (session r') = repoPath (session r)
  ∧ workDir (session r') = workDir (session r)
  ∧ containerIds (session r') = containerIds (session r).
Proof.
  revert r. induction l as [|x l IH]; intros r; [by repeat split|].
  simpl.
  destruct (IH (logForge c (line x) r))
    as (-> & -> & -> & -> & -> & -> & -> & ->).
  by repeat split.
Qed.

(** [launchAgents] reads four fields of the session. *)
Lemma launchAgents_ext dk env (s1 s2 : Session) (dm : Docker.DockerManager) :
  id s1 = id s2 → gameName s1 = gameName s2 →
  agentCount s1 = agentCount s2 → repoPath s1 = repoPath s2 →
  Docker.launchAgents dk env s1 dm = Docker.launchAgents dk env s2 dm.
Proof.
  intros Hid Hg Hn Hr. unfold Docker.launchAgents. rewrite Hn.
  generalize (Docker.rounds (agentCount s2)) as todo.
  generalize 1 as i. generalize (@nil Docker.Launched) as launched.
  revert dm. intros dm launched i todo.
  revert dm launched i.
  induction todo as [|todo IH]; intros dm launched i; [reflexivity|].
  simpl.
  assert (Hopt : Docker.options_for env s1 (JS.string_of_Z i)
                 = Docker.options_for env s2 (JS.string_of_Z i))
    by (unfold Docker.options_for; by rewrite Hid, Hg, Hr).
  rewrite Hopt.
  destruct (Docker.create_answer dk _) as [cid|msg]; [|reflexivity].
  destruct (Docker.start_answer dk cid); [reflexivity|]. apply IH.
Qed.

Lemma last_step_numbers (k : Z) :
  0 ≤ k → last (Z.of_nat <$> seq 0 (Z.to_nat k + 1)) = Some k.
Proof.
  intros Hk. replace (Z.to_nat k + 1)%nat with (S (Z.to_nat k)) by lia.
  rewrite seq_S, fmap_app.
  change (Z.of_nat <$> [(0 + Z.to_nat k)%nat])
    with [Z.of_nat (0 + Z.to_nat k)].
  rewrite last_snoc. f_equal. lia.
Qed.

(** The four ways [runForge] ends: a step of the pipeline throws, the
    image build fails, the launch fails, or the agents run. *)
Lemma runForge_cases (fw : ForgeWorld) (s : Session)
    (dm : Docker.DockerManager) :
  let g := gameName s in
  let f := runForge fw s dm in
  let s' := session (forged f) in
  let launch := Docker.launchAgents (daemon fw) (environment fw)
                  (with_paths (repoPath_of g) (projectDir_of g) s) dm in
  (id s' = id s ∧ gameName s' = g ∧ agentCount s' = agentCount s)
  ∧ ((∃ k, first_failure (steps (pipeline fw)) = Some k
           ∧ 0 ≤ k ≤ 5
           ∧ status s' = STOPPED ∧ forgeStep s' = k
           ∧ repoPath s' = repoPath s ∧ workDir s' = workDir s
           ∧ containerIds s' = containerIds s
           ∧ manager_after f = dm ∧ watcher_after f = None)
     ∨ (first_failure (steps (pipeline fw)) = None
        ∧ forgeStep s' = 6
        ∧ repoPath s' = Some (repoPath_of g)
        ∧ workDir s' = Some (projectDir_of g)
        ∧ ((∃ e, build_error fw = Some e
                 ∧ status s' = STOPPED
                 ∧ containerIds s' = containerIds s
                 ∧ manager_after f = dm ∧ watcher_after f = None)
           ∨ (build_error fw = None
              ∧ manager_after f = snd launch
              ∧ ((∃ e, fst launch = Throw e
                       ∧ status s' = STOPPED
                       ∧ containerIds s' = containerIds s
                       ∧ watcher_after f = None)
                 ∨ (∃ agents w,
                      fst launch = Ok agents
                      ∧ status s' = RUNNING
                      ∧ containerIds s' = Docker.containerId <$> agents
                      ∧ watcher_after f = Some w
                      ∧ Watcher.repoPath w = projectDir_of g)))))).
Proof.
  intros g f s' launch. subst f s' launch. unfold runForge.
  pose proof (fold_onProgress_fields (clock fw)
                (fst (run (gameName s) (pipeline fw)))
                {| session := s; written := O; sent := [] |}) as Hfields.
  pose proof (fold_onProgress_status (clock fw)
                (fst (run (gameName s) (pipeline fw)))
                {| session := s; written := O; sent := [] |}) as Hstatus.
  cbn [session] in Hfields, Hstatus.
  destruct Hfields as (Hid & Hg & Hn & Hrp & Hwd & Hcids).
  destruct Hstatus as [Hst Hfs].
  destruct (run_cases (gameName s) (pipeline fw))
    as [(Hff & Hr & body & Hps & _ & Hnum)
       |(k & e & Hff & Hk & Hr & _ & body & Hps & _ & Hnum)].
  2:{ destruct (run (gameName s) (pipeline fw)) as [reports result].
      cbn [fst snd] in *. subst result reports.
      rewrite step_numbers_app, Hnum in Hfs.
      cbn [step_numbers omap list_omap step_number] in Hfs.
      rewrite app_nil_r, last_step_numbers in Hfs by lia.
      cbn [default] in Hfs.
      session_fields.
      split; [by repeat split|]. left. exists k.
      by repeat (split; [first [assumption|reflexivity|lia]|]). }
  destruct (run (gameName s) (pipeline fw)) as [reports result].
  cbn [fst snd] in *. subst result. fold g.
  set (r1 := foldl (onProgress (clock fw))
               {| session := s; written := O; sent := [] |} reports) in *.
  pose proof (poll_repoPath (first_poll fw)
                (Watcher.new_RepoWatcher (projectDir_of g))) as Hw.
  destruct (Watcher.poll (first_poll fw)
              (Watcher.new_RepoWatcher (projectDir_of g))) as [w events].
  cbn [fst Watcher.repoPath Watcher.new_RepoWatcher] in Hw.
  destruct (fold_watcher_event events
              (update (with_paths (repoPath_of g) (projectDir_of g)) r1))
    as [Hev _].
  set (r3 := foldl watcher_event
               (update (with_paths (repoPath_of g) (projectDir_of g)) r1)
               events) in *.
  cbn [session update] in Hev.
  destruct (build_error fw) as [e|] eqn:Hbuild.
  { session_fields. rewrite !Hev. session_fields.
    split; [by repeat split|]. right.
    split; [assumption|]. split; [reflexivity|]. split; [reflexivity|].
    split; [reflexivity|]. left. exists e. by repeat split. }
  match goal with
  | |- context [Docker.launchAgents ?dk ?env ?s7 dm] =>
      assert (Hext : Docker.launchAgents dk env s7 dm
                     = Docker.launchAgents dk env
                         (with_paths (repoPath_of g) (projectDir_of g) s) dm)
        by (apply launchAgents_ext; session_fields; rewrite !Hev;
            session_fields; assumption || reflexivity || idtac);
      rewrite Hext; clear Hext
  end.
  destruct (Docker.launchAgents (daemon fw) (environment fw)
              (with_paths (repoPath_of g) (projectDir_of g) s) dm)
    as [[agents|e] dm'].
  - match goal with
    | |- context [foldl ?fn ?r7 agents] =>
        destruct (fold_logForge_fields (clock fw) started_line agents r7)
          as (Fid & Fg & Fn & Fst & Ffs & Frp & Fwd & Fcids);
        set (r8 := foldl fn r7 agents) in *
    end.
    session_fields_all.
    rewrite ?Hev in Fid, Fg, Fn, Frp, Fwd.
    session_fields_all.
    rewrite Fid, Fg, Fn, Ffs, Frp, Fwd.
    split; [by repeat split|]. right.
    split; [assumption|]. split; [reflexivity|]. split; [reflexivity|].
    split; [reflexivity|]. right. split; [reflexivity|].
    split; [reflexivity|]. right. exists agents, w. by repeat split.
  - session_fields. rewrite !Hev. session_fields.
    split; [by repeat split|]. right.
    split; [assumption|]. split; [reflexivity|]. split; [reflexivity|].
    split; [reflexivity|]. right. split; [reflexivity|].
    split; [reflexivity|]. left. exists e. by repeat split.
Qed.

(** X24.  A forge during which no other request is handled ends in one
    of two statuses.  The session is
    'running' exactly when no step of the pipeline threw, the image was
    built and every container was created and started; it then stands
    at step 6, carries the two paths built from its game name and the
    ids of the launched containers, and the watcher watches its working
    copy.  In every other case it is 'stopped', no watcher is left and
    its container ids are as they were.  Id, game name and agent count
    are never touched.  (The session's name is one the server lets
    through.) *)
Theorem runForge_outcome (fw : ForgeWorld) (s : Session)
    (dm : Docker.DockerManager) :
  Server.valid_gameName (gameName s) = true →
  let g := gameName s in
  let f := runForge fw s dm in
  let s' := session (forged f) in
  let launch := Docker.launchAgents (daemon fw) (environment fw)
                  (with_paths (repoPath_of g) (projectDir_of g) s) dm in
  let succeeded := first_failure (steps (pipeline fw)) = None
                   ∧ build_error fw = None
                   ∧ ∃ agents, fst launch = Ok agents in
  (id s' = id s ∧ gameName s' = g ∧ agentCount s' = agentCount s)
  ∧ (status s' = RUNNING ∨ status s' = STOPPED)
  ∧ (status s' = RUNNING ↔ succeeded)
  ∧ (status s' = RUNNING →
       forgeStep s' = 6
       ∧ repoPath s' = Some (repoPath_of g)
       ∧ workDir s' = Some (projectDir_of g)
       ∧ manager_after f = snd launch
       ∧ (∃ agents, fst launch = Ok agents
                    ∧ containerIds s' = Docker.containerId <$> agents)
       ∧ ∃ w, watcher_after f = Some w
              ∧ Watcher.repoPath w = projectDir_of g)
  ∧ (status s' = STOPPED →
       watcher_after f = None ∧ containerIds s' = containerIds s).
Proof.
  intros _ g f s' launch succeeded.
  destruct (runForge_cases fw s dm) as [Hsame Hcases].
  fold g f s' launch in Hsame, Hcases. split; [exact Hsame|].
  assert (Hne : RUNNING ≠ STOPPED) by discriminate.
  destruct Hcases
    as [(k & Hff & Hk & Hst & Hfs & Hrp & Hwd & Hcids & Hdm & Hw)
       |(Hff & Hfs & Hrp & Hwd
         & [(e & Hb & Hst & Hcids & Hdm & Hw)
           |(Hb & Hdm
             & [(e & Hl & Hst & Hcids & Hw)
               |(agents & w & Hl & Hst & Hcids & Hw & Hwp)])])].
  - split; [by right|].
    split; [split; [congruence|intros (Hff' & _); congruence]|].
    split; [congruence|]. by intros _.
  - split; [by right|].
    split; [split; [congruence|intros (_ & Hb' & _); congruence]|].
    split; [congruence|]. by intros _.
  - split; [by right|].
    split; [split; [congruence|intros (_ & _ & a & Ha); congruence]|].
    split; [congruence|]. by intros _.
  - split; [by left|].
    split; [split; [intros _; split; [assumption|split; [assumption|]];
                    by exists agents
                   |by intros _]|].
    split; [|congruence].
    intros _. split; [assumption|]. split; [assumption|].
    split; [assumption|]. split; [assumption|].
    split; [by exists agents|by exists w].
Qed.

Lemma runForge_outcome_witness :
  status (session (forged (runForge
                             (MoreSamples.forge_world
                                MoreSamples.working_pipeline
                                MoreSamples.steady_daemon)
                             MoreSamples.sample_session
                             Docker.new_DockerManager))) = RUNNING.
Proof.
  destruct (runForge_outcome
              (MoreSamples.forge_world MoreSamples.working_pipeline
                 MoreSamples.steady_daemon)
              MoreSamples.sample_session Docker.new_DockerManager eq_refl)
    as (_ & _ & Hiff & _).
  apply Hiff. split; [reflexivity|]. split; [reflexivity|].
  exists [ {| Docker.agentId := "1";
              Docker.containerId := "c-tokamak-agent-1fa0007c-1" |};
           {| Docker.agentId := "2";
              Docker.containerId := "c-tokamak-agent-1fa0007c-2" |};
           {| Docker.agentId := "3";
              Docker.containerId := "c-tokamak-agent-1fa0007c-3" |} ].
  vm_compute. reflexivity.
Defined.

(** What a run has sent once its session is told a final report. *)
Lemma sent_after_reports (c : nat → Z) (body : list Progress)
    (final : Progress) (r : Run) :
  is_final final = true →
  sent (foldl (onProgress c) r (body ++ [final]))
  = (sent (foldl (onProgress c) r body)
     ++ [ {| kind := match final with
                     | complete _ _ => "forge:complete"
                     | _ => "forge:error"
                     end;
             shown := Some (toJSON (session (foldl (onProgress c) r body))) |} ])%list
  ∧ session (foldl (onProgress c) r (body ++ [final]))
    = session (foldl (onProgress c) r body).
Proof.
  intros Hfinal. rewrite foldl_snoc.
  destruct final; try discriminate; by split.
Qed.

(** X25.  In a forge during which no other request is handled: when a
    step of the pipeline throws, the session stays at the
    number of that step and is stopped; its paths and container ids are
    as before, and the docker manager is untouched.  The clients are told
    twice: the last two broadcasts are both 'forge:error', the first
    still showing the status of the failing step, the second showing
    'stopped'. *)
Theorem failed_step_is_recorded (fw : ForgeWorld) (s : Session)
    (dm : Docker.DockerManager) (k : Z) :
  first_failure (steps (pipeline fw)) = Some k →
  let f := runForge fw s dm in
  let s' := session (forged f) in
  status s' = STOPPED ∧ forgeStep s' = k
  ∧ repoPath s' = repoPath s ∧ workDir s' = workDir s
  ∧ containerIds s' = containerIds s
  ∧ manager_after f = dm
  ∧ ∃ earlier b1 b2,
      sent (forged f) = (earlier ++ [b1; b2])%list
      ∧ kind b1 = "forge:error" ∧ kind b2 = "forge:error"
      ∧ status <$> shown b1 = Some (status_for_step k)
      ∧ forgeStep <$> shown b1 = Some k
      ∧ shown b2 = Some (toJSON s').
Proof.
  intros Hff f s'.
  destruct (runForge_cases fw s dm) as [_ Hcases].
  fold f s' in Hcases.
  destruct Hcases
    as [(k' & Hff' & Hk & Hst & Hfs & Hrp & Hwd & Hcids & Hdm & _)
       |(Hff' & _)]; [|congruence].
  assert (k' = k) as -> by congruence.
  do 6 (split; [assumption|]).
  subst s' f. unfold runForge.
  destruct (run_cases (gameName s) (pipeline fw))
    as [(Hnone & _)
       |(k2 & e & Hff2 & _ & Hr & _ & body & Hps & _ & Hnum)];
    [congruence|].
  assert (k2 = k) as -> by congruence.
  destruct (run (gameName s) (pipeline fw)) as [reports result].
  cbn [fst snd] in Hr, Hps. subst result reports.
  destruct (sent_after_reports (clock fw) body (error e)
              {| session := s; written := O; sent := [] |} eq_refl)
    as [Hsent Hsess].
  destruct (fold_onProgress_status (clock fw) body
              {| session := s; written := O; sent := [] |}) as [Hst1 Hfs1].
  rewrite Hnum, last_step_numbers in Hst1, Hfs1 by lia.
  cbn [from_option default] in Hst1, Hfs1.
  session_fields. rewrite Hsent, Hsess.
  eexists _, _, _. rewrite <- app_assoc.
  split; [reflexivity|]. cbn [kind shown fmap option_fmap option_map].
  split; [reflexivity|]. split; [reflexivity|].
  session_fields. rewrite Hst1, Hfs1. by repeat split.
Qed.

Lemma failed_step_is_recorded_witness :
  let f := runForge (MoreSamples.forge_world MoreSamples.broken_pipeline
                       MoreSamples.steady_daemon)
             MoreSamples.sample_session Docker.new_DockerManager in
  status (session (forged f)) = STOPPED ∧ forgeStep (session (forged f)) = 1.
Proof.
  assert (H : first_failure
                (steps (pipeline (MoreSamples.forge_world
                                    MoreSamples.broken_pipeline
                                    MoreSamples.steady_daemon))) = Some 1)
    by (vm_compute; reflexivity).
  destruct (failed_step_is_recorded _ MoreSamples.sample_session
              Docker.new_DockerManager 1 H) as (Hst & Hfs & _).
  split; [exact Hst|exact Hfs].
Defined.

End RunForgeFacts.

(* ===================================================================== *)
(** * server.js: the session slot, from forge to stop *)
(* ===================================================================== *)

Section DashboardFacts.

Import Session Server Forge Dashboard.

Lemma valid_truthy (g : string) : valid_gameName g = true → JS.truthy g = true.
Proof. unfold valid_gameName. by intros [? _]%andb_true_iff. Qed.

Lemma post_forge_free body rnd now (m : SessionManager) g :
  body_gameName body = Some (VString g) → valid_gameName g = true →
  getActive m = None →
  post_forge body rnd now m
  = (Reply200 (new_Session g (forge_count (body_agentCount body)) rnd now),
     snd (create g (forge_count (body_agentCount body)) rnd now m)).
Proof.
  intros Hb Hv Hact. unfold post_forge.
  rewrite Hb, (valid_truthy g Hv), Hv. cbn [negb].
  unfold create. rewrite blocking_getActive, Hact. reflexivity.
Qed.

Lemma post_forge_blocked body rnd now (m : SessionManager) a s :
  getActive m = Some a → fst (post_forge body rnd now m) ≠ Reply200 s.
Proof.
  intros Hact. unfold post_forge.
  destruct (body_gameName body) as [[| | |g|]|]; try discriminate.
  destruct (negb (JS.truthy g)); [discriminate|].
  destruct (negb (valid_gameName g)); [discriminate|].
  unfold create. rewrite blocking_getActive, Hact. discriminate.
Qed.

Lemma getActive_write_back (s : Session) (m : SessionManager) :
  activeSessionId m = Some (id s) → id s ≠ "" →
  getActive (write_back s m)
  = if String.eqb (status s) STOPPED then None else Some s.
Proof.
  intros Hact Hid. unfold getActive, write_back.
  cbn [activeSessionId sessions]. rewrite Hact.
  apply truthy_true in Hid. rewrite Hid, lookup_insert_eq. reflexivity.
Qed.

Lemma toHex_nonempty (rnd : Bytes4) : toHex rnd ≠ "".
Proof. apply truthy_true, toHex_truthy. Qed.

(** What an accepted request leaves in the three variables. *)
Lemma forge_request_accepted body rnd now fw (d : Dashboard) g :
  body_gameName body = Some (VString g) → valid_gameName g = true →
  getActive (sessionManager d) = None →
  let s := new_Session g (forge_count (body_agentCount body)) rnd now in
  let f := runForge fw s (dockerManager d) in
  forge_request body rnd now fw d
  = (Reply200 s,
     {| sessionManager :=
          write_back (session (forged f))
            (snd (create g (forge_count (body_agentCount body)) rnd now
                    (sessionManager d)));
        dockerManager := manager_after f;
        watcher := watcher_after f |},
     sent (forged f)).
Proof.
  intros Hb Hv Hact s f. unfold forge_request.
  rewrite (post_forge_free body rnd now _ g Hb Hv Hact). reflexivity.
Qed.

Lemma forged_active body rnd now fw (d : Dashboard) g :
  getActive (sessionManager d) = None →
  let s := new_Session g (forge_count (body_agentCount body)) rnd now in
  let f := runForge fw s (dockerManager d) in
  let m' := write_back (session (forged f))
              (snd (create g (forge_count (body_agentCount body)) rnd now
                      (sessionManager d))) in
  sessions m' !! toHex rnd = Some (session (forged f))
  ∧ getActive m'
    = if String.eqb (status (session (forged f))) STOPPED then None
      else Some (session (forged f)).
Proof.
  intros Hact s f m'.
  destruct (runForge_cases fw s (dockerManager d)) as [(Hid & _) _].
  fold f in Hid. change (id s) with (toHex rnd) in Hid.
  destruct (create_succeeds g (forge_count (body_agentCount body)) rnd now
              (sessionManager d) Hact) as [_ Hm].
  split.
  - subst m'. unfold write_back. cbn [sessions].
    rewrite Hid. apply lookup_insert_eq.
  - subst m'. apply getActive_write_back.
    + rewrite Hm, Hid. reflexivity.
    + rewrite Hid. apply toHex_nonempty.
Qed.



(** X27.  The forge being taken as run to its end before the next
    request is handled: when creating or starting a container fails in
    the middle of a launch, the session is stopped but the containers
    started before the failure stay where they are.  They remain in the
    containers map under their agent numbers, and a stop request made
    afterwards, finding no active session, is answered 404 and leaves
    the map as it is. *)
Theorem failed_launch_leaves_containers body rnd now fw (d : Dashboard) g e :
  body_gameName body = Some (VString g) → valid_gameName g = true →
  getActive (sessionManager d) = None →
  first_failure (steps (pipeline fw)) = None →
  build_error fw = None →
  let s := new_Session g (forge_count (body_agentCount body)) rnd now in
  fst (Docker.launchAgents (daemon fw) (environment fw)
         (with_paths (repoPath_of g) (projectDir_of g) s)
         (dockerManager d)) = Throw e →
  let d' := snd (fst (forge_request body rnd now fw d)) in
  (∃ s', sessions (sessionManager d') !! toHex rnd = Some s'
         ∧ status s' = STOPPED)
  ∧ fst (fst (post_stop d')) = 404
  ∧ dockerManager (snd (fst (post_stop d'))) = dockerManager d'
  ∧ ∃ (n : nat) (started : list Docker.Launched),
      (n < Docker.rounds (forge_count (body_agentCount body)))%nat
      ∧ Docker.agentId <$> started = Docker.agent_ids 1 n
      ∧ Docker.containers (dockerManager d')
        = Docker.record_all started (Docker.containers (dockerManager d))
      ∧ ∀ l, l ∈ started →
          Docker.containers (dockerManager d') !! Docker.agentId l
          = Some (Docker.containerId l).
Proof.
  intros Hb Hv Hact Hff Hbuild s Hthrow d'. subst d'.
  rewrite (forge_request_accepted body rnd now fw d g Hb Hv Hact).
  cbn [fst snd]. fold s.
  set (f := runForge fw s (dockerManager d)).
  destruct (forged_active body rnd now fw d g Hact) as [Hlook Hget].
  fold s f in Hlook, Hget.
  destruct (runForge_cases fw s (dockerManager d)) as [_ Hcases].
  fold f in Hcases. change (gameName s) with g in Hcases.
  destruct Hcases
    as [(k & Hff' & _)
       |(_ & _ & _ & _
         & [(e' & Hb' & _)
           |(_ & Hdm
             & [(e' & _ & Hst & _ & _)
               |(agents & w & Hl & _)])])]; try congruence.
  rewrite Hst in Hget. cbn in Hget.
  split; [exists (session (forged f)); by split|].
  assert (Hstop : post_stop
                    {| sessionManager :=
                         write_back (session (forged f))
                           (snd (create g (forge_count (body_agentCount body))
                                   rnd now (sessionManager d)));
                       dockerManager := manager_after f;
                       watcher := watcher_after f |}
                  = (404,
                     {| sessionManager :=
                          write_back (session (forged f))
                            (snd (create g (forge_count (body_agentCount body))
                                    rnd now (sessionManager d)));
                        dockerManager := manager_after f;
                        watcher := watcher_after f |}, [])).
  { unfold post_stop. cbn [sessionManager]. by rewrite Hget. }
  rewrite Hstop. cbn [fst snd dockerManager].
  split; [reflexivity|]. split; [reflexivity|].
  rewrite Hdm. unfold Docker.launchAgents in Hthrow |- *.
  destruct (launch_loop_spec (daemon fw) (environment fw)
              (with_paths (repoPath_of g) (projectDir_of g) s)
              (Docker.rounds
                 (agentCount (with_paths (repoPath_of g) (projectDir_of g) s)))
              1 (dockerManager d) [])
    as (n & new & _ & Hids & _ & Hcont & _ & Hres).
  destruct Hres as [[Hok _]|(msg & _ & Hlt & _)]; [congruence|].
  exists n, new. split; [exact Hlt|]. split; [exact Hids|].
  split; [exact Hcont|].
  intros l Hl. rewrite Hcont. apply record_all_in; [|assumption].
  rewrite Hids. apply agent_ids_NoDup.
Qed.

Lemma failed_launch_leaves_containers_witness :
  let d' := snd (fst (forge_request MoreSamples.tetris_body
                        Samples.sample_bytes 1700
                        (MoreSamples.forge_world MoreSamples.working_pipeline
                           MoreSamples.flaky_daemon)
                        MoreSamples.empty_dashboard)) in
  fst (fst (post_stop d')) = 404
  ∧ dockerManager (snd (fst (post_stop d'))) = dockerManager d'.
Proof.
  intros d'.
  assert (Hact : getActive (sessionManager MoreSamples.empty_dashboard) = None)
    by reflexivity.
  assert (Hff : first_failure
                  (steps (pipeline (MoreSamples.forge_world
                                      MoreSamples.working_pipeline
                                      MoreSamples.flaky_daemon))) = None)
    by reflexivity.
  assert (Hthrow :
            fst (Docker.launchAgents MoreSamples.flaky_daemon
                   MoreSamples.sample_env
                   (with_paths (repoPath_of "tetris") (projectDir_of "tetris")
                      (new_Session "tetris"
                         (forge_count (Some (VInt 3)))
                         Samples.sample_bytes 1700))
                   Docker.new_DockerManager)
            = Throw "no space left on device")
    by (vm_compute; reflexivity).
  destruct (failed_launch_leaves_containers MoreSamples.tetris_body
              Samples.sample_bytes 1700
              (MoreSamples.forge_world MoreSamples.working_pipeline
                 MoreSamples.flaky_daemon)
              MoreSamples.empty_dashboard "tetris" "no space left on device"
              eq_refl eq_refl Hact Hff eq_refl Hthrow)
    as (_ & H404 & Hdm & _).
  split; [exact H404|exact Hdm].
Defined.

Lemma keyed_create gameName n rnd now (m : SessionManager) :
  keyed m → keyed (snd (create gameName n rnd now m)).
Proof.
  intros Hk. unfold create. destruct (blocking m); [exact Hk|].
  intros i s. cbn [snd sessions new_Session id].
  destruct (decide (i = toHex rnd)) as [->|Hne].
  - rewrite lookup_insert_eq. by intros [= <-].
  - rewrite lookup_insert_ne by congruence. apply Hk.
Qed.




Lemma keyed_new : keyed new_SessionManager.
Proof. intros i s. cbn [sessions new_SessionManager]. by rewrite lookup_empty. Qed.


End DashboardFacts.

(* ===================================================================== *)
(** * server.js: the statuses the clients are shown *)
(* ===================================================================== *)

Section StatusOrder.

Import Session Forge Dashboard.

Lemma StronglySorted_snoc (l : list Z) (x : Z) :
  StronglySorted Z.le l → Forall (λ y, y ≤ x) l →
  StronglySorted Z.le (l ++ [x]).
Proof.
  induction 1 as [|y l Hs IH Hy]; intros Hall; simpl.
  - repeat constructor.
  - apply Forall_cons in Hall as [Hyx Hall].
    constructor; [by apply IH|].
    apply Forall_app. split; [assumption|by repeat constructor].
Qed.

Lemma rank_range (st : string) : 0 ≤ rank st ≤ 5.
Proof.
  unfold rank.
  repeat match goal with
         | |- context [String.eqb ?a ?b] => destruct (String.eqb a b)
         end; lia.
Qed.

Lemma rank_status_for_step (n : Z) :
  1 ≤ rank (status_for_step n) ≤ 3.
Proof.
  unfold status_for_step.
  destruct (n <=? 2); [by vm_compute|].
  destruct (n =? 3); by vm_compute.
Qed.

Lemma rank_status_for_step_mono (n n' : Z) :
  n ≤ n' → rank (status_for_step n) ≤ rank (status_for_step n').
Proof.
  intros Hle. unfold status_for_step.
  destruct (Z.leb_spec n 2), (Z.leb_spec n' 2); try lia;
    destruct (Z.eqb_spec n 3), (Z.eqb_spec n' 3); try lia;
    by vm_compute.
Qed.

Lemma shown_ranks_snoc (bs : list Broadcast) (k : string) (s : Session) :
  shown_ranks (bs ++ [ {| kind := k; shown := Some (toJSON s) |} ])
  = (shown_ranks bs ++ [rank (status s)])%list.
Proof. unfold shown_ranks. by rewrite omap_app. Qed.

Lemma advancing_send (k : string) (r : Run) :
  advancing r → advancing (send k r).
Proof.
  intros [Hs Hall]. unfold advancing, send. cbn [session sent].
  rewrite shown_ranks_snoc. split.
  - by apply StronglySorted_snoc.
  - apply Forall_app. split; [assumption|]. by repeat constructor.
Qed.

Lemma advancing_write_log (c : nat → Z) (m : string) (r : Run) :
  advancing r → advancing (write_log c m r).
Proof. intros H. exact H. Qed.

Lemma advancing_logForge (c : nat → Z) (m : string) (r : Run) :
  advancing r → advancing (logForge c m r).
Proof. intros H. by apply advancing_send, advancing_write_log. Qed.

Lemma advancing_setStatus (st : string) (r : Run) :
  advancing r → rank (status (session r)) ≤ rank st →
  advancing (update (setStatus st) r).
Proof.
  intros [Hs Hall] Hle. split; [exact Hs|].
  cbn [session sent update setStatus with_status status].
  eapply Forall_impl; [exact Hall|]. intros x Hx. simpl in Hx. lia.
Qed.

Lemma advancing_update (f : Session → Session) (r : Run) :
  advancing r → status (f (session r)) = status (session r) →
  advancing (update f r).
Proof.
  intros [Hs Hall] Heq. split; [exact Hs|].
  cbn [session sent update]. by rewrite Heq.
Qed.

Lemma advancing_same (r r' : Run) :
  advancing r → session r' = session r →
  shown_ranks (sent r') = shown_ranks (sent r) → advancing r'.
Proof. intros H Hs Hr. unfold advancing. by rewrite Hs, Hr. Qed.

Lemma advancing_onProgress (c : nat → Z) (r : Run) (p : Progress) :
  advancing r →
  (∀ n, step_number p = Some n →
        rank (status (session r)) ≤ rank (status_for_step n)) →
  advancing (onProgress c r p).
Proof.
  intros H Hn. unfold onProgress. apply advancing_send.
  destruct p; try assumption.
  apply advancing_setStatus; [by apply advancing_update|].
  apply Hn. reflexivity.
Qed.

Lemma advancing_pipeline (c : nat → Z) (ps : list Progress) (r : Run) :
  advancing r →
  StronglySorted Z.le (step_numbers ps) →
  Forall (λ n, rank (status (session r)) ≤ rank (status_for_step n))
    (step_numbers ps) →
  advancing (foldl (onProgress c) r ps).
Proof.
  revert r. induction ps as [|p ps IH]; intros r Hadv Hsorted Hall;
    [assumption|].
  simpl. destruct (onProgress_status c r p) as [Hst _].
  destruct p as [n msg|m|ch|rp wd|e]; cbn [step_number from_option] in Hst;
    try (apply IH;
         [apply advancing_onProgress; [assumption|discriminate]
         |exact Hsorted
         |by rewrite Hst]).
  unfold step_numbers in Hsorted, Hall.
  cbn [omap list_omap step_number] in Hsorted, Hall.
  fold (step_numbers ps) in Hsorted, Hall.
  apply StronglySorted_inv in Hsorted as [Hsorted Hle].
  apply Forall_cons in Hall as [Hn Hall].
  apply IH.
  - apply advancing_onProgress; [assumption|]. by intros n' [= <-].
  - exact Hsorted.
  - rewrite Hst. eapply Forall_impl; [exact Hle|].
    intros n' Hn'. simpl in Hn'. by apply rank_status_for_step_mono.
Qed.

Lemma advancing_agents (c : nat → Z) (agents : list Docker.Launched)
    (r : Run) :
  advancing r →
  advancing (foldl (λ r l, logForge c (started_line l) r) r agents).
Proof.
  revert r. induction agents as [|l agents IH]; intros r H; [assumption|].
  simpl. by apply IH, advancing_logForge.
Qed.

Lemma advancing_failed (r : Run) (dm : Docker.DockerManager) :
  advancing r → advancing (forged (failed r dm)).
Proof.
  intros H. unfold failed. cbn [forged]. apply advancing_send.
  apply advancing_setStatus; [assumption|]. apply rank_range.
Qed.

Lemma sorted_step_numbers (k : Z) :
  0 ≤ k ≤ 5 → StronglySorted Z.le (Z.of_nat <$> seq 0 (Z.to_nat k + 1)).
Proof.
  intros Hk.
  assert (Hcases : k = 0 ∨ k = 1 ∨ k = 2 ∨ k = 3 ∨ k = 4 ∨ k = 5) by lia.
  destruct Hcases as [->|[->|[->|[->|[->| ->]]]]]; simpl;
    repeat (constructor; [|repeat (constructor; [lia|]); constructor]);
    constructor.
Qed.

(** X29.  As long as no other request is handled while it runs, the
    clients never see a forge go backwards.  For a session that starts
    as 'initializing', the statuses shown in the broadcasts of its
    forge, in the order sent, only move forward along initializing,
    scaffolding, generating-spec, launching-agents, running, with
    'stopped' last.  (What a stop request handled in between does to
    this is the subject of X30.) *)
Theorem statuses_only_advance (fw : ForgeWorld) (s : Session)
    (dm : Docker.DockerManager) :
  status s = INITIALIZING →
  StronglySorted Z.le (shown_ranks (sent (forged (runForge fw s dm)))).
Proof.
  intros Hinit.
  enough (Hadv : advancing (forged (runForge fw s dm))) by apply Hadv.
  unfold runForge.
  set (r0 := {| session := s; written := O; sent := [] |}).
  assert (H0 : advancing r0) by (split; constructor).
  assert (H1 : advancing
                 (foldl (onProgress (clock fw)) r0
                    (fst (run (gameName s) (pipeline fw))))).
  { apply advancing_pipeline; [exact H0| |].
    - destruct (run_cases (gameName s) (pipeline fw))
        as [(_ & _ & body & -> & _ & Hnum)
           |(k & e & _ & Hk & _ & _ & body & -> & _ & Hnum)];
        rewrite step_numbers_app, Hnum;
        cbn [step_numbers omap list_omap step_number];
        rewrite app_nil_r.
      + repeat (constructor; [|repeat (constructor; [lia|]); constructor]).
        constructor.
      + by apply sorted_step_numbers.
    - apply Forall_forall. intros n _. cbn [session r0].
      rewrite Hinit. pose proof (rank_status_for_step n) as Hn.
      change (rank INITIALIZING) with 0. lia. }
  assert (Hle : rank (status (session
                   (foldl (onProgress (clock fw)) r0
                      (fst (run (gameName s) (pipeline fw)))))) ≤ 3).
  { destruct (fold_onProgress_status (clock fw)
                (fst (run (gameName s) (pipeline fw))) r0) as [-> _].
    destruct (last _) as [n|]; cbn [from_option].
    - apply rank_status_for_step.
    - cbn [session r0]. rewrite Hinit. by vm_compute. }
  destruct (run (gameName s) (pipeline fw)) as [reports [[repo work]|e]];
    cbn [fst] in H1, Hle; [|by apply advancing_failed].
  set (r1 := foldl (onProgress (clock fw)) r0 reports) in *.
  destruct (Watcher.poll (first_poll fw) (Watcher.new_RepoWatcher work))
    as [w events].
  destruct (fold_watcher_event events (update (with_paths repo work) r1))
    as [Hsess Hranks].
  set (r3 := foldl watcher_event (update (with_paths repo work) r1) events)
    in *.
  assert (H3 : advancing r3).
  { eapply advancing_same; [|exact Hsess|exact Hranks].
    by apply advancing_update. }
  assert (H4 : advancing
                 (send "forge:progress"
                    (update (setForgeStep 6)
                       (update (setStatus LAUNCHING_AGENTS) r3)))).
  { apply advancing_send, advancing_update; [|reflexivity].
    apply advancing_setStatus; [exact H3|].
    rewrite Hsess. cbn [session update with_paths status].
    change (rank LAUNCHING_AGENTS) with 3. exact Hle. }
  destruct (build_error fw) as [e|].
  { by apply advancing_failed, advancing_logForge. }
  match goal with
  | |- context [Docker.launchAgents ?dk ?env ?s7 dm] =>
      destruct (Docker.launchAgents dk env s7 dm) as [[agents|e] dm']
  end.
  2:{ apply advancing_failed. by do 3 apply advancing_logForge. }
  cbn [forged]. apply advancing_send, advancing_logForge.
  match goal with
  | |- context [foldl ?fn ?r7 agents] =>
      destruct (fold_logForge_fields (clock fw) started_line agents r7)
        as (_ & _ & _ & Fst & _);
      assert (H8 : advancing (foldl fn r7 agents))
        by (apply advancing_agents; by do 3 apply advancing_logForge);
      set (r8 := foldl fn r7 agents) in *
  end.
  apply advancing_setStatus; [by apply advancing_update|].
  cbn [session update with_containerIds status].
  rewrite Fst. by vm_compute.
Qed.

Lemma statuses_only_advance_witness :
  StronglySorted Z.le
    (shown_ranks
       (sent (forged (runForge
                        (MoreSamples.forge_world MoreSamples.working_pipeline
                           MoreSamples.steady_daemon)
                        MoreSamples.sample_session
                        Docker.new_DockerManager)))).
Proof.
  apply (statuses_only_advance _ MoreSamples.sample_session
           Docker.new_DockerManager eq_refl).
Defined.

End StatusOrder.

(* ===================================================================== *)
(** * server.js: a stop request while a forge is running *)
(* ===================================================================== *)

Section StopDuringForge.

Import Session Server Forge Dashboard.

Lemma status_for_step_live (n : Z) : status_for_step n ≠ STOPPED.
Proof.
  unfold status_for_step.
  destruct (n <=? 2); [discriminate|]. destruct (n =? 3); discriminate.
Qed.

(** X30.  A stop request does not end a forge that is still in its
    pipeline.  The handler, run while the forge waits between two
    reports (no container being tracked yet, it has nothing to wait for
    and runs whole), answers 200 and marks the forge's session
    'stopped', so that nothing is active; but it leaves the session's
    id as the active one, and the forge's next step report sets the
    status of that same session to the status of its step whatever it
    was.  From then on the session is active again: no further forge
    request is accepted.  A log report does not have this effect. *)
Theorem stop_is_undone_by_next_step (d : Dashboard) (c : nat → Z)
    (r : Run) (n : Z) (msg : string) :
  keyed (sessionManager d) →
  Docker.containers (dockerManager d) = ∅ →
  getActive (sessionManager d) = Some (session r) →
  let d1 := snd (fst (post_stop d)) in
  let stopped := update (setStatus STOPPED) r in
  let r2 := onProgress c stopped (step n msg) in
  let m2 := write_back (session r2) (sessionManager d1) in
  fst (fst (post_stop d)) = 200
  ∧ sessions (sessionManager d1) !! id (session r) = Some (session stopped)
  ∧ getActive (sessionManager d1) = None
  ∧ status (session r2) = status_for_step n
  ∧ status (session r2) ≠ STOPPED
  ∧ getActive m2 = Some (session r2)
  ∧ (∀ body rnd now s2, fst (post_forge body rnd now m2) ≠ Reply200 s2)
  ∧ (∀ message,
       status (session (onProgress c stopped (log message))) = STOPPED).
Proof.
  intros Hk _ Hact d1 stopped r2 m2.
  destruct (getActive_Some _ _ Hact) as (aid & Haid & Hne & Hlook & Hst).
  pose proof (Hk aid _ Hlook) as Hid.
  assert (Hkey : stop_key (Some (id (session r))) (sessionManager d)
                 = Some aid).
  { unfold stop_key. rewrite Hid. apply truthy_true in Hne. by rewrite Hne. }
  assert (Hd1 : sessionManager d1
                = snd (stop (Some (id (session r))) (sessionManager d))).
  { subst d1. unfold post_stop. by rewrite Hact. }
  assert (Hactive : activeSessionId (sessionManager d1) = Some aid).
  { rewrite Hd1. unfold stop. rewrite Hkey, Hlook. exact Haid. }
  assert (Hstored : sessions (sessionManager d1) !! aid
                    = Some (setStatus STOPPED (session r))).
  { rewrite Hd1, stop_lookup, Hkey, decide_True by reflexivity.
    by rewrite Hlook. }
  split; [unfold post_stop; by rewrite Hact|].
  split; [by rewrite Hid|].
  split.
  { unfold getActive. rewrite Hactive.
    apply truthy_true in Hne. rewrite Hne, Hstored. reflexivity. }
  split; [reflexivity|]. split; [apply status_for_step_live|].
  assert (Hget : getActive m2 = Some (session r2)).
  { subst m2. rewrite getActive_write_back.
    - change (status (session r2)) with (status_for_step n).
      destruct (String.eqb_spec (status_for_step n) STOPPED) as [Heq|_];
        [by apply status_for_step_live in Heq|reflexivity].
    - rewrite Hactive. f_equal. by rewrite <- Hid.
    - change (id (session r2)) with (id (session r)). by rewrite Hid. }
  split; [exact Hget|]. split.
  - intros body rnd now s2. by eapply post_forge_blocked.
  - reflexivity.
Qed.

Lemma stop_is_undone_by_next_step_witness :
  let s := new_Session "tetris" (JS.Num 3) Samples.sample_bytes 1700 in
  let d := {| sessionManager :=
                snd (create "tetris" (JS.Num 3) Samples.sample_bytes 1700
                       new_SessionManager);
              dockerManager := Docker.new_DockerManager;
              watcher := None |} in
  let r := {| session := s; written := O; sent := [] |} in
  getActive (sessionManager (snd (fst (post_stop d)))) = None
  ∧ status (session (onProgress (λ _, 1701)
                       (update (setStatus STOPPED) r)
                       (step 3 "Generating SPEC.md")))
    = GENERATING_SPEC.
Proof.
  intros s d r.
  assert (Hk : keyed (sessionManager d))
    by (apply keyed_create, keyed_new).
  assert (Hact : getActive (sessionManager d) = Some (session r))
    by (apply getActive_created; reflexivity).
  destruct (stop_is_undone_by_next_step d (λ _, 1701) r 3
              "Generating SPEC.md" Hk eq_refl Hact)
    as (_ & _ & Hnone & Hstatus & _).
  split; [exact Hnone|exact Hstatus].
Defined.

End StopDuringForge.
